(** * RepeatMasker utilities: a shallow embedding and its verified properties

    The development follows the two scripts of the repository,
    [parse_repeat_masker_out.py] and [extract_repmap_props.py].

    Modelling conventions.
    - A text file is the list of the lines that iterating over the file
      handle yields; every function that reads a file takes that list.
    - A file that is written is the list of the strings passed to
      [fh.write], in order; a function that may raise after it has written
      returns what was written together with its outcome.
    - Python [str] values are [string]s; a character stands for the code
      point of its number, so the strings are those of the code points 0
      to 255.  The character classes ([str.isspace], [str.isnumeric], the
      whitespace that [int] and [float] strip) are the ones that Python
      has on these code points.
    - Python [int] is [Z]; Python [float] is [pyfloat], the binary64 values
      as signed dyadic numbers together with the infinities and NaN.
      The interpreter's limit on the number of digits of a conversion
      between [int] and [str] is taken to be switched off.
    - Exceptions are the constructors of [exn]; a computation that may
      raise returns a [result].  An [assert] is executed (the interpreter
      does not run with [-O]) and raises [AssertionError] when it
      fails. *)

From Stdlib Require Import ZArith Ascii String List Bool Lia.
From stdpp Require Import base option list strings gmap sorting.

Local Open Scope string_scope.
Local Open Scope Z_scope.
Local Open Scope list_scope.

(** ** Exceptions and the error monad *)

Inductive exn : Set :=
| IndexError
| KeyError
| ValueError
| UnboundLocalError
| AssertionError
| ZeroDivisionError
| OverflowError.

Inductive result (A : Type) : Type :=
| Ok (a : A)
| Raise (e : exn).
Arguments Ok {A} a.
Arguments Raise {A} e.

Definition rbind {A B : Type} (r : result A) (k : A → result B) : result B :=
  match r with
  | Ok a => k a
  | Raise e => Raise e
  end.

Notation "x <~ r ;; k" := (rbind r (fun x => k))
  (at level 100, r at next level, right associativity).

Definition raises {A : Type} (r : result A) : Prop :=
  match r with
  | Ok _ => False
  | Raise _ => True
  end.

(** [for x in xs: st = body(st, x)], stopping at the first exception. *)
Fixpoint for_each {S X : Type} (body : S → X → result S) (xs : list X) (st : S)
  : result S :=
  match xs with
  | [] => Ok st
  | x :: xs' => st' <~ body st x ;; for_each body xs' st'
  end.

(** ** Python strings *)

Module PyStr.

Definition code (c : ascii) : Z := Z.of_N (N_of_ascii c).

(** [str.isspace]: TAB, LF, VT, FF, CR, the separators FS, GS, RS, US,
    the space, NEL (U+0085) and the no-break space (U+00A0). *)
Definition is_space (c : ascii) : bool :=
  ((9 <=? code c) && (code c <=? 13))
  || ((28 <=? code c) && (code c <=? 32))
  || (code c =? 133) || (code c =? 160).

(** The whitespace that [int] and [float] accept around a number:
    TAB, LF, VT, FF, CR, the space, NEL and the no-break space. *)
Definition is_num_space (c : ascii) : bool :=
  ((9 <=? code c) && (code c <=? 13)) || (code c =? 32)
  || (code c =? 133) || (code c =? 160).

(** The numeric characters of [str.isnumeric]: the decimal digits, the
    superscripts two, three and one (U+00B2, U+00B3, U+00B9) and the
    fractions one quarter, one half and three quarters (U+00BC to
    U+00BE). *)
Definition is_numeric_char (c : ascii) : bool :=
  ((48 <=? code c) && (code c <=? 57))
  || (code c =? 178) || (code c =? 179) || (code c =? 185)
  || ((188 <=? code c) && (code c <=? 190)).

Definition is_digit (c : ascii) : bool :=
  (48 <=? code c) && (code c <=? 57).

Definition digit_val (c : ascii) : Z := code c - 48.

Definition is_newline (c : ascii) : bool := code c =? 10.

Fixpoint all_chars (p : ascii → bool) (s : string) : bool :=
  match s with
  | EmptyString => true
  | String c s' => p c && all_chars p s'
  end.

Fixpoint lstrip (p : ascii → bool) (s : string) : string :=
  match s with
  | EmptyString => EmptyString
  | String c s' => if p c then lstrip p s' else s
  end.

Fixpoint rstrip (p : ascii → bool) (s : string) : string :=
  match s with
  | EmptyString => EmptyString
  | String c s' =>
      match rstrip p s' with
      | EmptyString => if p c then EmptyString else String c EmptyString
      | r => String c r
      end
  end.

(** [s.strip(chars)] *)
Definition strip (p : ascii → bool) (s : string) : string :=
  rstrip p (lstrip p s).

(** [s.startswith(c)] for a one-character prefix. *)
Definition startswith (c : ascii) (s : string) : bool :=
  match s with
  | EmptyString => false
  | String c' _ => Ascii.eqb c' c
  end.

(** [s.isnumeric()] *)
Definition isnumeric (s : string) : bool :=
  match s with
  | EmptyString => false
  | String _ _ => all_chars is_numeric_char s
  end.

(** [s.split()]: maximal runs of non-space characters. *)
Fixpoint split (s : string) : list string :=
  match s with
  | EmptyString => []
  | String c s' =>
      if is_space c then split s'
      else
        match s' with
        | EmptyString => [String c EmptyString]
        | String c' _ =>
            if is_space c' then String c EmptyString :: split s'
            else
              match split s' with
              | w :: ws => String c w :: ws
              | [] => [String c EmptyString]
              end
        end
  end.

(** [s.split(sep)] for a one-character separator. *)
Fixpoint split_on (sep : ascii) (s : string) : list string :=
  match s with
  | EmptyString => [EmptyString]
  | String c s' =>
      if Ascii.eqb c sep then EmptyString :: split_on sep s'
      else
        match split_on sep s' with
        | w :: ws => String c w :: ws
        | [] => [String c EmptyString]
        end
  end.

(** [sep.join(fields)] *)
Fixpoint join (sep : string) (fields : list string) : string :=
  match fields with
  | [] => ""
  | [f] => f
  | f :: fs => f +:+ sep +:+ join sep fs
  end.

(** Decimal digits with single underscores allowed between digits. *)
Fixpoint parse_digits (acc : Z) (after_digit : bool) (s : string) : option Z :=
  match s with
  | EmptyString => if after_digit then Some acc else None
  | String c s' =>
      if is_digit c then parse_digits (10 * acc + digit_val c) true s'
      else if Ascii.eqb c "_" && after_digit then
        match s' with
        | String c' _ => if is_digit c' then parse_digits acc false s' else None
        | EmptyString => None
        end
      else None
  end.

(** [int(s)] in base 10: surrounding whitespace, an optional sign,
    then digits. *)
Definition int_of_string (s : string) : result Z :=
  let t := strip is_num_space s in
  let r :=
    match t with
    | String "+" u => parse_digits 0 false u
    | String "-" u => Z.opp <$> parse_digits 0 false u
    | _ => parse_digits 0 false t
    end in
  match r with
  | Some z => Ok z
  | None => Raise ValueError
  end.

Definition digit_char (d : Z) : ascii := ascii_of_N (Z.to_N (48 + d)).

Fixpoint digits_go (fuel : nat) (n : Z) (acc : string) : string :=
  match fuel with
  | O => acc
  | S fuel' =>
      let acc' := String (digit_char (n mod 10)) acc in
      if n <? 10 then acc' else digits_go fuel' (n / 10) acc'
  end.

Definition str_of_nat_Z (n : Z) : string :=
  digits_go (S (Z.to_nat (Z.log2 n))) n "".

(** [str(z)] for an [int]. *)
Definition str_of_Z (z : Z) : string :=
  if z <? 0 then String "-" (str_of_nat_Z (- z)) else str_of_nat_Z z.

End PyStr.

(** ** Python floats *)

Module PyFloat.
Import PyStr.

(** A binary64 value: NaN, an infinity, or [(-1)^neg * m * 2^e] with
    [0 <= m].  The code never compares floats, so the mantissa is not
    kept normalised. *)
Inductive pyfloat : Set :=
| FNaN
| FInf (neg : bool)
| FFin (neg : bool) (m : Z) (e : Z).

(** Nearest integer to [n / d], ties to the even one ([0 <= n], [0 < d]). *)
Definition round_half_even (n d : Z) : Z :=
  let q := n / d in
  let r := n mod d in
  if (d <? 2 * r) || ((2 * r =? d) && Z.odd q) then q + 1 else q.

(** [floor (log2 (n / d))] for [0 < n] and [0 < d]. *)
Definition floor_log2_ratio (n d : Z) : Z :=
  let k := Z.log2 n - Z.log2 d in
  let above := if 0 <=? k then d * 2 ^ k <=? n else d <=? n * 2 ^ (- k) in
  if above then k else k - 1.

(** The least magnitude that rounds to an infinity: halfway between the
    largest binary64 value and [2^1024]. *)
Definition float_limit : Z := 2 ^ 1024 - 2 ^ 970.

(** The rational [n / d] rounds to a finite binary64 exactly when it is
    below [float_limit]. *)
Definition fits64 (n d : Z) : bool := n <? d * float_limit.

(** The binary64 nearest to [n / d], as mantissa and exponent: 53 bits
    of precision, exponent at least -1074. *)
Definition round64_finite (n d : Z) : Z * Z :=
  if n =? 0 then (0, 0)
  else
    let e := Z.max (floor_log2_ratio n d - 52) (-1074) in
    let m := if 0 <=? e then round_half_even n (d * 2 ^ e)
             else round_half_even (n * 2 ^ (- e)) d in
    (m, e).

Definition round64 (n d : Z) : option (Z * Z) :=
  if fits64 n d then Some (round64_finite n d) else None.

(** [float(z)] for an [int]. *)
Definition float_of_int (z : Z) : result pyfloat :=
  match round64 (Z.abs z) 1 with
  | Some (m, e) => Ok (FFin (z <? 0) m e)
  | None => Raise OverflowError
  end.

(** [a / b] for two [int]s. *)
Definition int_truediv (a b : Z) : result pyfloat :=
  if b =? 0 then Raise ZeroDivisionError
  else
    match round64 (Z.abs a) (Z.abs b) with
    | Some (m, e) => Ok (FFin (xorb (a <? 0) (b <? 0)) m e)
    | None => Raise OverflowError
    end.

(** [x / k] for a float [x] and a positive [int] constant [k]. *)
Definition float_div_int (x : pyfloat) (k : Z) : pyfloat :=
  match x with
  | FNaN => FNaN
  | FInf s => FInf s
  | FFin s m e =>
      let n := if 0 <=? e then m * 2 ^ e else m in
      let d := if 0 <=? e then k else k * 2 ^ (- e) in
      match round64 n d with
      | Some (m', e') => FFin s m' e'
      | None => FInf s
      end
  end.

(** *** [float(s)] *)

(** A run [digit ("_"? digit)*]: the accumulated value, the number of
    digits read and the rest of the string. *)
Fixpoint scan_digits (acc cnt : Z) (s : string) : Z * Z * string :=
  match s with
  | EmptyString => (acc, cnt, EmptyString)
  | String c s' =>
      if is_digit c then
        let acc' := 10 * acc + digit_val c in
        match s' with
        | String "_" (String c2 _ as s'') =>
            if is_digit c2 then scan_digits acc' (cnt + 1) s''
            else (acc', cnt + 1, s')
        | _ => scan_digits acc' (cnt + 1) s'
        end
      else (acc, cnt, s)
  end.

Definition lower (c : ascii) : ascii :=
  if (65 <=? code c) && (code c <=? 90)
  then ascii_of_N (Z.to_N (code c + 32)) else c.

Fixpoint lower_str (s : string) : string :=
  match s with
  | EmptyString => EmptyString
  | String c s' => String (lower c) (lower_str s')
  end.

(** The exponent part after the mantissa: empty, or [e], an optional
    sign and digits. *)
Definition scan_exponent (s : string) : option Z :=
  match s with
  | EmptyString => Some 0
  | String c s' =>
      if Ascii.eqb (lower c) "e" then
        let '(neg, u) :=
          match s' with
          | String "+" u => (false, u)
          | String "-" u => (true, u)
          | _ => (false, s')
          end in
        match scan_digits 0 0 u with
        | (ev, ec, EmptyString) =>
            if 0 <? ec then Some (if neg then - ev else ev) else None
        | _ => None
        end
      else None
  end.

(** The decimal [mant * 10^ex] rounded to binary64; too large a value
    becomes an infinity. *)
Definition float_of_decimal (neg : bool) (mant ex : Z) : pyfloat :=
  let n := if 0 <=? ex then mant * 10 ^ ex else mant in
  let d := if 0 <=? ex then 1 else 10 ^ (- ex) in
  match round64 n d with
  | Some (m, e) => FFin neg m e
  | None => FInf neg
  end.

Definition float_of_string (s : string) : result pyfloat :=
  let t := strip is_num_space s in
  let '(neg, u) :=
    match t with
    | String "+" u => (false, u)
    | String "-" u => (true, u)
    | _ => (false, t)
    end in
  let lu := lower_str u in
  if String.eqb lu "inf" || String.eqb lu "infinity" then Ok (FInf neg)
  else if String.eqb lu "nan" then Ok FNaN
  else
    let '(ip, ic, r1) := scan_digits 0 0 u in
    let '(mant, fc, r2) :=
      match r1 with
      | String "." r => scan_digits ip 0 r
      | _ => (ip, 0, r1)
      end in
    if 0 <? ic + fc then
      match scan_exponent r2 with
      | Some ex => Ok (float_of_decimal neg mant (ex - fc))
      | None => Raise ValueError
      end
    else Raise ValueError.

(** *** The [g] presentation type *)

Definition ndigits (n : Z) : Z := Z.of_nat (String.length (str_of_nat_Z n)).

(** [floor (log10 (n / d))] for [0 < n] and [0 < d]. *)
Definition floor_log10_ratio (n d : Z) : Z :=
  let k := ndigits n - ndigits d in
  let above := if 0 <=? k then d * 10 ^ k <=? n else d <=? n * 10 ^ (- k) in
  if above then k else k - 1.

(** [n / d] rounded to [p] significant decimal digits: the [p]-digit
    integer and the decimal exponent of its leading digit. *)
Definition round_sig (p n d : Z) : Z * Z :=
  let x := floor_log10_ratio n d in
  let s := p - 1 - x in
  let q := if 0 <=? s then round_half_even (n * 10 ^ s) d
           else round_half_even n (d * 10 ^ (- s)) in
  if q =? 10 ^ p then (10 ^ (p - 1), x + 1) else (q, x).

Fixpoint zeros (k : nat) : string :=
  match k with
  | O => EmptyString
  | S k' => String "0" (zeros k')
  end.

Fixpoint take_str (k : nat) (s : string) : string :=
  match k, s with
  | S k', String c s' => String c (take_str k' s')
  | _, _ => EmptyString
  end.

Fixpoint drop_str (k : nat) (s : string) : string :=
  match k, s with
  | S k', String _ s' => drop_str k' s'
  | _, _ => s
  end.

Definition is_zero_char (c : ascii) : bool := Ascii.eqb c "0".

(** An integer part and a fraction part, the fraction without its
    trailing zeros and the point only when a fraction remains. *)
Definition with_fraction (ipart frac : string) : string :=
  match rstrip is_zero_char frac with
  | EmptyString => ipart
  | f => ipart +:+ "." +:+ f
  end.

(** The exponent suffix: a sign and at least two digits. *)
Definition exponent_suffix (x : Z) : string :=
  let a := str_of_nat_Z (Z.abs x) in
  let a2 := if Z.abs x <? 10 then String "0" a else a in
  let sgn : ascii := if Z.ltb x 0 then "-"%char else "+"%char in
  String "e" (String sgn a2).

Definition format_g_finite (p m e : Z) : string :=
  if m =? 0 then "0"
  else
    let n := if 0 <=? e then m * 2 ^ e else m in
    let d := if 0 <=? e then 1 else 2 ^ (- e) in
    let '(q, x) := round_sig p n d in
    let ds := str_of_nat_Z q in
    if (-4 <=? x) && (x <? p) then
      if 0 <=? x then
        with_fraction (take_str (Z.to_nat (x + 1)) ds)
                      (drop_str (Z.to_nat (x + 1)) ds)
      else with_fraction "0" (zeros (Z.to_nat (- x - 1)) +:+ ds)
    else with_fraction (take_str 1 ds) (drop_str 1 ds) +:+ exponent_suffix x.

(** [f'{x:0.<p>g}']: general format with [p] significant digits (a
    precision of 0 counts as 1); the zero flag has no effect without a
    width. *)
Definition format_g (p : Z) (x : pyfloat) : string :=
  let p := Z.max p 1 in
  match x with
  | FNaN => "nan"
  | FInf neg => if neg then "-inf" else "inf"
  | FFin neg m e =>
      let body := format_g_finite p m e in
      if neg then String "-" body else body
  end.

(** [f'{z:0.<p>g}'] for an [int]: the value is converted with [float]
    first. *)
Definition format_g_int (p : Z) (z : Z) : result string :=
  x <~ float_of_int z ;; Ok (format_g p x).

End PyFloat.

Import PyStr PyFloat.

Definition TAB : string := String "009"%char EmptyString.
Definition NL : string := String "010"%char EmptyString.

(** [for i, x in enumerate(xs)] *)
Definition enumerate {X : Type} (xs : list X) : list (nat * X) :=
  zip (seq 0 (length xs)) xs.

(** [str(v)] for a value that is [None] or already a string. *)
Definition str_or_None (v : option string) : string :=
  match v with
  | Some s => s
  | None => "None"
  end.

(** ** [sorted] *)

Section PySorted.
Context {A K : Type} (key : A → K) (leb : K → K → bool).

(** [x] is placed before the first element whose key is not below its
    own, hence before the elements of equal key that followed it in the
    input. *)
Fixpoint insert_by (x : A) (l : list A) : list A :=
  match l with
  | [] => [x]
  | y :: l' =>
      if leb (key x) (key y) then x :: y :: l' else y :: insert_by x l'
  end.

(** [sorted(l, key=key)]: the stable sort of [l] by [key]. *)
Fixpoint py_sorted (l : list A) : list A :=
  match l with
  | [] => []
  | x :: l' => insert_by x (py_sorted l')
  end.

(** The order of the keys, on the elements. *)
Definition key_le (x y : A) : Prop := leb (key x) (key y) = true.
End PySorted.

(** Python's order on [str]: lexicographic on the character codes. *)
Fixpoint str_leb (s t : string) : bool :=
  match s, t with
  | EmptyString, _ => true
  | String _ _, EmptyString => false
  | String a s', String b t' =>
      if code a <? code b then true
      else if code a =? code b then str_leb s' t'
      else false
  end.

(** ** [parse_repeat_masker_out.py] *)

(** The part of a class/family string before its first [/]:
    [rep_class.split('/')[0]]. *)
Definition top_class (rep_class : string) : string :=
  match split_on "/" rep_class with
  | c :: _ => c
  | [] => EmptyString
  end.

Module RepeatDivsum.
Record t : Set := mk {
  r_class : string;
  r_family : string;
  r_id : string;
  abs_len : Z;
  wchar_len : Z;
  kimura : pyfloat
}.

(** [RepeatDivsum.__init__] *)
Definition init (rep_class rep_id : string) (abs_len well_char_len : Z)
    (kimura : pyfloat) : t :=
  {| r_class := top_class rep_class;
     r_family := rep_class;
     r_id := rep_id;
     abs_len := abs_len;
     wchar_len := well_char_len;
     kimura := float_div_int kimura 100 |}.
End RepeatDivsum.

Module RepeatAnnot.
Record t : Set := mk {
  name : string;
  r_class : string;
  r_family : string;
  chrom : string;
  start : Z;
  end_ : Z;
  strand : string;
  score : Z
}.

(** [RepeatAnnot.__init__] *)
Definition init (rep_name rep_class chromosome : string) (start end_ : Z)
    (strand : string) (sw_score : Z) : t :=
  {| name := rep_name;
     r_class := top_class rep_class;
     r_family := rep_class;
     chrom := chromosome;
     start := start;
     end_ := end_;
     strand := strand;
     score := sw_score |}.
End RepeatAnnot.

(** *** [parse_divsum_table] *)

(** The dictionary under construction and the two counters that the
    function reports when it returns. *)
Record divsum_state : Type := {
  divsum : gmap string RepeatDivsum.t;
  records : Z;
  discard : Z
}.

Definition divsum_init : divsum_state :=
  {| divsum := ∅; records := 0; discard := 0 |}.

Definition divsum_skip : list string :=
  ["Class"; "ARTEFACT"; "Simple_repeat"; "-----"].

(** The body of the loop over the lines of the divergence summary. *)
Definition divsum_body (min_len : Z) (st : divsum_state) (line : string)
  : result divsum_state :=
  let line := strip is_newline line in
  if startswith "#" line then Ok st
  else if (String.length line =? 0)%nat then Ok st
  else
    match split_on "009" line with
    | [f0; f1; f2; f3; f4] =>
        if bool_decide (f0 ∈ divsum_skip) then Ok st
        else
          let recs := records st + 1 in
          abs_len <~ int_of_string f2 ;;
          well_char_len <~ int_of_string f3 ;;
          kimura <~ float_of_string f4 ;;
          let repeat_summary :=
            RepeatDivsum.init f0 f1 abs_len well_char_len kimura in
          if RepeatDivsum.wchar_len repeat_summary <? min_len then
            Ok {| divsum := divsum st; records := recs;
                  discard := discard st + 1 |}
          else
            Ok {| divsum := <[RepeatDivsum.r_id repeat_summary := repeat_summary]>
                              (divsum st);
                  records := recs; discard := discard st |}
    | _ => Ok st
    end.

Definition parse_divsum_table (lines : list string) (min_len : Z)
  : result divsum_state :=
  for_each (divsum_body min_len) lines divsum_init.

(** *** [parse_crossmatch_table] *)

(** The local variables that the [try] block assigns.  They belong to the
    function, not to one iteration: a variable keeps the value of an
    earlier iteration until it is assigned again, and is unbound ([None])
    before its first assignment. *)
Record cm_locals : Set := {
  sw_score : option Z;
  chromosome : option string;
  start_bp : option Z;
  end_bp : option Z;
  re_name : option string;
  re_class : option string;
  strand : option string
}.

Definition cm_unbound : cm_locals :=
  {| sw_score := None; chromosome := None; start_bp := None; end_bp := None;
     re_name := None; re_class := None; strand := None |}.

(** The annotation list, the two counters, the lines reported as
    malformed (index and content) and the local variables. *)
Record cm_state : Set := {
  cross_match : list RepeatAnnot.t;
  cm_records : Z;
  cm_kept : Z;
  cm_reported : list (nat * string);
  cm_vars : cm_locals
}.

Definition cm_init : cm_state :=
  {| cross_match := []; cm_records := 0; cm_kept := 0; cm_reported := [];
     cm_vars := cm_unbound |}.

(** [fields[i]] *)
Definition field (fields : list string) (i : nat) : result string :=
  match fields !! i with
  | Some f => Ok f
  | None => Raise IndexError
  end.

(** Reading a local variable. *)
Definition read_local {V : Type} (v : option V) : result V :=
  match v with
  | Some x => Ok x
  | None => Raise UnboundLocalError
  end.

(** The statements of the [try] block after [records += 1], run from the
    local variables [v]: the variables as the block leaves them and the
    exception that ended it, if any.  An assignment takes effect only
    when its right-hand side has been evaluated. *)
Definition cm_try (fields : list string) (v : cm_locals)
  : cm_locals * option exn :=
  match f0 <~ field fields 0 ;; int_of_string f0 with
  | Raise e => (v, Some e)
  | Ok x0 =>
  let v := {| sw_score := Some x0; chromosome := chromosome v;
              start_bp := start_bp v; end_bp := end_bp v;
              re_name := re_name v; re_class := re_class v;
              strand := strand v |} in
  match field fields 4 with
  | Raise e => (v, Some e)
  | Ok x4 =>
  let v := {| sw_score := sw_score v; chromosome := Some x4;
              start_bp := start_bp v; end_bp := end_bp v;
              re_name := re_name v; re_class := re_class v;
              strand := strand v |} in
  match f5 <~ field fields 5 ;; int_of_string f5 with
  | Raise e => (v, Some e)
  | Ok x5 =>
  let v := {| sw_score := sw_score v; chromosome := chromosome v;
              start_bp := Some x5; end_bp := end_bp v;
              re_name := re_name v; re_class := re_class v;
              strand := strand v |} in
  match f6 <~ field fields 6 ;; int_of_string f6 with
  | Raise e => (v, Some e)
  | Ok x6 =>
  let v := {| sw_score := sw_score v; chromosome := chromosome v;
              start_bp := start_bp v; end_bp := Some x6;
              re_name := re_name v; re_class := re_class v;
              strand := strand v |} in
  match field fields 9 with
  | Raise e => (v, Some e)
  | Ok x9 =>
  let v := {| sw_score := sw_score v; chromosome := chromosome v;
              start_bp := start_bp v; end_bp := end_bp v;
              re_name := Some x9; re_class := re_class v;
              strand := strand v |} in
  match field fields 10 with
  | Raise e => (v, Some e)
  | Ok x10 =>
  let v := {| sw_score := sw_score v; chromosome := chromosome v;
              start_bp := start_bp v; end_bp := end_bp v;
              re_name := re_name v; re_class := Some x10;
              strand := strand v |} in
  match field fields 8 with
  | Raise e => (v, Some e)
  | Ok x8 =>
  let s := if String.eqb x8 "C" then "-" else x8 in
  ({| sw_score := sw_score v; chromosome := chromosome v;
      start_bp := start_bp v; end_bp := end_bp v;
      re_name := re_name v; re_class := re_class v;
      strand := Some s |}, None)
  end end end end end end end.

(** [RepeatAnnot(re_name, re_class, chromosome, start_bp, end_bp, strand,
    sw_score)], the arguments read from the local variables in this
    order. *)
Definition cm_annotation (v : cm_locals) : result RepeatAnnot.t :=
  a_name <~ read_local (re_name v) ;;
  a_class <~ read_local (re_class v) ;;
  a_chrom <~ read_local (chromosome v) ;;
  a_start <~ read_local (start_bp v) ;;
  a_end <~ read_local (end_bp v) ;;
  a_strand <~ read_local (strand v) ;;
  a_score <~ read_local (sw_score v) ;;
  Ok (RepeatAnnot.init a_name a_class a_chrom a_start a_end a_strand a_score).

(** The statements after the [try] statement: build the annotation from
    the local variables, count it and append it. *)
Definition cm_append (st : cm_state) (recs : Z) (reported : list (nat * string))
    (v : cm_locals) : result cm_state :=
  annotation <~ cm_annotation v ;;
  Ok {| cross_match := cross_match st ++ [annotation];
        cm_records := recs;
        cm_kept := cm_kept st + 1;
        cm_reported := reported;
        cm_vars := v |}.

(** The [try] statement of a record line and the statements after it.
    Only [IndexError] is caught by the [except] clause, which prints the
    report and falls through to the statements after the [try]
    statement. *)
Definition cm_record (st : cm_state) (i : nat) (line : string)
    (fields : list string) : result cm_state :=
  let recs := cm_records st + 1 in
  match cm_try fields (cm_vars st) with
  | (v, None) => cm_append st recs (cm_reported st) v
  | (v, Some IndexError) =>
      cm_append st recs (cm_reported st ++ [(i, line)]) v
  | (_, Some e) => Raise e
  end.

(** The body of the loop over the numbered lines of the cross-match
    table. *)
Definition crossmatch_body (st : cm_state) (il : nat * string)
  : result cm_state :=
  let i := il.1 in
  let line := strip is_newline il.2 in
  if startswith "#" line then Ok st
  else if (String.length line =? 0)%nat then Ok st
  else
    let fields := split line in
    f0 <~ field fields 0 ;;
    if negb (isnumeric f0) then Ok st
    else cm_record st i line fields.

Definition parse_crossmatch_table (lines : list string) : result cm_state :=
  for_each crossmatch_body (enumerate lines) cm_init.

(** *** [merge_cross_divsum] *)

(** What a function that writes a table leaves behind: the strings
    written to the file, in order, and whether it returned or raised. *)
Record written : Type := {
  out_lines : list string;
  outcome : result unit
}.

Definition merge_header : string :=
  join TAB ["#Chromosome"; "StartBP"; "EndBP"; "Strand"; "Name"; "Class";
            "Family"; "WellCharLen"; "Kimura"; "SwScore"] +:+ NL.

(** The divergence values of an annotation: [wchar_len] and [kimura] stay
    [None] when the name has no divergence record; the [assert] on the
    classes guards the two assignments. *)
Definition merge_lookup (divsum : gmap string RepeatDivsum.t)
    (annotation : RepeatAnnot.t) : result (option Z * option string) :=
  match divsum !! RepeatAnnot.name annotation with
  | Some divergence =>
      if String.eqb (RepeatAnnot.r_class annotation)
                    (RepeatDivsum.r_class divergence)
      then Ok (Some (RepeatDivsum.wchar_len divergence),
               Some (format_g 6 (RepeatDivsum.kimura divergence)))
      else Raise AssertionError
  | None => Ok (None, None)
  end.

(** The ten fields of the row of an annotation. *)
Definition merge_fields (annotation : RepeatAnnot.t)
    (wchar_len : option Z) (kimura : option string) (score : string)
  : list string :=
  [RepeatAnnot.chrom annotation;
   str_of_Z (RepeatAnnot.start annotation);
   str_of_Z (RepeatAnnot.end_ annotation);
   RepeatAnnot.strand annotation;
   RepeatAnnot.name annotation;
   RepeatAnnot.r_class annotation;
   RepeatAnnot.r_family annotation;
   str_or_None (str_of_Z <$> wchar_len);
   str_or_None kimura;
   score].

(** One iteration of the loop, up to the string handed to [fh.write]. *)
Definition merge_row (divsum : gmap string RepeatDivsum.t)
    (annotation : RepeatAnnot.t) : result string :=
  d <~ merge_lookup divsum annotation ;;
  score <~ format_g_int 6 (RepeatAnnot.score annotation) ;;
  Ok (join TAB (merge_fields annotation d.1 d.2 score) +:+ NL).

(** The loop over the sorted annotations; an exception leaves the rows
    written so far in the file. *)
Fixpoint merge_loop (divsum : gmap string RepeatDivsum.t)
    (annotations : list RepeatAnnot.t) (out : list string) : written :=
  match annotations with
  | [] => {| out_lines := out; outcome := Ok () |}
  | annotation :: rest =>
      match merge_row divsum annotation with
      | Ok row => merge_loop divsum rest (out ++ [row])
      | Raise e => {| out_lines := out; outcome := Raise e |}
      end
  end.

Definition merge_cross_divsum (cross_match : list RepeatAnnot.t)
    (divsum : gmap string RepeatDivsum.t) : written :=
  merge_loop divsum (py_sorted RepeatAnnot.start Z.leb cross_match)
             [merge_header].

(** *** [clean_divsum_file] *)

Definition divsum_header : string :=
  join TAB ["Class"; "Repeat"; "absLen"; "wellCharLen"; "Kimura"] +:+ NL.

Definition divsum_fields (div : RepeatDivsum.t) : list string :=
  [RepeatDivsum.r_family div;
   RepeatDivsum.r_id div;
   str_of_Z (RepeatDivsum.abs_len div);
   str_of_Z (RepeatDivsum.wchar_len div);
   format_g 8 (RepeatDivsum.kimura div)].

Definition divsum_row (div : RepeatDivsum.t) : string :=
  join TAB (divsum_fields div) +:+ NL.

(** [sorted(divsum)]: the keys of the dictionary in ascending order. *)
Definition sorted_keys (divsum : gmap string RepeatDivsum.t) : list string :=
  py_sorted id str_leb (map_to_list divsum).*1.

Fixpoint clean_loop (divsum : gmap string RepeatDivsum.t)
    (elements : list string) (out : list string) : written :=
  match elements with
  | [] => {| out_lines := out; outcome := Ok () |}
  | element :: rest =>
      match divsum !! element with
      | Some div => clean_loop divsum rest (out ++ [divsum_row div])
      | None => {| out_lines := out; outcome := Raise KeyError |}
      end
  end.

Definition clean_divsum_file (divsum : gmap string RepeatDivsum.t) : written :=
  clean_loop divsum (sorted_keys divsum) [divsum_header].

(** ** [extract_repmap_props.py] *)

Module RepProp.
Record t : Set := mk {
  seq_id : string;
  total_length : Z;
  total_masked : Z;
  interspersed : Z;
  dna : Z;
  ltr : Z;
  line : Z;
  sine : Z;
  small_rna : Z;
  unclassified : Z
}.

(** [RepProp.__init__] *)
Definition init (seq_id : string) : t :=
  mk seq_id 0 0 0 0 0 0 0 0 0.
End RepProp.

Definition props_header : string :=
  join TAB ["SequenceID"; "TotalSeqLen_BP"; "Masked_BP"; "Masked_Prop";
            "Interspersed_BP"; "Interspersed_Prop"; "DNA_BP"; "DNA_Prop";
            "LTR_BP"; "LTR_Prop"; "LINE_BP"; "LINE_Prop"; "SINE_BP";
            "SINE_Prop"; "smallRNA_BP"; "smallRNA_Prop"; "Unclassified_BP";
            "Unclassified_Prop"] +:+ NL.

(** [f'{(value/total):0.08g}'] *)
Definition proportion (value total : Z) : result string :=
  x <~ int_truediv value total ;; Ok (format_g 8 x).

(** The list [row] of [print_table], its elements evaluated in order. *)
Definition props_fields (rep_props : RepProp.t) : result (list string) :=
  let total := RepProp.total_length rep_props in
  p_masked <~ proportion (RepProp.total_masked rep_props) total ;;
  p_inter <~ proportion (RepProp.interspersed rep_props) total ;;
  p_dna <~ proportion (RepProp.dna rep_props) total ;;
  p_ltr <~ proportion (RepProp.ltr rep_props) total ;;
  p_line <~ proportion (RepProp.line rep_props) total ;;
  p_sine <~ proportion (RepProp.sine rep_props) total ;;
  p_small <~ proportion (RepProp.small_rna rep_props) total ;;
  p_uncl <~ proportion (RepProp.unclassified rep_props) total ;;
  Ok [RepProp.seq_id rep_props;
      str_of_Z total;
      str_of_Z (RepProp.total_masked rep_props); p_masked;
      str_of_Z (RepProp.interspersed rep_props); p_inter;
      str_of_Z (RepProp.dna rep_props); p_dna;
      str_of_Z (RepProp.ltr rep_props); p_ltr;
      str_of_Z (RepProp.line rep_props); p_line;
      str_of_Z (RepProp.sine rep_props); p_sine;
      str_of_Z (RepProp.small_rna rep_props); p_small;
      str_of_Z (RepProp.unclassified rep_props); p_uncl].

(** The header is written before the row is computed. *)
Definition print_table (rep_props : RepProp.t) : written :=
  match props_fields rep_props with
  | Ok row =>
      {| out_lines := [props_header; join TAB row +:+ NL]; outcome := Ok () |}
  | Raise e => {| out_lines := [props_header]; outcome := Raise e |}
  end.

(** *** [parse_rm_table] *)

Definition is_blank (c : ascii) : bool := code c =? 32.

(** [line[0] in {'-', '='}] for a non-empty line. *)
Definition is_border (line : string) : bool :=
  match line with
  | String c _ => Ascii.eqb c "-" || Ascii.eqb c "="
  | EmptyString => false
  end.

(** [int(fields[i])] *)
Definition int_field (fields : list string) (i : nat) : result Z :=
  f <~ field fields i ;; int_of_string f.

(** The attribute updates of [rep_props]. *)
Definition with_total_length (v : Z) (r : RepProp.t) : RepProp.t :=
  RepProp.mk (RepProp.seq_id r) v (RepProp.total_masked r)
    (RepProp.interspersed r) (RepProp.dna r) (RepProp.ltr r) (RepProp.line r)
    (RepProp.sine r) (RepProp.small_rna r) (RepProp.unclassified r).

Definition with_total_masked (v : Z) (r : RepProp.t) : RepProp.t :=
  RepProp.mk (RepProp.seq_id r) (RepProp.total_length r) v
    (RepProp.interspersed r) (RepProp.dna r) (RepProp.ltr r) (RepProp.line r)
    (RepProp.sine r) (RepProp.small_rna r) (RepProp.unclassified r).

Definition with_interspersed (v : Z) (r : RepProp.t) : RepProp.t :=
  RepProp.mk (RepProp.seq_id r) (RepProp.total_length r)
    (RepProp.total_masked r) v (RepProp.dna r) (RepProp.ltr r)
    (RepProp.line r) (RepProp.sine r) (RepProp.small_rna r)
    (RepProp.unclassified r).

Definition with_dna (v : Z) (r : RepProp.t) : RepProp.t :=
  RepProp.mk (RepProp.seq_id r) (RepProp.total_length r)
    (RepProp.total_masked r) (RepProp.interspersed r) v (RepProp.ltr r)
    (RepProp.line r) (RepProp.sine r) (RepProp.small_rna r)
    (RepProp.unclassified r).

Definition with_ltr (v : Z) (r : RepProp.t) : RepProp.t :=
  RepProp.mk (RepProp.seq_id r) (RepProp.total_length r)
    (RepProp.total_masked r) (RepProp.interspersed r) (RepProp.dna r) v
    (RepProp.line r) (RepProp.sine r) (RepProp.small_rna r)
    (RepProp.unclassified r).

Definition with_line (v : Z) (r : RepProp.t) : RepProp.t :=
  RepProp.mk (RepProp.seq_id r) (RepProp.total_length r)
    (RepProp.total_masked r) (RepProp.interspersed r) (RepProp.dna r)
    (RepProp.ltr r) v (RepProp.sine r) (RepProp.small_rna r)
    (RepProp.unclassified r).

Definition with_sine (v : Z) (r : RepProp.t) : RepProp.t :=
  RepProp.mk (RepProp.seq_id r) (RepProp.total_length r)
    (RepProp.total_masked r) (RepProp.interspersed r) (RepProp.dna r)
    (RepProp.ltr r) (RepProp.line r) v (RepProp.small_rna r)
    (RepProp.unclassified r).

Definition with_small_rna (v : Z) (r : RepProp.t) : RepProp.t :=
  RepProp.mk (RepProp.seq_id r) (RepProp.total_length r)
    (RepProp.total_masked r) (RepProp.interspersed r) (RepProp.dna r)
    (RepProp.ltr r) (RepProp.line r) (RepProp.sine r) v
    (RepProp.unclassified r).

Definition with_unclassified (v : Z) (r : RepProp.t) : RepProp.t :=
  RepProp.mk (RepProp.seq_id r) (RepProp.total_length r)
    (RepProp.total_masked r) (RepProp.interspersed r) (RepProp.dna r)
    (RepProp.ltr r) (RepProp.line r) (RepProp.sine r) (RepProp.small_rna r)
    v.

(** The [if]/[elif] chain on the left-trimmed line. *)
Definition rm_table_assign (rep_props : RepProp.t) (line : string)
    (fields : list string) : result RepProp.t :=
  if String.prefix "total length" line then
    v <~ int_field fields 2 ;; Ok (with_total_length v rep_props)
  else if String.prefix "bases masked" line then
    v <~ int_field fields 2 ;; Ok (with_total_masked v rep_props)
  else if String.prefix "Total interspersed" line then
    v <~ int_field fields 3 ;; Ok (with_interspersed v rep_props)
  else if String.prefix "DNA transposons" line then
    v <~ int_field fields 3 ;; Ok (with_dna v rep_props)
  else if String.prefix "LTR elements" line then
    v <~ int_field fields 3 ;; Ok (with_ltr v rep_props)
  else if String.prefix "LINEs" line then
    v <~ int_field fields 2 ;; Ok (with_line v rep_props)
  else if String.prefix "SINEs" line then
    v <~ int_field fields 2 ;; Ok (with_sine v rep_props)
  else if String.prefix "Small RNA" line then
    v <~ int_field fields 3 ;; Ok (with_small_rna v rep_props)
  else if String.prefix "Unclassified" line then
    v <~ int_field fields 2 ;; Ok (with_unclassified v rep_props)
  else Ok rep_props.

(** The body of the loop over the lines of the summary table. *)
Definition rm_table_body (rep_props : RepProp.t) (raw : string)
  : result RepProp.t :=
  let line := strip is_newline raw in
  if (String.length line =? 0)%nat then Ok rep_props
  else if is_border line then Ok rep_props
  else
    let line := lstrip is_blank line in
    let fields := split line in
    rm_table_assign rep_props line fields.

Definition parse_rm_table (rm_table : list string) (sequence_id : string)
  : result RepProp.t :=
  for_each rm_table_body rm_table (RepProp.init sequence_id).

(** *** The two [main] functions and the check of [--min-length] *)

(** How the check of a command-line value ends: with the value, with
    [sys.exit] and its message, or with an exception. *)
Inductive checked (A : Type) : Type :=
| Accepted (a : A)
| Exits (message : string)
| Fails (e : exn).
Arguments Accepted {A} a.
Arguments Exits {A} message.
Arguments Fails {A} e.

(** The treatment of [args.min_length] in [parse_args]; the argument is
    [None] when the option is not given. *)
Definition check_min_length (min_length : option string) : checked Z :=
  match min_length with
  | Some min_len =>
      if isnumeric min_len then
        match int_of_string min_len with
        | Ok z => Accepted z
        | Raise e => Fails e
        end
      else
        Exits (String "034" ("Error: min len (" +:+ min_len
                             +:+ ") must be numeric."))
  | None => Accepted (-1000000000)
  end.

(** What a run leaves behind: for each output file the strings written
    to it, or [None] when the file was never opened. *)
Record run : Type := {
  merged_tsv : option (list string);
  divsum_tsv : option (list string);
  props_tsv : option (list string);
  run_outcome : result unit
}.

Module ParseRepeatMaskerOut.
(** [main], after [parse_args] has produced the minimum length. *)
Definition main (cross_match_f divsum_f : list string) (min_length : Z) : run :=
  match parse_crossmatch_table cross_match_f with
  | Raise e => {| merged_tsv := None; divsum_tsv := None; props_tsv := None;
                  run_outcome := Raise e |}
  | Ok cm =>
      match parse_divsum_table divsum_f min_length with
      | Raise e => {| merged_tsv := None; divsum_tsv := None;
                      props_tsv := None; run_outcome := Raise e |}
      | Ok ds =>
          let merged := merge_cross_divsum (cross_match cm) (divsum ds) in
          match outcome merged with
          | Raise e => {| merged_tsv := Some (out_lines merged);
                          divsum_tsv := None; props_tsv := None;
                          run_outcome := Raise e |}
          | Ok _ =>
              let clean := clean_divsum_file (divsum ds) in
              {| merged_tsv := Some (out_lines merged);
                 divsum_tsv := Some (out_lines clean);
                 props_tsv := None;
                 run_outcome := outcome clean |}
          end
      end
  end.
End ParseRepeatMaskerOut.

Module ExtractRepmapProps.
(** [main]: the basename is also the sequence identifier. *)
Definition main (rm_table : list string) (basename : string) : run :=
  match parse_rm_table rm_table basename with
  | Raise e => {| merged_tsv := None; divsum_tsv := None; props_tsv := None;
                  run_outcome := Raise e |}
  | Ok repeat_proportions =>
      let table := print_table repeat_proportions in
      {| merged_tsv := None; divsum_tsv := None;
         props_tsv := Some (out_lines table);
         run_outcome := outcome table |}
  end.
End ExtractRepmapProps.

(** *** The output directory on the command line *)

Definition is_slash (c : ascii) : bool := Ascii.eqb c "/".

(** The treatment of [args.outdir] in the two [parse_args], over the
    answer of [os.path.exists]. *)
Definition check_outdir (path_exists : string → bool) (outdir : string)
  : checked string :=
  let outdir := rstrip is_slash outdir in
  if negb (path_exists outdir) then
    Exits ("Error: '" +:+ outdir +:+ "' not found.")
  else Accepted outdir.

(** A file system in which only the directory [out] exists. *)
Definition only_out (path : string) : bool := String.eqb path "out".

(** ** Vocabulary of the specification *)

(** The ten decimal digits. *)
Definition decimal_digits : list ascii :=
  ["0"; "1"; "2"; "3"; "4"; "5"; "6"; "7"; "8"; "9"]%char.

(** The numeric characters: the decimal digits, the superscripts 2, 3 and
    1 and the fractions 1/4, 1/2 and 3/4. *)
Definition numeric_chars : list ascii :=
  decimal_digits ++ ["178"; "179"; "185"; "188"; "189"; "190"]%char.

(** A string whose first character is a decimal digit. *)
Definition starts_with_digit (s : string) : Prop :=
  match s with
  | String c _ => is_digit c = true
  | EmptyString => False
  end.

(** A string of ASCII characters. *)
Definition is_ascii (s : string) : Prop :=
  Forall (λ c, code c < 128) (list_ascii_of_string s).

(** A line whose first field is the superscript two. *)
Definition superscript_line : string := String "178" " x".

(** No class mismatch between an annotation and the divergence record
    of its name. *)
Definition consistent (cross_match : list RepeatAnnot.t)
    (divsum : gmap string RepeatDivsum.t) : Prop :=
  ∀ a d, a ∈ cross_match → divsum !! RepeatAnnot.name a = Some d →
         RepeatAnnot.r_class a = RepeatDivsum.r_class d.

(** Every alignment score is within the range of a binary64 float. *)
Definition scores_fit (cross_match : list RepeatAnnot.t) : Prop :=
  ∀ a, a ∈ cross_match → Z.abs (RepeatAnnot.score a) < float_limit.

(** Ascending start coordinates. *)
Definition start_le (a b : RepeatAnnot.t) : Prop :=
  RepeatAnnot.start a <= RepeatAnnot.start b.

(** *** The divergence summary, in the words of the specification *)

(** A candidate record: a line that is neither a comment nor empty, that
    has exactly five tab-separated fields and whose first field is not
    one of the labels to skip. *)
Definition divsum_candidate (raw : string) : option (list string) :=
  let line := strip is_newline raw in
  if startswith "#" line || (String.length line =? 0)%nat then None
  else
    let fields := split_on "009" line in
    if (length fields =? 5)%nat
       && negb (bool_decide (default EmptyString (head fields) ∈ divsum_skip))
    then Some fields else None.

(** The record of a candidate: its two lengths read as integers, its
    Kimura percentage read as a float. *)
Definition divsum_record (fields : list string) : result RepeatDivsum.t :=
  match fields with
  | [f0; f1; f2; f3; f4] =>
      abs_len <~ int_of_string f2 ;;
      well_char_len <~ int_of_string f3 ;;
      kimura <~ float_of_string f4 ;;
      Ok (RepeatDivsum.init f0 f1 abs_len well_char_len kimura)
  | _ => Raise ValueError
  end.

(** The records of the candidate lines of a file, in file order. *)
Fixpoint divsum_records (lines : list string) : result (list RepeatDivsum.t) :=
  match lines with
  | [] => Ok []
  | raw :: rest =>
      match divsum_candidate raw with
      | None => divsum_records rest
      | Some fields =>
          r <~ divsum_record fields ;;
          rs <~ divsum_records rest ;;
          Ok (r :: rs)
      end
  end.

(** The records that pass the minimum length, and those that do not. *)
Definition retained (min_len : Z) (recs : list RepeatDivsum.t)
  : list RepeatDivsum.t :=
  filter (λ r, min_len <= RepeatDivsum.wchar_len r) recs.

Definition discarded (min_len : Z) (recs : list RepeatDivsum.t)
  : list RepeatDivsum.t :=
  filter (λ r, RepeatDivsum.wchar_len r < min_len) recs.

(** The records of one repeat identifier. *)
Definition with_id (k : string) (recs : list RepeatDivsum.t)
  : list RepeatDivsum.t :=
  filter (λ r, RepeatDivsum.r_id r = k) recs.

(** Entering records into a dictionary one after the other. *)
Definition enter_all (m : gmap string RepeatDivsum.t)
    (recs : list RepeatDivsum.t) : gmap string RepeatDivsum.t :=
  foldl (λ m r, <[RepeatDivsum.r_id r := r]> m) m recs.

(** Strictly ascending strings. *)
Definition str_lt (s t : string) : Prop := str_leb s t = true ∧ s ≠ t.

(** The eight counts that [print_table] divides by the total length. *)
Definition counts (rep_props : RepProp.t) : list Z :=
  [RepProp.total_masked rep_props; RepProp.interspersed rep_props;
   RepProp.dna rep_props; RepProp.ltr rep_props; RepProp.line rep_props;
   RepProp.sine rep_props; RepProp.small_rna rep_props;
   RepProp.unclassified rep_props].

(** ** Sample records *)

Definition aluY_annot : RepeatAnnot.t :=
  RepeatAnnot.init "AluY" "SINE/Alu" "chr1" 100 200 "+" 463.

Definition l1_annot : RepeatAnnot.t :=
  RepeatAnnot.init "L1HS" "LINE/L1" "chr1" 100 180 "-" 300.

Definition mir_annot : RepeatAnnot.t :=
  RepeatAnnot.init "MIR" "SINE/MIR" "chr1" 40 90 "+" 250.

(** The Kimura value 12.5 percent. *)
Definition aluY_divsum : RepeatDivsum.t :=
  RepeatDivsum.init "SINE/Alu" "AluY" 1000 100 (FFin false 25 (-1)).

(** A record keyed [AluY] whose class is [LINE]. *)
Definition aluY_as_line : RepeatDivsum.t :=
  RepeatDivsum.init "LINE/L1" "AluY" 1000 100 (FFin false 25 (-1)).

(** An annotation whose score has 401 digits. *)
Definition huge_score_annot : RepeatAnnot.t :=
  RepeatAnnot.init "AluY" "SINE/Alu" "chr1" 100 200 "+" (10 ^ 400).

(** A summary with a total length of 1000 of which 250 are masked. *)
Definition quarter_masked : RepProp.t :=
  RepProp.mk "seq" 1000 250 200 50 40 30 20 10 5.

(** A summary whose interspersed count has 401 digits. *)
Definition huge_interspersed : RepProp.t :=
  RepProp.mk "seq" 1 0 (10 ^ 400) 0 0 0 0 0 0.

(** ** Sample lines of a divergence summary *)

Definition divsum_line (fields : list string) : string := join TAB fields +:+ NL.

Definition line_wcl_99 : string :=
  divsum_line ["SINE/Alu"; "AluJb"; "1200"; "99"; "12.5"].

Definition line_wcl_100 : string :=
  divsum_line ["SINE/Alu"; "AluY"; "1000"; "100"; "12.5"].

Definition line_aluY_again : string :=
  divsum_line ["SINE/Alu"; "AluY"; "2000"; "150"; "7.25"].

(** ** Text without the column separator *)

Definition not_tab (c : ascii) : bool := negb (Ascii.eqb c "009").

(** A string without a tab. *)
Definition tab_free (s : string) : Prop := all_chars not_tab s = true.

(** The characters of the text of a number: the digits and the letters
    and signs of [-1.5e+07], [inf] and [nan]. *)
Definition number_char (c : ascii) : bool :=
  is_digit c
  || Ascii.eqb c "." || Ascii.eqb c "e" || Ascii.eqb c "+" || Ascii.eqb c "-"
  || Ascii.eqb c "i" || Ascii.eqb c "n" || Ascii.eqb c "f" || Ascii.eqb c "a".

(** The strings of an annotation are free of tabs. *)
Definition annot_tab_free (a : RepeatAnnot.t) : Prop :=
  tab_free (RepeatAnnot.chrom a) ∧ tab_free (RepeatAnnot.strand a)
  ∧ tab_free (RepeatAnnot.name a) ∧ tab_free (RepeatAnnot.r_class a)
  ∧ tab_free (RepeatAnnot.r_family a).

Definition opt_tab_free (v : option string) : Prop :=
  match v with
  | Some s => tab_free s
  | None => True
  end.

Definition vars_tab_free (v : cm_locals) : Prop :=
  opt_tab_free (chromosome v) ∧ opt_tab_free (re_name v)
  ∧ opt_tab_free (re_class v) ∧ opt_tab_free (strand v).

(** The number that a string of decimal digits writes, read from the
    left after the number [acc]. *)
Fixpoint digits_val (acc : Z) (ds : string) : Z :=
  match ds with
  | EmptyString => acc
  | String c ds' => digits_val (10 * acc + digit_val c) ds'
  end.

(** *** The shape of the text of a finite float *)

(** A fraction part: nothing, or a point and digits. *)
Definition fraction_text (s : string) : Prop :=
  s = EmptyString
  ∨ ∃ f, all_chars is_digit f = true ∧ f ≠ EmptyString ∧ s = String "." f.

(** An exponent part: nothing, or [e], a sign and digits. *)
Definition exponent_text (s : string) : Prop :=
  s = EmptyString
  ∨ ∃ sgn ds, (sgn = "+"%char ∨ sgn = "-"%char)
              ∧ all_chars is_digit ds = true ∧ ds ≠ EmptyString
              ∧ s = String "e" (String sgn ds).

(** Digits, a fraction part and an exponent part. *)
Definition decimal_text (s : string) : Prop :=
  ∃ ip fr ex,
    all_chars is_digit ip = true ∧ ip ≠ EmptyString
    ∧ fraction_text fr ∧ exponent_text ex
    ∧ s = ip +:+ fr +:+ ex.

(** *** Reading the clean divergence file again *)

(** A first character, if there is one, that is neither a newline nor
    the comment sign. *)
Definition plain_head (s : string) : Prop :=
  ∀ c u, s = String c u → is_newline c = false ∧ Ascii.eqb c "#" = false.

(** What holds of every record that [parse_divsum_table] builds. *)
Definition record_from_line (r : RepeatDivsum.t) : Prop :=
  tab_free (RepeatDivsum.r_family r)
  ∧ tab_free (RepeatDivsum.r_id r)
  ∧ (RepeatDivsum.r_family r ∉ divsum_skip)
  ∧ plain_head (RepeatDivsum.r_family r)
  ∧ RepeatDivsum.r_class r = top_class (RepeatDivsum.r_family r).

(** Two records that differ at most in their Kimura value. *)
Definition same_but_kimura (r r' : RepeatDivsum.t) : Prop :=
  RepeatDivsum.r_class r' = RepeatDivsum.r_class r
  ∧ RepeatDivsum.r_family r' = RepeatDivsum.r_family r
  ∧ RepeatDivsum.r_id r' = RepeatDivsum.r_id r
  ∧ RepeatDivsum.abs_len r' = RepeatDivsum.abs_len r
  ∧ RepeatDivsum.wchar_len r' = RepeatDivsum.wchar_len r
  ∧ ∃ x, float_of_string (format_g 8 (RepeatDivsum.kimura r)) = Ok x
         ∧ RepeatDivsum.kimura r' = float_div_int x 100.

(** A float that is a number from 0 to 1. *)
Definition in_unit_interval (x : pyfloat) : Prop :=
  match x with
  | FFin false m e =>
      0 <= m ∧ if 0 <=? e then m * 2 ^ e <= 1 else m <= 2 ^ (- e)
  | _ => False
  end.

(** ** Sample lines of a cross-match table *)

Definition aluY_line : string :=
  "463 1.3 0.6 1.7 chr1 100 200 (300) + AluY SINE/Alu 1 100 (0) 1".

Definition l1_line : string :=
  "300 2.0 0.1 0.0 chr1 50 80 (420) C L1HS LINE/L1 (5) 600 520 2".

Definition short_line : string := "77 a b c d".

Definition bad_start_line : string :=
  "463 1.3 0.6 1.7 chr1 1e3 200 (300) + AluY SINE/Alu 1 100 (0) 1".

(** ** Sample lines of a summary table *)

Definition tbl_total_length : string :=
  "total length: 3095693983 bp  (2937639396 bp excl N/X-runs)".

Definition tbl_bases_masked : string :=
  "bases masked: 1560165009 bp ( 50.40 %)".

Definition tbl_sines : string :=
  "SINEs:           1849444    390951108 bp   12.63 %".

Definition tbl_border : string :=
  "==================================================".

Definition tbl_alus : string :=
  "      ALUs       1230327    310423552 bp   10.03 %".

(** The trimmed line of the body of the loop of [parse_rm_table]. *)
Definition rm_trimmed (raw : string) : string :=
  lstrip is_blank (strip is_newline raw).

(** The nine keywords of the summary table. *)
Definition rm_keywords : list string :=
  ["total length"; "bases masked"; "Total interspersed"; "DNA transposons";
   "LTR elements"; "LINEs"; "SINEs"; "Small RNA"; "Unclassified"].

(** * Properties *)

(** ** Loops *)

(** An element on which the body raises from every state makes the whole
    loop raise. *)
Lemma for_each_raises {S X : Type} (body : S → X → result S) (xs : list X) (x : X) :
  x ∈ xs → (∀ st, raises (body st x)) → ∀ st, raises (for_each body xs st).
Proof.
  intros Hin Hx. induction xs as [|y xs IH]; intros st.
  - by apply elem_of_nil in Hin.
  - simpl. apply elem_of_cons in Hin as [->|Hin].
    + specialize (Hx st). destruct (body st y); simpl in *; [done|auto].
    + destruct (body st y); simpl; auto.
Qed.

Lemma enumerate_elem_of {X : Type} (xs : list X) (x : X) :
  x ∈ xs → ∃ i, (i, x) ∈ enumerate xs.
Proof.
  unfold enumerate. generalize 0%nat.
  induction xs as [|y xs IH]; intros k Hin.
  - by apply elem_of_nil in Hin.
  - apply elem_of_cons in Hin as [->|Hin]; simpl.
    + exists k. apply elem_of_cons; auto.
    + destruct (IH (S k) Hin) as [i Hi]. exists i. apply elem_of_cons; auto.
Qed.

(** ** Strings *)

Lemma split_all_space (s : string) :
  all_chars is_space s = true → split s = [].
Proof.
  induction s as [|c s IH]; simpl; [done|].
  intros [Hc Hs]%andb_prop. rewrite Hc. auto.
Qed.

Lemma length_zero_empty (s : string) :
  (String.length s =? 0)%nat = true ↔ s = EmptyString.
Proof. destruct s; simpl; split; congruence. Qed.

Lemma is_digit_decimal (c : ascii) :
  is_digit c = true ↔ c ∈ decimal_digits.
Proof.
  unfold decimal_digits. rewrite !elem_of_cons, elem_of_nil.
  destruct c as [[] [] [] [] [] [] [] []]; vm_compute;
    split; intros H; try done; intuition congruence.
Qed.

Lemma all_chars_Forall (p : ascii → bool) (s : string) :
  all_chars p s = true ↔ Forall (λ c, p c = true) (list_ascii_of_string s).
Proof.
  induction s as [|c s IH]; simpl.
  - split; auto.
  - rewrite andb_true_iff, Forall_cons, IH. done.
Qed.

Lemma is_numeric_char_spec (c : ascii) :
  is_numeric_char c = true ↔ c ∈ numeric_chars.
Proof.
  unfold numeric_chars, decimal_digits. simpl.
  rewrite !elem_of_cons, elem_of_nil.
  destruct c as [[] [] [] [] [] [] [] []]; vm_compute;
    split; intros H; try done; intuition congruence.
Qed.

Lemma is_numeric_char_ascii (c : ascii) :
  code c < 128 → is_numeric_char c = is_digit c.
Proof.
  intros Hc. unfold is_numeric_char, is_digit.
  replace (code c =? 178) with false by (symmetry; apply Z.eqb_neq; lia).
  replace (code c =? 179) with false by (symmetry; apply Z.eqb_neq; lia).
  replace (code c =? 185) with false by (symmetry; apply Z.eqb_neq; lia).
  replace (188 <=? code c) with false by (symmetry; apply Z.leb_gt; lia).
  by rewrite !orb_false_r.
Qed.

(** [isnumeric] accepts the non-empty strings of numeric characters. *)
Lemma isnumeric_spec (s : string) :
  isnumeric s = true ↔
  s ≠ EmptyString ∧ Forall (λ c, c ∈ numeric_chars) (list_ascii_of_string s).
Proof.
  destruct s as [|c s].
  - simpl. split; [done|]. intros [? _]. done.
  - unfold isnumeric. rewrite all_chars_Forall.
    split.
    + intros H. split; [done|].
      eapply Forall_impl; [exact H|]. intros x Hx. by apply is_numeric_char_spec.
    + intros [_ H]. eapply Forall_impl; [exact H|].
      intros x Hx. by apply is_numeric_char_spec.
Qed.

(** On ASCII strings the numeric characters are the decimal digits. *)
Lemma isnumeric_ascii (s : string) :
  is_ascii s →
  (isnumeric s = true ↔
   s ≠ EmptyString ∧ Forall (λ c, c ∈ decimal_digits) (list_ascii_of_string s)).
Proof.
  intros Hs. destruct s as [|c s].
  - simpl. split; [done|]. intros [? _]. done.
  - unfold isnumeric. rewrite all_chars_Forall. unfold is_ascii in Hs.
    split.
    + intros H. split; [done|].
      apply Forall_forall. intros x Hx. rewrite Forall_forall in H, Hs.
      apply is_digit_decimal. rewrite <- is_numeric_char_ascii; auto.
    + intros [_ H]. apply Forall_forall. intros x Hx.
      rewrite Forall_forall in H, Hs.
      rewrite is_numeric_char_ascii by auto. apply is_digit_decimal. auto.
Qed.

(** ** The cross-match parser *)

Lemma cm_record_counts (st st' : cm_state) (i : nat) (line : string)
    (fields : list string) :
  cm_record st i line fields = Ok st' →
  cm_records st' = cm_records st + 1
  ∧ length (cross_match st') = S (length (cross_match st)).
Proof.
  unfold cm_record, cm_append.
  destruct (cm_try fields (cm_vars st)) as [v [e|]].
  - destruct e; try discriminate.
    destruct (cm_annotation v); simpl; [|discriminate].
    intros [= <-]; simpl. rewrite length_app; simpl. split; [done|lia].
  - destruct (cm_annotation v); simpl; [|discriminate].
    intros [= <-]; simpl. rewrite length_app; simpl. split; [done|lia].
Qed.

(** C5, as stated, fails: the first field of [superscript_line] is the
    superscript two, which is no decimal digit, yet the line is not
    skipped; it is taken as a record and [int] raises on the field. *)
Lemma crossmatch_superscript_not_skipped :
  split (strip is_newline superscript_line) = [String "178" EmptyString; "x"]
  ∧ ¬ Forall (λ c, c ∈ decimal_digits)
             (list_ascii_of_string (String "178" EmptyString))
  ∧ crossmatch_body cm_init (0%nat, superscript_line) = Raise ValueError
  ∧ crossmatch_body cm_init (0%nat, superscript_line) ≠ Ok cm_init.
Proof.
  split; [reflexivity|]. split; [|split; [reflexivity|discriminate]].
  intros H. apply Forall_cons in H as [H _].
  apply is_digit_decimal in H. discriminate.
Qed.

(** C5, amended: a line that is neither empty nor a comment and has a
    first whitespace-delimited field is processed as a data record
    exactly when that field is a non-empty string of numeric characters,
    which for a field of ASCII characters means a non-empty string of
    decimal digits; with any other first field the line is skipped and
    the state is left as it was. *)
Theorem crossmatch_record_iff_numeric (st : cm_state) (i : nat)
    (raw f : string) (rest : list string) :
  strip is_newline raw ≠ EmptyString →
  startswith "#" (strip is_newline raw) = false →
  split (strip is_newline raw) = f :: rest →
  (isnumeric f = true ↔
     f ≠ EmptyString
     ∧ Forall (λ c, c ∈ numeric_chars) (list_ascii_of_string f))
  ∧ (is_ascii f →
     (isnumeric f = true ↔
        f ≠ EmptyString
        ∧ Forall (λ c, c ∈ decimal_digits) (list_ascii_of_string f)))
  ∧ (isnumeric f = false → crossmatch_body st (i, raw) = Ok st)
  ∧ (isnumeric f = true →
       crossmatch_body st (i, raw)
         = cm_record st i (strip is_newline raw) (f :: rest)
       ∧ ∀ st', crossmatch_body st (i, raw) = Ok st' →
           cm_records st' = cm_records st + 1
           ∧ length (cross_match st') = S (length (cross_match st))).
Proof.
  intros Hne Hc Hsplit.
  assert (Hbody : crossmatch_body st (i, raw)
                  = if negb (isnumeric f) then Ok st
                    else cm_record st i (strip is_newline raw) (f :: rest)).
  { unfold crossmatch_body; simpl. rewrite Hc.
    destruct (String.length (strip is_newline raw) =? 0)%nat eqn:Hlen.
    - apply length_zero_empty in Hlen. done.
    - rewrite Hsplit. reflexivity. }
  split; [apply isnumeric_spec|]. split; [apply isnumeric_ascii|]. split.
  - intros Hn. rewrite Hbody, Hn. reflexivity.
  - intros Hn. rewrite Hbody, Hn. simpl. split; [done|].
    intros st'. apply cm_record_counts.
Qed.

Lemma crossmatch_record_iff_numeric_witness :
  crossmatch_body cm_init (0%nat, "12 x") = cm_record cm_init 0 "12 x" ["12"; "x"]
  ∧ crossmatch_body cm_init (0%nat, "SW x") = Ok cm_init.
Proof.
  split.
  - apply (crossmatch_record_iff_numeric cm_init 0 "12 x" "12" ["x"]);
      [discriminate | reflexivity | reflexivity | reflexivity].
  - apply (crossmatch_record_iff_numeric cm_init 0 "SW x" "SW" ["x"]);
      [discriminate | reflexivity | reflexivity | reflexivity].
Defined.

(** C10: a line that is not empty once its newline is stripped, is not a
    comment and consists of whitespace only has no field, so reading its
    first field raises [IndexError]; nothing catches it and the parse of
    any input that contains such a line aborts. *)
Theorem crossmatch_blank_line_aborts (lines : list string) (raw : string) :
  raw ∈ lines →
  strip is_newline raw ≠ EmptyString →
  startswith "#" (strip is_newline raw) = false →
  all_chars is_space (strip is_newline raw) = true →
  (∀ st i, crossmatch_body st (i, raw) = Raise IndexError)
  ∧ raises (parse_crossmatch_table lines).
Proof.
  intros Hin Hne Hc Hws.
  assert (Hbody : ∀ st i, crossmatch_body st (i, raw) = Raise IndexError).
  { intros st i. unfold crossmatch_body; simpl. rewrite Hc.
    destruct (String.length (strip is_newline raw) =? 0)%nat eqn:Hlen.
    - apply length_zero_empty in Hlen. done.
    - rewrite (split_all_space _ Hws). reflexivity. }
  split; [exact Hbody|].
  destruct (enumerate_elem_of lines raw Hin) as [i Hi].
  unfold parse_crossmatch_table.
  apply (for_each_raises crossmatch_body _ (i, raw) Hi).
  intros st. rewrite Hbody. exact I.
Qed.

Lemma crossmatch_blank_line_aborts_witness :
  raises (parse_crossmatch_table ["#header"; "   "]).
Proof.
  apply (crossmatch_blank_line_aborts ["#header"; "   "] "   ").
  - apply elem_of_cons; right. apply elem_of_cons; left. reflexivity.
  - discriminate.
  - reflexivity.
  - reflexivity.
Defined.

(** C1: a record line too short for the positional fields is reported,
    but it is not left out.  As the first record of a file it aborts the
    parse with [UnboundLocalError]; after a complete record it is
    appended, built from the fields it has and from the values that the
    earlier record left in the local variables. *)
Theorem crossmatch_short_line_not_skipped :
  parse_crossmatch_table ["77 a b c d"] = Raise UnboundLocalError
  ∧ parse_crossmatch_table
      ["463 1.3 0.6 1.7 chr1 100 200 (300) + AluY SINE/Alu 1 100 (0) 1";
       "77 a b c d"]
    = Ok {| cross_match :=
              [RepeatAnnot.mk "AluY" "SINE" "SINE/Alu" "chr1" 100 200 "+" 463;
               RepeatAnnot.mk "AluY" "SINE" "SINE/Alu" "d" 100 200 "+" 77];
            cm_records := 2;
            cm_kept := 2;
            cm_reported := [(1%nat, "77 a b c d")];
            cm_vars := {| sw_score := Some 77; chromosome := Some "d";
                          start_bp := Some 100; end_bp := Some 200;
                          re_name := Some "AluY";
                          re_class := Some "SINE/Alu";
                          strand := Some "+" |} |}.
Proof. split; vm_compute; reflexivity. Qed.

Lemma field_short (fields : list string) (i : nat) :
  (length fields ≤ i)%nat → field fields i = Raise IndexError.
Proof. intros H. unfold field. by rewrite lookup_ge_None_2. Qed.

(** With fewer than eleven fields the [try] block always ends in an
    exception. *)
Lemma cm_try_short (fields : list string) (v : cm_locals) :
  (length fields < 11)%nat → ∃ v' e, cm_try fields v = (v', Some e).
Proof.
  intros H. unfold cm_try. rewrite (field_short fields 10) by lia.
  repeat match goal with
         | |- context [match ?r with Ok _ => _ | Raise _ => _ end] =>
             destruct r; simpl; eauto
         end.
Qed.

(** No short record line is ever left out: whenever the loop body
    returns on such a line, it has reported the line and appended a
    record all the same. *)
Lemma crossmatch_short_line_appended (st : cm_state) (i : nat)
    (raw f : string) (rest : list string) :
  strip is_newline raw ≠ EmptyString →
  startswith "#" (strip is_newline raw) = false →
  split (strip is_newline raw) = f :: rest →
  isnumeric f = true →
  (length (f :: rest) < 11)%nat →
  ∀ st', crossmatch_body st (i, raw) = Ok st' →
    length (cross_match st') = S (length (cross_match st))
    ∧ cm_kept st' = cm_kept st + 1
    ∧ cm_reported st' = cm_reported st ++ [(i, strip is_newline raw)].
Proof.
  intros Hne Hc Hsplit Hnum Hshort st'.
  unfold crossmatch_body; simpl. rewrite Hc.
  destruct (String.length (strip is_newline raw) =? 0)%nat eqn:Hlen.
  { apply length_zero_empty in Hlen. done. }
  rewrite Hsplit. simpl. rewrite Hnum. simpl.
  unfold cm_record, cm_append.
  destruct (cm_try_short (f :: rest) (cm_vars st) Hshort) as (v & e & ->).
  destruct e; try discriminate.
  destruct (cm_annotation v); simpl; [|discriminate].
  intros [= <-]; simpl. rewrite length_app; simpl. split; [lia|done].
Qed.

(** ** [sorted] is a stable sort *)

Section PySortedFacts.
Context {A K : Type} (key : A → K) (leb : K → K → bool).

Lemma insert_by_perm (x : A) (l : list A) :
  insert_by key leb x l ≡ₚ x :: l.
Proof.
  induction l as [|y l IH]; simpl; [done|].
  destruct (leb (key x) (key y)); [done|].
  rewrite IH. apply Permutation_swap.
Qed.

Lemma py_sorted_perm (l : list A) : py_sorted key leb l ≡ₚ l.
Proof.
  induction l as [|x l IH]; simpl; [done|].
  rewrite insert_by_perm. by rewrite IH.
Qed.

Lemma py_sorted_length (l : list A) :
  length (py_sorted key leb l) = length l.
Proof. apply Permutation_length, py_sorted_perm. Qed.

Section Order.
Hypothesis leb_total : ∀ a b, leb a b = false → leb b a = true.
Hypothesis leb_trans :
  ∀ a b c, leb a b = true → leb b c = true → leb a c = true.

Lemma insert_by_sorted (x : A) (l : list A) :
  StronglySorted (key_le key leb) l → StronglySorted (key_le key leb) (insert_by key leb x l).
Proof.
  induction l as [|y l IH]; simpl; intros Hs.
  - repeat constructor.
  - destruct (leb (key x) (key y)) eqn:Hxy.
    + constructor; [done|].
      apply StronglySorted_cons in Hs as [Hy _]. constructor; [done|].
      eapply Forall_impl; [exact Hy|].
      intros z Hz. unfold key_le in *. eauto.
    + apply StronglySorted_cons in Hs as [Hy Hl].
      constructor; [auto|].
      rewrite insert_by_perm. constructor; [|done].
      unfold key_le. auto.
Qed.

Lemma py_sorted_sorted (l : list A) :
  StronglySorted (key_le key leb) (py_sorted key leb l).
Proof.
  induction l as [|x l IH]; simpl; [constructor|].
  by apply insert_by_sorted.
Qed.
End Order.

Section Stable.
Context `{EqDecision K}.
Hypothesis leb_refl : ∀ a, leb a a = true.

Lemma insert_by_filter_key (k : K) (x : A) (l : list A) :
  filter (λ a, key a = k) (insert_by key leb x l)
  = filter (λ a, key a = k) (x :: l).
Proof.
  induction l as [|y l IH]; simpl; [done|].
  destruct (leb (key x) (key y)) eqn:Hxy; [done|].
  rewrite !filter_cons. rewrite IH, filter_cons.
  destruct (decide (key y = k)) as [Hy|Hy];
    destruct (decide (key x = k)) as [Hx|Hx]; try done.
  rewrite Hx, <- Hy, leb_refl in Hxy. done.
Qed.

(** The elements of one key keep the order they had in the input. *)
Lemma py_sorted_stable (k : K) (l : list A) :
  filter (λ a, key a = k) (py_sorted key leb l)
  = filter (λ a, key a = k) l.
Proof.
  induction l as [|x l IH]; simpl; [done|].
  rewrite insert_by_filter_key, !filter_cons, IH. done.
Qed.
End Stable.
End PySortedFacts.

(** ** Numbers as text *)

Lemma digit_char_is_digit (d : Z) : 0 <= d < 10 → is_digit (digit_char d) = true.
Proof.
  intros Hd.
  assert (d = 0 ∨ d = 1 ∨ d = 2 ∨ d = 3 ∨ d = 4 ∨ d = 5 ∨ d = 6 ∨ d = 7
          ∨ d = 8 ∨ d = 9) as Hcases by lia.
  repeat (destruct Hcases as [->|Hcases]; [reflexivity|]).
  subst d. reflexivity.
Qed.

Lemma digits_go_head (fuel : nat) (n : Z) (acc : string) :
  (0 < fuel)%nat ∨ starts_with_digit acc →
  starts_with_digit (digits_go fuel n acc).
Proof.
  revert n acc. induction fuel as [|fuel IH]; intros n acc H; simpl.
  - destruct H as [H|H]; [lia|done].
  - assert (starts_with_digit (String (digit_char (n mod 10)) acc)) as Hd.
    { simpl. apply digit_char_is_digit. apply Z.mod_pos_bound. lia. }
    destruct (n <? 10); [done|]. apply IH. by right.
Qed.

Lemma str_of_nat_Z_head (n : Z) : starts_with_digit (str_of_nat_Z n).
Proof. unfold str_of_nat_Z. apply digits_go_head. left. lia. Qed.

(** The text of an integer is never the text of [None]. *)
Lemma str_of_Z_not_None (z : Z) : str_of_Z z ≠ "None".
Proof.
  unfold str_of_Z. destruct (z <? 0); [discriminate|].
  pose proof (str_of_nat_Z_head z) as H.
  destruct (str_of_nat_Z z) as [|c s]; [done|].
  simpl in H. intros [= -> _]. discriminate.
Qed.

Lemma float_of_int_fits (z : Z) :
  Z.abs z < float_limit → ∃ x, float_of_int z = Ok x.
Proof.
  intros Hz. unfold float_of_int, round64, fits64.
  destruct (Z.ltb_spec (Z.abs z) (1 * float_limit)) as [_|Hge]; [|lia].
  destruct (round64_finite (Z.abs z) 1) as [m e]. eauto.
Qed.

Lemma format_g_int_fits (p z : Z) :
  Z.abs z < float_limit → ∃ s, format_g_int p z = Ok s.
Proof.
  intros Hz. unfold format_g_int.
  destruct (float_of_int_fits z Hz) as [x ->]. simpl. eauto.
Qed.

Lemma format_g_int_raises (p z : Z) (e : exn) :
  format_g_int p z = Raise e → e = OverflowError.
Proof.
  unfold format_g_int, float_of_int.
  destruct (round64 (Z.abs z) 1) as [[m ex]|]; simpl; congruence.
Qed.

Lemma starts_with_digit_app (s t : string) :
  starts_with_digit s → starts_with_digit (s +:+ t).
Proof. destruct s; simpl; [intros []|auto]. Qed.

Lemma starts_with_digit_take (k : nat) (s : string) :
  (0 < k)%nat → starts_with_digit s → starts_with_digit (take_str k s).
Proof. destruct k; [lia|]. destruct s; simpl; [intros _ []|auto]. Qed.

Lemma with_fraction_head (ipart frac : string) :
  starts_with_digit ipart → starts_with_digit (with_fraction ipart frac).
Proof.
  intros H. unfold with_fraction.
  destruct (rstrip is_zero_char frac); [done|].
  by apply starts_with_digit_app.
Qed.

Lemma format_g_finite_head (p m e : Z) :
  starts_with_digit (format_g_finite p m e).
Proof.
  unfold format_g_finite. destruct (m =? 0); [reflexivity|].
  destruct (round_sig p _ _) as [q x].
  pose proof (str_of_nat_Z_head q) as Hq.
  destruct ((-4 <=? x) && (x <? p)).
  - destruct (Z.leb_spec 0 x).
    + apply with_fraction_head, starts_with_digit_take; [lia|done].
    + by apply with_fraction_head.
  - apply starts_with_digit_app, with_fraction_head.
    apply starts_with_digit_take; [lia|done].
Qed.

(** The text of a float is never the text of [None]. *)
Lemma format_g_not_None (p : Z) (x : pyfloat) : format_g p x ≠ "None".
Proof.
  destruct x as [|[]|[] m e]; simpl; try discriminate.
  pose proof (format_g_finite_head (Z.max p 1) m e) as H.
  destruct (format_g_finite (Z.max p 1) m e) as [|c s]; [done|].
  simpl in H. intros [= -> _]. discriminate.
Qed.

(** The general format keeps the stated number of significant digits
    and drops trailing zeros. *)
Example format_g_one_third :
  (x <~ int_truediv 1 3 ;; Ok (format_g 6 x, format_g 8 x))
  = Ok ("0.333333", "0.33333333")
  ∧ (x <~ int_truediv 2 3 ;; Ok (format_g 6 x, format_g 8 x))
    = Ok ("0.666667", "0.66666667")
  ∧ format_g_int 6 1234567 = Ok "1.23457e+06"
  ∧ format_g_int 6 463 = Ok "463".
Proof. repeat split; vm_compute; reflexivity. Qed.

(** ** The merge *)

Lemma merge_loop_rows (divsum : gmap string RepeatDivsum.t)
    (annotations : list RepeatAnnot.t) (rows out : list string) :
  Forall2 (λ a row, merge_row divsum a = Ok row) annotations rows →
  merge_loop divsum annotations out
  = {| out_lines := out ++ rows; outcome := Ok () |}.
Proof.
  intros H. revert out. induction H as [|a row anns rows Ha _ IH]; intros out.
  - simpl. by rewrite app_nil_r.
  - simpl. rewrite Ha, IH, <- app_assoc. done.
Qed.

Lemma merge_loop_stops (divsum : gmap string RepeatDivsum.t)
    (before after : list RepeatAnnot.t) (a : RepeatAnnot.t) (e : exn)
    (rows out : list string) :
  Forall2 (λ a row, merge_row divsum a = Ok row) before rows →
  merge_row divsum a = Raise e →
  merge_loop divsum (before ++ a :: after) out
  = {| out_lines := out ++ rows; outcome := Raise e |}.
Proof.
  intros H Ha. revert out. induction H as [|b row bs rows Hb _ IH]; intros out.
  - simpl. by rewrite Ha, app_nil_r.
  - simpl. rewrite Hb, IH, <- app_assoc. done.
Qed.

(** The loop over a list either writes one row per element, or stops at
    the first element whose row raises. *)
Lemma merge_loop_cases (divsum : gmap string RepeatDivsum.t)
    (annotations : list RepeatAnnot.t) :
  (∃ rows, Forall2 (λ a row, merge_row divsum a = Ok row) annotations rows)
  ∨ (∃ (before : list RepeatAnnot.t) a after rows e,
        annotations = before ++ a :: after
        ∧ Forall2 (λ a row, merge_row divsum a = Ok row) before rows
        ∧ merge_row divsum a = Raise e).
Proof.
  induction annotations as [|a anns IH].
  - left. exists []. constructor.
  - destruct (merge_row divsum a) as [row|e] eqn:Ha.
    + destruct IH as [[rows H]|(before & b & after & rows & e & -> & H & Hb)].
      * left. exists (row :: rows). by constructor.
      * right. exists (a :: before), b, after, (row :: rows), e.
        split; [done|]. split; [by constructor|done].
    + right. exists [], a, anns, [], e. split; [done|]. split; [constructor|done].
Qed.

Lemma merge_row_raises (divsum : gmap string RepeatDivsum.t)
    (a : RepeatAnnot.t) (e : exn) :
  merge_row divsum a = Raise e →
  (e = AssertionError
   ∧ ∃ d, divsum !! RepeatAnnot.name a = Some d
          ∧ RepeatAnnot.r_class a ≠ RepeatDivsum.r_class d)
  ∨ (e = OverflowError ∧ float_limit <= Z.abs (RepeatAnnot.score a)).
Proof.
  unfold merge_row, merge_lookup.
  destruct (divsum !! RepeatAnnot.name a) as [d|] eqn:Hd; simpl.
  - destruct (String.eqb_spec (RepeatAnnot.r_class a) (RepeatDivsum.r_class d))
      as [Heq|Hne]; simpl.
    + destruct (format_g_int 6 (RepeatAnnot.score a)) as [s|e'] eqn:Hs;
        simpl; [discriminate|].
      intros [= <-]. right. split; [by eapply format_g_int_raises|].
      destruct (Z.lt_ge_cases (Z.abs (RepeatAnnot.score a)) float_limit)
        as [Hlt|Hge]; [|done].
      destruct (format_g_int_fits 6 _ Hlt) as [s Hs']. congruence.
    + intros [= <-]. left. eauto.
  - destruct (format_g_int 6 (RepeatAnnot.score a)) as [s|e'] eqn:Hs;
      simpl; [discriminate|].
    intros [= <-]. right. split; [by eapply format_g_int_raises|].
    destruct (Z.lt_ge_cases (Z.abs (RepeatAnnot.score a)) float_limit)
      as [Hlt|Hge]; [|done].
    destruct (format_g_int_fits 6 _ Hlt) as [s Hs']. congruence.
Qed.

Lemma merge_row_mismatch (divsum : gmap string RepeatDivsum.t)
    (a : RepeatAnnot.t) (d : RepeatDivsum.t) :
  divsum !! RepeatAnnot.name a = Some d →
  RepeatAnnot.r_class a ≠ RepeatDivsum.r_class d →
  merge_row divsum a = Raise AssertionError.
Proof.
  intros Hd Hne. unfold merge_row, merge_lookup. rewrite Hd.
  destruct (String.eqb_spec (RepeatAnnot.r_class a) (RepeatDivsum.r_class d));
    [done|reflexivity].
Qed.

Lemma StronglySorted_weaken {A : Type} (R S : A → A → Prop) (l : list A) :
  (∀ x y, R x y → S x y) → StronglySorted R l → StronglySorted S l.
Proof.
  intros HRS. induction 1 as [|x l _ IH Hx]; constructor; [done|].
  eapply Forall_impl; [exact Hx|]. auto.
Qed.

Lemma sorted_by_start (cross_match : list RepeatAnnot.t) :
  StronglySorted start_le (py_sorted RepeatAnnot.start Z.leb cross_match).
Proof.
  apply (StronglySorted_weaken (key_le RepeatAnnot.start Z.leb)).
  - unfold key_le, start_le. intros x y. apply Z.leb_le.
  - apply py_sorted_sorted.
    + intros a b H. apply Z.leb_gt in H. apply Z.leb_le. lia.
    + intros a b c H1%Z.leb_le H2%Z.leb_le. apply Z.leb_le. lia.
Qed.

(** C2: when the name of an annotation has a divergence record and the
    two top-level classes differ, the assertion fails: the iteration
    raises [AssertionError], the loop stops there with nothing more
    written, and every merge whose collection contains such an annotation
    raises and writes fewer rows than it has annotations.  When the
    classes are equal the assertion passes, the divergence values are
    taken over and the loop goes on with the next annotation. *)
Theorem merge_class_mismatch_halts (divsum : gmap string RepeatDivsum.t)
    (a : RepeatAnnot.t) (d : RepeatDivsum.t) :
  divsum !! RepeatAnnot.name a = Some d →
  (RepeatAnnot.r_class a ≠ RepeatDivsum.r_class d →
     merge_row divsum a = Raise AssertionError
     ∧ (∀ rest out,
          merge_loop divsum (a :: rest) out
          = {| out_lines := out; outcome := Raise AssertionError |})
     ∧ (∀ cross_match, a ∈ cross_match →
          raises (outcome (merge_cross_divsum cross_match divsum))
          ∧ (length (out_lines (merge_cross_divsum cross_match divsum))
             ≤ length cross_match)%nat
          ∧ (scores_fit cross_match →
             outcome (merge_cross_divsum cross_match divsum)
             = Raise AssertionError)))
  ∧ (RepeatAnnot.r_class a = RepeatDivsum.r_class d →
     merge_lookup divsum a
     = Ok (Some (RepeatDivsum.wchar_len d),
           Some (format_g 6 (RepeatDivsum.kimura d)))
     ∧ merge_row divsum a ≠ Raise AssertionError
     ∧ (∀ rest out row, merge_row divsum a = Ok row →
          merge_loop divsum (a :: rest) out
          = merge_loop divsum rest (out ++ [row]))).
Proof.
  intros Hd. split.
  - intros Hne.
    pose proof (merge_row_mismatch divsum a d Hd Hne) as Hrow.
    split; [done|]. split.
    { intros rest out. simpl. by rewrite Hrow. }
    intros cm Hin. unfold merge_cross_divsum.
    set (sorted := py_sorted RepeatAnnot.start Z.leb cm).
    assert (a ∈ sorted) as Hin'.
    { unfold sorted. by rewrite py_sorted_perm. }
    destruct (merge_loop_cases divsum sorted)
      as [[rows H]|(before & b & after & rows & e & Heq & H & Hb)].
    + exfalso. apply list_elem_of_lookup in Hin' as [i Hi].
      destruct (Forall2_lookup_l _ _ _ _ _ H Hi) as (row & _ & Hok).
      congruence.
    + rewrite Heq, (merge_loop_stops divsum before after b e rows _ H Hb).
      simpl. split; [done|]. split.
      * apply Forall2_length in H. rewrite <- H.
        rewrite <- (py_sorted_length RepeatAnnot.start Z.leb cm).
        fold sorted. rewrite Heq, length_app. simpl. lia.
      * intros Hfit. f_equal.
        destruct (merge_row_raises divsum b e Hb) as [[-> _]|[_ Hbig]]; [done|].
        assert (b ∈ cm) as Hbin.
        { rewrite <- (py_sorted_perm RepeatAnnot.start Z.leb cm).
          fold sorted. rewrite Heq. apply elem_of_app; right.
          apply elem_of_cons; by left. }
        specialize (Hfit b Hbin). lia.
  - intros Heq. unfold merge_row, merge_lookup. rewrite Hd.
    destruct (String.eqb_spec (RepeatAnnot.r_class a) (RepeatDivsum.r_class d))
      as [_|Hne]; [|done].
    split; [done|]. split.
    + simpl. destruct (format_g_int 6 (RepeatAnnot.score a)) as [s|e] eqn:Hs;
        simpl; [discriminate|].
      apply format_g_int_raises in Hs as ->. discriminate.
    + intros rest out row Hrow. simpl.
      unfold merge_row, merge_lookup. rewrite Hd.
      destruct (String.eqb_spec (RepeatAnnot.r_class a)
                  (RepeatDivsum.r_class d)) as [_|Hne]; [|done].
      by rewrite Hrow.
Qed.

Lemma merge_class_mismatch_halts_witness :
  merge_row {[ "AluY" := aluY_as_line ]} aluY_annot = Raise AssertionError
  ∧ merge_lookup {[ "AluY" := aluY_divsum ]} aluY_annot
    = Ok (Some 100, Some "0.125").
Proof.
  split.
  - apply (merge_class_mismatch_halts {[ "AluY" := aluY_as_line ]}
             aluY_annot aluY_as_line); [reflexivity|discriminate].
  - apply (merge_class_mismatch_halts {[ "AluY" := aluY_divsum ]}
             aluY_annot aluY_divsum); reflexivity.
Defined.

(** C3, as stated, fails: with an empty divergence index no consistency
    error can occur, yet the annotation whose score is [10^400] gets no
    row, because formatting the score converts it to a float. *)
Lemma merge_huge_score_no_row :
  consistent [huge_score_annot] ∅
  ∧ merge_cross_divsum [huge_score_annot] ∅
    = {| out_lines := [merge_header]; outcome := Raise OverflowError |}.
Proof.
  split.
  - intros a d _ Hd. rewrite lookup_empty in Hd. discriminate.
  - vm_compute. reflexivity.
Qed.

(** C3, amended: when no consistency error occurs and every alignment
    score is within the range of a float, the merge returns, and after
    the header it has written exactly one row per annotation, the rows of
    the annotations in ascending order of start coordinate, annotations of
    equal start in the order in which they were read. *)
Theorem merge_one_row_per_annotation (cross_match : list RepeatAnnot.t)
    (divsum : gmap string RepeatDivsum.t) :
  consistent cross_match divsum →
  scores_fit cross_match →
  ∃ sorted rows,
    merge_cross_divsum cross_match divsum
    = {| out_lines := merge_header :: rows; outcome := Ok () |}
    ∧ length rows = length cross_match
    ∧ Forall2 (λ a row, merge_row divsum a = Ok row) sorted rows
    ∧ sorted ≡ₚ cross_match
    ∧ StronglySorted start_le sorted
    ∧ ∀ s, filter (λ a, RepeatAnnot.start a = s) sorted
           = filter (λ a, RepeatAnnot.start a = s) cross_match.
Proof.
  intros Hcons Hfit.
  set (sorted := py_sorted RepeatAnnot.start Z.leb cross_match).
  assert (sorted ≡ₚ cross_match) as Hperm by apply py_sorted_perm.
  destruct (merge_loop_cases divsum sorted)
    as [[rows H]|(before & b & after & rows & e & Heq & _ & Hb)].
  - exists sorted, rows. split.
    { unfold merge_cross_divsum. fold sorted.
      by rewrite (merge_loop_rows divsum sorted rows _ H). }
    split.
    { apply Forall2_length in H. rewrite <- H. by rewrite Hperm. }
    split; [done|]. split; [done|]. split; [apply sorted_by_start|].
    intros s. apply (py_sorted_stable RepeatAnnot.start Z.leb).
    apply Z.leb_refl.
  - exfalso.
    assert (b ∈ cross_match) as Hbin.
    { rewrite <- Hperm, Heq. apply elem_of_app; right.
      apply elem_of_cons; by left. }
    destruct (merge_row_raises divsum b e Hb)
      as [(_ & d & Hd & Hne)|[_ Hbig]].
    + apply Hne. by apply Hcons.
    + specialize (Hfit b Hbin). lia.
Qed.

Lemma merge_one_row_per_annotation_witness :
  ∃ rows,
    merge_cross_divsum [aluY_annot; l1_annot; mir_annot]
                       {[ "AluY" := aluY_divsum ]}
    = {| out_lines := merge_header :: rows; outcome := Ok () |}
    ∧ length rows = 3%nat.
Proof.
  destruct (merge_one_row_per_annotation [aluY_annot; l1_annot; mir_annot]
              {[ "AluY" := aluY_divsum ]})
    as (sorted & rows & Hm & Hlen & _).
  - intros a d Hin Hd.
    apply elem_of_cons in Hin as [->|Hin];
      [vm_compute in Hd; injection Hd as <-; reflexivity|].
    apply elem_of_cons in Hin as [->|Hin]; [vm_compute in Hd; discriminate|].
    apply elem_of_cons in Hin as [->|Hin]; [vm_compute in Hd; discriminate|].
    by apply elem_of_nil in Hin.
  - intros a Hin.
    apply elem_of_cons in Hin as [->|Hin]; [vm_compute; reflexivity|].
    apply elem_of_cons in Hin as [->|Hin]; [vm_compute; reflexivity|].
    apply elem_of_cons in Hin as [->|Hin]; [vm_compute; reflexivity|].
    by apply elem_of_nil in Hin.
  - exists rows. split; [exact Hm|exact Hlen].
Defined.

(** The rows of the sample merge: the two annotations that start at 100
    follow the one that starts at 40 and keep their read order. *)
Example merge_sample_rows :
  merge_cross_divsum [aluY_annot; l1_annot; mir_annot]
                     {[ "AluY" := aluY_divsum ]}
  = {| out_lines :=
         [merge_header;
          join TAB ["chr1"; "40"; "90"; "+"; "MIR"; "SINE"; "SINE/MIR";
                    "None"; "None"; "250"] +:+ NL;
          join TAB ["chr1"; "100"; "200"; "+"; "AluY"; "SINE"; "SINE/Alu";
                    "100"; "0.125"; "463"] +:+ NL;
          join TAB ["chr1"; "100"; "180"; "-"; "L1HS"; "LINE"; "LINE/L1";
                    "None"; "None"; "300"] +:+ NL];
       outcome := Ok () |}.
Proof. vm_compute. reflexivity. Qed.

(** C6: in the row of an annotation the fields [WellCharLen] and [Kimura]
    both read [None] when the name has no divergence record, and hold the
    well-characterised length and the Kimura value in general format with
    six significant digits when it has one.  [None] is not the text of
    zero, of any integer or of any float.  The row exists whenever the
    score is within the range of a float and the classes agree. *)
Theorem merge_row_divergence_fields (divsum : gmap string RepeatDivsum.t)
    (a : RepeatAnnot.t) :
  (∀ row, merge_row divsum a = Ok row →
     ∃ w k score,
       row = join TAB [RepeatAnnot.chrom a;
                       str_of_Z (RepeatAnnot.start a);
                       str_of_Z (RepeatAnnot.end_ a);
                       RepeatAnnot.strand a;
                       RepeatAnnot.name a;
                       RepeatAnnot.r_class a;
                       RepeatAnnot.r_family a;
                       w; k; score] +:+ NL
       ∧ format_g_int 6 (RepeatAnnot.score a) = Ok score
       ∧ match divsum !! RepeatAnnot.name a with
         | None => w = "None" ∧ k = "None"
         | Some d => w = str_of_Z (RepeatDivsum.wchar_len d)
                     ∧ k = format_g 6 (RepeatDivsum.kimura d)
         end)
  ∧ (Z.abs (RepeatAnnot.score a) < float_limit →
     (∀ d, divsum !! RepeatAnnot.name a = Some d →
           RepeatAnnot.r_class a = RepeatDivsum.r_class d) →
     ∃ row, merge_row divsum a = Ok row)
  ∧ "None" ≠ "0"
  ∧ (∀ z, str_of_Z z ≠ "None")
  ∧ (∀ p x, format_g p x ≠ "None").
Proof.
  split; [|split; [|split; [discriminate|split;
    [apply str_of_Z_not_None|apply format_g_not_None]]]].
  - intros row. unfold merge_row, merge_lookup.
    destruct (divsum !! RepeatAnnot.name a) as [d|]; simpl.
    + destruct (String.eqb (RepeatAnnot.r_class a) (RepeatDivsum.r_class d));
        simpl; [|discriminate].
      destruct (format_g_int 6 (RepeatAnnot.score a)) as [s|e]; simpl;
        [|discriminate].
      intros [= <-]. eexists _, _, s. split; [reflexivity|]. done.
    + destruct (format_g_int 6 (RepeatAnnot.score a)) as [s|e]; simpl;
        [|discriminate].
      intros [= <-]. eexists _, _, s. split; [reflexivity|]. done.
  - intros Hfit Hcls.
    destruct (merge_row divsum a) as [row|e] eqn:Hrow; [eauto|].
    exfalso. destruct (merge_row_raises divsum a e Hrow)
      as [(_ & d & Hd & Hne)|[_ Hbig]]; [|lia].
    apply Hne. by apply Hcls.
Qed.

Lemma merge_row_divergence_fields_witness :
  ∃ row, merge_row {[ "AluY" := aluY_divsum ]} mir_annot = Ok row.
Proof.
  apply (merge_row_divergence_fields {[ "AluY" := aluY_divsum ]} mir_annot).
  - vm_compute. reflexivity.
  - intros d Hd. vm_compute in Hd. discriminate.
Defined.

(** ** The divergence summary *)

Lemma divsum_body_candidate (min_len : Z) (st : divsum_state) (raw : string) :
  divsum_body min_len st raw
  = match divsum_candidate raw with
    | None => Ok st
    | Some fields =>
        r <~ divsum_record fields ;;
        Ok (if RepeatDivsum.wchar_len r <? min_len then
              {| divsum := divsum st; records := records st + 1;
                 discard := discard st + 1 |}
            else
              {| divsum := <[RepeatDivsum.r_id r := r]> (divsum st);
                 records := records st + 1; discard := discard st |})
    end.
Proof.
  unfold divsum_body, divsum_candidate.
  destruct (startswith "#" (strip is_newline raw)); simpl; [done|].
  destruct (String.length (strip is_newline raw) =? 0)%nat; simpl; [done|].
  destruct (split_on "009" (strip is_newline raw))
    as [|f0 [|f1 [|f2 [|f3 [|f4 [|f5 fs]]]]]]; simpl; try done.
  destruct (bool_decide (f0 ∈ divsum_skip)); simpl; [done|].
  destruct (int_of_string f2) as [a|e]; simpl; [|done].
  destruct (int_of_string f3) as [w|e]; simpl; [|done].
  destruct (float_of_string f4) as [k|e]; simpl; [|done].
  destruct (w <? min_len); done.
Qed.

Lemma divsum_loop_records (min_len : Z) (lines : list string) (st : divsum_state) :
  for_each (divsum_body min_len) lines st
  = (recs <~ divsum_records lines ;;
     Ok {| divsum := enter_all (divsum st) (retained min_len recs);
           records := records st + Z.of_nat (length recs);
           discard := discard st
                      + Z.of_nat (length (discarded min_len recs)) |}).
Proof.
  revert st. induction lines as [|raw lines IH]; intros st; simpl.
  - destruct st; simpl. f_equal. f_equal; lia.
  - rewrite divsum_body_candidate.
    destruct (divsum_candidate raw) as [fields|]; [|apply IH].
    destruct (divsum_record fields) as [r|e]; simpl; [|done].
    rewrite IH. destruct (divsum_records lines) as [rs|e]; simpl; [|done].
    unfold retained, discarded. rewrite !filter_cons.
    destruct (Z.ltb_spec (RepeatDivsum.wchar_len r) min_len) as [Hlt|Hge].
    + rewrite decide_False by lia. rewrite decide_True by lia. simpl.
      f_equal. f_equal; lia.
    + rewrite decide_True by lia. rewrite decide_False by lia. simpl.
      f_equal. f_equal; lia.
Qed.

(** The function in the words of the specification: it returns exactly
    when every candidate line has well-formed numbers. *)
Lemma parse_divsum_table_records (lines : list string) (min_len : Z) :
  parse_divsum_table lines min_len
  = (recs <~ divsum_records lines ;;
     Ok {| divsum := enter_all ∅ (retained min_len recs);
           records := Z.of_nat (length recs);
           discard := Z.of_nat (length (discarded min_len recs)) |}).
Proof.
  unfold parse_divsum_table. rewrite divsum_loop_records.
  destruct (divsum_records lines); simpl; done.
Qed.

Lemma enter_all_snoc (m : gmap string RepeatDivsum.t)
    (recs : list RepeatDivsum.t) (r : RepeatDivsum.t) :
  enter_all m (recs ++ [r]) = <[RepeatDivsum.r_id r := r]> (enter_all m recs).
Proof. unfold enter_all. by rewrite foldl_app. Qed.

(** Later entries overwrite earlier ones. *)
Lemma enter_all_lookup (m : gmap string RepeatDivsum.t)
    (recs : list RepeatDivsum.t) (k : string) :
  enter_all m recs !! k
  = match last (with_id k recs) with
    | Some r => Some r
    | None => m !! k
    end.
Proof.
  induction recs as [|r recs IH] using rev_ind; [done|].
  rewrite enter_all_snoc. unfold with_id in *.
  rewrite filter_app, filter_cons, filter_nil.
  destruct (decide (RepeatDivsum.r_id r = k)) as [Hk|Hk].
  - rewrite last_snoc. subst k. by rewrite lookup_insert_eq.
  - rewrite app_nil_r, lookup_insert_ne by done. exact IH.
Qed.

Lemma enter_all_empty_lookup (recs : list RepeatDivsum.t) (k : string) :
  enter_all ∅ recs !! k = last (with_id k recs).
Proof.
  rewrite enter_all_lookup, lookup_empty. by destruct (last _).
Qed.

Lemma last_elem_of {A : Type} (l : list A) (x : A) : last l = Some x → x ∈ l.
Proof.
  induction l as [|y l IH] using rev_ind; [done|].
  rewrite last_snoc. intros [= ->]. apply elem_of_app; right.
  apply elem_of_cons; by left.
Qed.

Lemma last_is_Some {A : Type} (l : list A) : l ≠ [] → is_Some (last l).
Proof.
  induction l as [|y l IH] using rev_ind; [done|].
  rewrite last_snoc. eauto.
Qed.

(** C4: the function returns exactly when the numbers of every candidate
    line are well formed.  It then reports as extracted the number of
    candidate records and as discarded the number of those whose
    well-characterised length is strictly below [min_len]; the index
    holds only records of at least that length, and the identifier of
    every such record, one of length exactly [min_len] included, is in
    the index.  With [min_len = 100] a record of length 99 is counted as
    discarded and a record of length 100 is kept. *)
Theorem divsum_min_len_filter (lines : list string) (min_len : Z) :
  (∀ st, parse_divsum_table lines min_len = Ok st →
     ∃ recs,
       divsum_records lines = Ok recs
       ∧ records st = Z.of_nat (length recs)
       ∧ discard st = Z.of_nat (length (discarded min_len recs))
       ∧ (∀ r, r ∈ discarded min_len recs ↔
               r ∈ recs ∧ RepeatDivsum.wchar_len r < min_len)
       ∧ (∀ k r, divsum st !! k = Some r →
                 r ∈ recs ∧ min_len <= RepeatDivsum.wchar_len r)
       ∧ (∀ r, r ∈ recs → min_len <= RepeatDivsum.wchar_len r →
               ∃ r', divsum st !! RepeatDivsum.r_id r = Some r'
                     ∧ r' ∈ recs
                     ∧ RepeatDivsum.r_id r' = RepeatDivsum.r_id r
                     ∧ min_len <= RepeatDivsum.wchar_len r'))
  ∧ (∀ recs, divsum_records lines = Ok recs →
             ∃ st, parse_divsum_table lines min_len = Ok st)
  ∧ (∃ st, parse_divsum_table [line_wcl_99; line_wcl_100] 100 = Ok st
           ∧ records st = 2
           ∧ discard st = 1
           ∧ divsum st !! "AluJb" = None
           ∧ RepeatDivsum.wchar_len <$> divsum st !! "AluY" = Some 100).
Proof.
  split; [|split].
  - intros st. rewrite parse_divsum_table_records.
    destruct (divsum_records lines) as [recs|e]; simpl; [|discriminate].
    intros [= <-]; simpl. exists recs.
    split; [done|]. split; [done|]. split; [done|]. split.
    { intros r. unfold discarded. rewrite list_elem_of_filter. tauto. }
    assert (∀ k r, enter_all ∅ (retained min_len recs) !! k = Some r →
                   r ∈ recs ∧ min_len <= RepeatDivsum.wchar_len r
                   ∧ RepeatDivsum.r_id r = k) as Hin.
    { intros k r. rewrite enter_all_empty_lookup. intros Hl%last_elem_of.
      unfold with_id, retained in Hl. rewrite !list_elem_of_filter in Hl.
      tauto. }
    split.
    + intros k r Hk. destruct (Hin k r Hk) as (? & ? & _). done.
    + intros r Hr Hlen.
      destruct (last_is_Some (with_id (RepeatDivsum.r_id r)
                                (retained min_len recs))) as [r' Hr'].
      { intros Hnil.
        assert (r ∈ with_id (RepeatDivsum.r_id r) (retained min_len recs)) as H.
        { unfold with_id, retained. rewrite !list_elem_of_filter. done. }
        rewrite Hnil in H. by apply elem_of_nil in H. }
      exists r'. rewrite enter_all_empty_lookup. split; [done|].
      rewrite <- enter_all_empty_lookup in Hr'.
      destruct (Hin _ _ Hr') as (? & ? & ?). done.
  - intros recs Hrecs. rewrite parse_divsum_table_records, Hrecs. simpl. eauto.
  - eexists. split; [vm_compute; reflexivity|].
    split; [reflexivity|]. split; [reflexivity|].
    split; vm_compute; reflexivity.
Qed.

Lemma divsum_min_len_filter_witness :
  ∃ recs, divsum_records [line_wcl_99; line_wcl_100] = Ok recs
          ∧ length recs = 2%nat.
Proof.
  destruct (divsum_min_len_filter [line_wcl_99; line_wcl_100] 100)
    as (H & _ & (st & Hst & Hrecs & _)).
  destruct (H st Hst) as (recs & Hr & Hlen & _).
  exists recs. split; [exact Hr|]. rewrite Hrecs in Hlen. lia.
Defined.

(** C9: the index is a dictionary, so every repeat identifier occurs in
    it once, as the key of a record that carries it; of the retained
    records of one identifier the index holds the last in file order. *)
Theorem divsum_last_write_wins (lines : list string) (min_len : Z)
    (st : divsum_state) :
  parse_divsum_table lines min_len = Ok st →
  ∃ recs,
    divsum_records lines = Ok recs
    ∧ (∀ k, divsum st !! k = last (with_id k (retained min_len recs)))
    ∧ (∀ k r, divsum st !! k = Some r → RepeatDivsum.r_id r = k)
    ∧ NoDup (map_to_list (divsum st)).*1.
Proof.
  rewrite parse_divsum_table_records.
  destruct (divsum_records lines) as [recs|e]; simpl; [|discriminate].
  intros [= <-]; simpl. exists recs. split; [done|]. split; [|split].
  - intros k. apply enter_all_empty_lookup.
  - intros k r. rewrite enter_all_empty_lookup. intros Hl%last_elem_of.
    unfold with_id in Hl. rewrite list_elem_of_filter in Hl. tauto.
  - apply NoDup_fst_map_to_list.
Qed.

Lemma divsum_last_write_wins_witness :
  ∃ st, parse_divsum_table [line_wcl_100; line_wcl_99; line_aluY_again] 0 = Ok st
        ∧ RepeatDivsum.abs_len <$> divsum st !! "AluY" = Some 2000.
Proof.
  eexists. split; [vm_compute; reflexivity|].
  edestruct (divsum_last_write_wins [line_wcl_100; line_wcl_99; line_aluY_again] 0)
    as (recs & Hr & Hlast & _); [vm_compute; reflexivity|].
  rewrite Hlast. vm_compute in Hr. injection Hr as <-.
  vm_compute. reflexivity.
Defined.

(** ** The clean divergence table *)

Lemma str_leb_total (s t : string) : str_leb s t = false → str_leb t s = true.
Proof.
  revert t. induction s as [|a s IH]; intros [|b t]; simpl; try done.
  destruct (Z.ltb_spec (code a) (code b)) as [Hlt|Hge]; [done|].
  destruct (Z.eqb_spec (code a) (code b)) as [Heq|Hne].
  - intros H. rewrite Heq, Z.ltb_irrefl, Z.eqb_refl. auto.
  - intros _. destruct (Z.ltb_spec (code b) (code a)); [done|lia].
Qed.

Lemma str_leb_trans (s t u : string) :
  str_leb s t = true → str_leb t u = true → str_leb s u = true.
Proof.
  revert t u. induction s as [|a s IH]; intros [|b t] [|c u]; simpl; try done.
  destruct (Z.ltb_spec (code a) (code b)) as [Hab|Hab];
    destruct (Z.ltb_spec (code b) (code c)) as [Hbc|Hbc];
    destruct (Z.ltb_spec (code a) (code c)) as [Hac|Hac]; try done; try lia.
  - destruct (Z.eqb_spec (code b) (code c)); [lia|done].
  - destruct (Z.eqb_spec (code a) (code b)); [lia|done].
  - destruct (Z.eqb_spec (code a) (code b)) as [Heq|]; [|done].
    destruct (Z.eqb_spec (code b) (code c)) as [Heq'|]; [|done].
    destruct (Z.eqb_spec (code a) (code c)); [|lia]. apply IH.
Qed.

Lemma sorted_keys_perm (divsum : gmap string RepeatDivsum.t) :
  sorted_keys divsum ≡ₚ (map_to_list divsum).*1.
Proof. apply py_sorted_perm. Qed.

Lemma sorted_keys_ascending (divsum : gmap string RepeatDivsum.t) :
  StronglySorted str_lt (sorted_keys divsum).
Proof.
  assert (NoDup (sorted_keys divsum)) as Hnd.
  { rewrite sorted_keys_perm. apply NoDup_fst_map_to_list. }
  assert (StronglySorted (key_le id str_leb) (sorted_keys divsum)) as Hs.
  { apply py_sorted_sorted; [apply str_leb_total|apply str_leb_trans]. }
  induction Hs as [|k ks Hks IH Hk]; [constructor|].
  apply NoDup_cons in Hnd as [Hnotin Hnd].
  constructor; [by apply IH|].
  apply Forall_forall. intros k' Hin. split.
  - rewrite Forall_forall in Hk. apply (Hk k' Hin).
  - intros ->. done.
Qed.

Lemma clean_loop_rows (divsum : gmap string RepeatDivsum.t)
    (elements : list string) (out : list string) :
  Forall (λ k, is_Some (divsum !! k)) elements →
  ∃ rows,
    clean_loop divsum elements out
    = {| out_lines := out ++ rows; outcome := Ok () |}
    ∧ Forall2 (λ k row, ∃ div, divsum !! k = Some div ∧ row = divsum_row div)
              elements rows.
Proof.
  intros H. revert out. induction H as [|k ks [div Hk] _ IH]; intros out.
  - exists []. simpl. rewrite app_nil_r. split; [done|constructor].
  - simpl. rewrite Hk. destruct (IH (out ++ [divsum_row div])) as (rows & -> & Hrows).
    exists (divsum_row div :: rows). rewrite <- app_assoc. split; [done|].
    constructor; [eauto|done].
Qed.

(** C8: the function never raises; it writes the header and then one row
    for every key of the index, the keys taken in strictly ascending
    order; a row has the five columns family, identifier, absolute
    length, well-characterised length and the Kimura value in general
    format with eight significant digits. *)
Theorem clean_divsum_sorted_rows (divsum : gmap string RepeatDivsum.t) :
  ∃ keys rows,
    clean_divsum_file divsum
    = {| out_lines := divsum_header :: rows; outcome := Ok () |}
    ∧ keys ≡ₚ (map_to_list divsum).*1
    ∧ StronglySorted str_lt keys
    ∧ length rows = size divsum
    ∧ Forall2 (λ k row,
         ∃ div, divsum !! k = Some div
           ∧ row = join TAB [RepeatDivsum.r_family div;
                             RepeatDivsum.r_id div;
                             str_of_Z (RepeatDivsum.abs_len div);
                             str_of_Z (RepeatDivsum.wchar_len div);
                             format_g 8 (RepeatDivsum.kimura div)] +:+ NL)
       keys rows.
Proof.
  destruct (clean_loop_rows divsum (sorted_keys divsum) [divsum_header])
    as (rows & Hloop & Hrows).
  { apply Forall_forall. intros k Hk. rewrite sorted_keys_perm in Hk.
    apply list_elem_of_fmap in Hk as ([k' v] & -> & Hkv).
    apply elem_of_map_to_list in Hkv. simpl. eauto. }
  exists (sorted_keys divsum), rows.
  split; [exact Hloop|]. split; [apply sorted_keys_perm|].
  split; [apply sorted_keys_ascending|]. split; [|exact Hrows].
  apply Forall2_length in Hrows. rewrite <- Hrows, sorted_keys_perm.
  rewrite length_fmap. apply length_map_to_list.
Qed.

(** ** The table of proportions *)

Lemma int_truediv_zero (a : Z) : int_truediv a 0 = Raise ZeroDivisionError.
Proof. reflexivity. Qed.

Lemma proportion_fits (value total : Z) :
  0 < total → Z.abs value < total * float_limit →
  ∃ x, int_truediv value total = Ok x
       ∧ proportion value total = Ok (format_g 8 x).
Proof.
  intros Ht Hv. unfold proportion, int_truediv, round64, fits64.
  destruct (Z.eqb_spec total 0) as [->|_]; [lia|].
  rewrite (Z.abs_eq total) by lia.
  destruct (Z.ltb_spec (Z.abs value) (total * float_limit)) as [_|Hge]; [|lia].
  destruct (round64_finite (Z.abs value) total) as [m e]. simpl. eauto.
Qed.

(** C7, as stated, fails in its second part: with a total length of 1
    and an interspersed count of [10^400] the ratio is too large for a
    float, the division raises [OverflowError] and no row is written. *)
Lemma print_table_huge_ratio_no_row :
  0 < RepProp.total_length huge_interspersed
  ∧ print_table huge_interspersed
    = {| out_lines := [props_header]; outcome := Raise OverflowError |}.
Proof. split; [reflexivity|]. vm_compute. reflexivity. Qed.

(** C7, amended: with a total length of 0 the function raises
    [ZeroDivisionError] after the header, so no data row is written; with
    a positive total length and counts whose ratio to it is within the
    range of a float, the row is written and each proportion is the
    quotient of the count by the total length in general format with
    eight significant digits; 250 of 1000 gives [0.25]. *)
Theorem print_table_proportions (rep_props : RepProp.t) :
  (RepProp.total_length rep_props = 0 →
     print_table rep_props
     = {| out_lines := [props_header]; outcome := Raise ZeroDivisionError |})
  ∧ (0 < RepProp.total_length rep_props →
     Forall (λ v, Z.abs v < RepProp.total_length rep_props * float_limit)
            (counts rep_props) →
     ∃ ratios,
       Forall2 (λ v x, int_truediv v (RepProp.total_length rep_props) = Ok x)
               (counts rep_props) ratios
       ∧ ∃ p_masked p_inter p_dna p_ltr p_line p_sine p_small p_uncl,
           format_g 8 <$> ratios
           = [p_masked; p_inter; p_dna; p_ltr; p_line; p_sine; p_small; p_uncl]
           ∧ print_table rep_props
             = {| out_lines :=
                    [props_header;
                     join TAB
                       [RepProp.seq_id rep_props;
                        str_of_Z (RepProp.total_length rep_props);
                        str_of_Z (RepProp.total_masked rep_props); p_masked;
                        str_of_Z (RepProp.interspersed rep_props); p_inter;
                        str_of_Z (RepProp.dna rep_props); p_dna;
                        str_of_Z (RepProp.ltr rep_props); p_ltr;
                        str_of_Z (RepProp.line rep_props); p_line;
                        str_of_Z (RepProp.sine rep_props); p_sine;
                        str_of_Z (RepProp.small_rna rep_props); p_small;
                        str_of_Z (RepProp.unclassified rep_props); p_uncl]
                     +:+ NL];
                  outcome := Ok () |})
  ∧ proportion 250 1000 = Ok "0.25".
Proof.
  split; [|split; [|vm_compute; reflexivity]].
  - intros H0. unfold print_table, props_fields, proportion.
    rewrite H0, int_truediv_zero. reflexivity.
  - intros Ht Hfit. unfold counts in *.
    repeat match goal with
           | H : Forall _ (_ :: _) |- _ => apply Forall_cons in H as [? H]
           end.
    destruct (proportion_fits (RepProp.total_masked rep_props) _ Ht)
      as (x1 & Hx1 & Hp1); [done|].
    destruct (proportion_fits (RepProp.interspersed rep_props) _ Ht)
      as (x2 & Hx2 & Hp2); [done|].
    destruct (proportion_fits (RepProp.dna rep_props) _ Ht)
      as (x3 & Hx3 & Hp3); [done|].
    destruct (proportion_fits (RepProp.ltr rep_props) _ Ht)
      as (x4 & Hx4 & Hp4); [done|].
    destruct (proportion_fits (RepProp.line rep_props) _ Ht)
      as (x5 & Hx5 & Hp5); [done|].
    destruct (proportion_fits (RepProp.sine rep_props) _ Ht)
      as (x6 & Hx6 & Hp6); [done|].
    destruct (proportion_fits (RepProp.small_rna rep_props) _ Ht)
      as (x7 & Hx7 & Hp7); [done|].
    destruct (proportion_fits (RepProp.unclassified rep_props) _ Ht)
      as (x8 & Hx8 & Hp8); [done|].
    exists [x1; x2; x3; x4; x5; x6; x7; x8]. split.
    { repeat (constructor; [done|]). constructor. }
    eexists _, _, _, _, _, _, _, _. split; [reflexivity|].
    unfold print_table, props_fields.
    rewrite Hp1, Hp2, Hp3, Hp4, Hp5, Hp6, Hp7, Hp8. reflexivity.
Qed.

Lemma print_table_proportions_witness :
  ∃ ratios,
    Forall2 (λ v x, int_truediv v 1000 = Ok x) (counts quarter_masked) ratios.
Proof.
  destruct (print_table_proportions quarter_masked) as (_ & H & _).
  destruct H as (ratios & Hr & _).
  - reflexivity.
  - unfold counts, quarter_masked; simpl.
    repeat (constructor; [vm_compute; reflexivity|]). constructor.
  - exists ratios. exact Hr.
Defined.

(** The table written for the sample summary. *)
Example print_table_quarter_masked :
  print_table quarter_masked
  = {| out_lines :=
         [props_header;
          join TAB ["seq"; "1000"; "250"; "0.25"; "200"; "0.2"; "50"; "0.05";
                    "40"; "0.04"; "30"; "0.03"; "20"; "0.02"; "10"; "0.01";
                    "5"; "0.005"] +:+ NL];
       outcome := Ok () |}.
Proof. vm_compute. reflexivity. Qed.

(** * Further properties of the code *)

(** ** More on the cross-match parser *)

Lemma for_each_app {S X : Type} (body : S → X → result S) (xs ys : list X) (st : S) :
  for_each body (xs ++ ys) st = (st' <~ for_each body xs st ;; for_each body ys st').
Proof.
  revert st; induction xs as [|x xs IH]; intros st; simpl; [done|].
  destruct (body st x); simpl; auto.
Qed.

(** A property that every iteration hands on holds when the loop
    returns. *)
Lemma for_each_invariant {S X : Type} (body : S → X → result S) (P : S → Prop)
    (xs : list X) :
  (∀ st x st', P st → body st x = Ok st' → P st') →
  ∀ st st', P st → for_each body xs st = Ok st' → P st'.
Proof.
  intros Hstep. induction xs as [|x xs IH]; intros st st' HP; simpl.
  - by intros [= <-].
  - destruct (body st x) as [st1|e] eqn:Hb; simpl; [|discriminate].
    apply IH. by eapply Hstep.
Qed.

(** What one iteration can do to the state when it returns: nothing, or
    count and append one record. *)
Lemma crossmatch_body_step (st st' : cm_state) (il : nat * string) :
  crossmatch_body st il = Ok st' →
  st' = st
  ∨ ∃ a, cross_match st' = cross_match st ++ [a]
         ∧ cm_records st' = cm_records st + 1
         ∧ cm_kept st' = cm_kept st + 1
         ∧ (cm_reported st' = cm_reported st
            ∨ ∃ r, cm_reported st' = cm_reported st ++ [r]).
Proof.
  unfold crossmatch_body.
  destruct (startswith "#" _); [intros [= <-]; by left|].
  destruct (String.length _ =? 0)%nat; [intros [= <-]; by left|].
  destruct (field _ 0) as [f0|e]; simpl; [|discriminate].
  destruct (isnumeric f0); simpl; [|intros [= <-]; by left].
  unfold cm_record, cm_append.
  destruct (cm_try _ _) as [v [e|]].
  - destruct e; try discriminate.
    destruct (cm_annotation v) as [a|]; simpl; [|discriminate].
    intros [= <-]. right. exists a. simpl. eauto 10.
  - destruct (cm_annotation v) as [a|]; simpl; [|discriminate].
    intros [= <-]. right. exists a. simpl. eauto 10.
Qed.

(** X2: whenever the parse returns, the number of records read, the
    number of records retained and the length of the annotation list are
    the same, and no more lines were reported than records appended. *)
Theorem crossmatch_counters_agree (lines : list string) (st : cm_state) :
  parse_crossmatch_table lines = Ok st →
  cm_kept st = cm_records st
  ∧ cm_records st = Z.of_nat (length (cross_match st))
  ∧ (length (cm_reported st) ≤ length (cross_match st))%nat.
Proof.
  unfold parse_crossmatch_table.
  apply (for_each_invariant crossmatch_body
           (λ st, cm_kept st = cm_records st
                  ∧ cm_records st = Z.of_nat (length (cross_match st))
                  ∧ (length (cm_reported st) ≤ length (cross_match st))%nat)).
  - intros s x s' (Hk & Hr & Hrep) Hb.
    destruct (crossmatch_body_step s s' x Hb)
      as [->|(a & Hcm & Hrec & Hkept & Hreps)]; [done|].
    rewrite Hcm, Hrec, Hkept, length_app. simpl.
    split; [lia|]. split; [lia|].
    destruct Hreps as [->|[r ->]]; [lia|]. rewrite length_app. simpl. lia.
  - simpl. split; [done|]. split; [done|lia].
Qed.

Lemma crossmatch_counters_agree_witness :
  ∃ st, parse_crossmatch_table [aluY_line; short_line] = Ok st
        ∧ cm_kept st = cm_records st.
Proof.
  destruct (parse_crossmatch_table [aluY_line; short_line]) as [st|e] eqn:Hp;
    [|vm_compute in Hp; discriminate].
  exists st. split; [reflexivity|].
  apply (crossmatch_counters_agree [aluY_line; short_line] st Hp).
Defined.

Lemma field_lookup (fields : list string) (i : nat) (f : string) :
  fields !! i = Some f → field fields i = Ok f.
Proof. intros H. unfold field. by rewrite H. Qed.

(** X1: a record line with all eleven positional fields and well-formed
    integers appends exactly the record of its own fields, whatever the
    earlier lines left in the local variables; the strand [C] becomes
    [-], any other strand is kept; the line is not reported. *)
Theorem crossmatch_complete_line (st : cm_state) (i : nat) (raw : string)
    (fields : list string) (f0 f4 f5 f6 f8 f9 f10 : string)
    (sw start_ stop : Z) :
  strip is_newline raw ≠ EmptyString →
  startswith "#" (strip is_newline raw) = false →
  split (strip is_newline raw) = fields →
  fields !! 0%nat = Some f0 → fields !! 4%nat = Some f4 →
  fields !! 5%nat = Some f5 → fields !! 6%nat = Some f6 →
  fields !! 8%nat = Some f8 → fields !! 9%nat = Some f9 →
  fields !! 10%nat = Some f10 →
  isnumeric f0 = true →
  int_of_string f0 = Ok sw →
  int_of_string f5 = Ok start_ →
  int_of_string f6 = Ok stop →
  ∃ st',
    crossmatch_body st (i, raw) = Ok st'
    ∧ cross_match st'
      = cross_match st
        ++ [RepeatAnnot.mk f9 (top_class f10) f10 f4 start_ stop
              (if String.eqb f8 "C" then "-" else f8) sw]
    ∧ cm_reported st' = cm_reported st
    ∧ cm_records st' = cm_records st + 1
    ∧ cm_kept st' = cm_kept st + 1.
Proof.
  intros Hne Hc Hsplit H0 H4 H5 H6 H8 H9 H10 Hnum Hsw Hstart Hstop.
  unfold crossmatch_body; simpl. rewrite Hc.
  destruct (String.length (strip is_newline raw) =? 0)%nat eqn:Hlen.
  { apply length_zero_empty in Hlen. done. }
  rewrite Hsplit, (field_lookup _ _ _ H0). simpl. rewrite Hnum. simpl.
  unfold cm_record, cm_try.
  rewrite (field_lookup _ _ _ H0), (field_lookup _ _ _ H4),
    (field_lookup _ _ _ H5), (field_lookup _ _ _ H6),
    (field_lookup _ _ _ H8), (field_lookup _ _ _ H9),
    (field_lookup _ _ _ H10).
  simpl. rewrite Hsw, Hstart, Hstop. simpl.
  eexists. split; [reflexivity|]. simpl. done.
Qed.

Lemma crossmatch_complete_line_witness :
  ∃ st', crossmatch_body cm_init (0%nat, l1_line) = Ok st'
         ∧ cross_match st'
           = [RepeatAnnot.mk "L1HS" "LINE" "LINE/L1" "chr1" 50 80 "-" 300].
Proof.
  destruct (crossmatch_complete_line cm_init 0 l1_line (split l1_line)
              "300" "chr1" "50" "80" "C" "L1HS" "LINE/L1" 300 50 80)
    as (st' & Hb & Hcm & _); try reflexivity; [discriminate|].
  exists st'. split; [exact Hb|exact Hcm].
Defined.

(** X3: a record line whose start field is present but is no integer
    makes [int] raise [ValueError]; the [except] clause does not catch
    it, so the parse of any input that contains such a line aborts. *)
Theorem crossmatch_bad_start_aborts (lines : list string) (raw : string)
    (fields : list string) (f0 f4 f5 : string) (sw : Z) (e : exn) :
  raw ∈ lines →
  strip is_newline raw ≠ EmptyString →
  startswith "#" (strip is_newline raw) = false →
  split (strip is_newline raw) = fields →
  fields !! 0%nat = Some f0 → fields !! 4%nat = Some f4 →
  fields !! 5%nat = Some f5 →
  isnumeric f0 = true →
  int_of_string f0 = Ok sw →
  int_of_string f5 = Raise e →
  (∀ st i, crossmatch_body st (i, raw) = Raise ValueError)
  ∧ raises (parse_crossmatch_table lines).
Proof.
  intros Hin Hne Hc Hsplit H0 H4 H5 Hnum Hsw Hbad.
  assert (e = ValueError) as ->.
  { unfold int_of_string in Hbad.
    destruct (match strip is_num_space f5 with
              | String "+" u => parse_digits 0 false u
              | String "-" u => Z.opp <$> parse_digits 0 false u
              | _ => parse_digits 0 false (strip is_num_space f5)
              end); congruence. }
  assert (Hbody : ∀ st i, crossmatch_body st (i, raw) = Raise ValueError).
  { intros st i. unfold crossmatch_body; simpl. rewrite Hc.
    destruct (String.length (strip is_newline raw) =? 0)%nat eqn:Hlen.
    { apply length_zero_empty in Hlen. done. }
    rewrite Hsplit, (field_lookup _ _ _ H0). simpl. rewrite Hnum. simpl.
    unfold cm_record, cm_try.
    rewrite (field_lookup _ _ _ H0), (field_lookup _ _ _ H4),
      (field_lookup _ _ _ H5).
    simpl. rewrite Hsw, Hbad. reflexivity. }
  split; [exact Hbody|].
  destruct (enumerate_elem_of lines raw Hin) as [i Hi].
  unfold parse_crossmatch_table.
  apply (for_each_raises crossmatch_body _ (i, raw) Hi).
  intros st. rewrite Hbody. exact I.
Qed.

Lemma crossmatch_bad_start_aborts_witness :
  raises (parse_crossmatch_table [aluY_line; bad_start_line]).
Proof.
  apply (crossmatch_bad_start_aborts [aluY_line; bad_start_line]
           bad_start_line (split bad_start_line) "463" "chr1" "1e3" 463
           ValueError); try reflexivity; [|discriminate].
  apply elem_of_cons; right. apply elem_of_cons; left. reflexivity.
Defined.

Lemma crossmatch_loop_prefix (xs : list (nat * string)) (st st' : cm_state) :
  for_each crossmatch_body xs st = Ok st' →
  cross_match st `prefix_of` cross_match st'.
Proof.
  revert st. induction xs as [|x xs IH]; intros st; simpl.
  - by intros [= <-].
  - destruct (crossmatch_body st x) as [st1|e] eqn:Hb; simpl; [|discriminate].
    intros Hrest. specialize (IH st1 Hrest).
    destruct (crossmatch_body_step st st1 x Hb) as [->|(a & Hcm & _)]; [done|].
    rewrite Hcm in IH. etrans; [|exact IH]. by apply prefix_app_r.
Qed.

Lemma enumerate_app {X : Type} (xs ys : list X) :
  enumerate (xs ++ ys) = enumerate xs ++ zip (seq (length xs) (length ys)) ys.
Proof.
  unfold enumerate. rewrite length_app, seq_app. simpl.
  rewrite zip_with_app; [done|]. by rewrite length_seq.
Qed.

(** X4: the annotations come in the order of the lines and a record,
    once appended, is never changed: the list that the parse of a file
    returns starts with the list that the parse of any leading part of
    the file returns. *)
Theorem crossmatch_read_order (before after : list string) (st : cm_state) :
  parse_crossmatch_table (before ++ after) = Ok st →
  ∃ st0, parse_crossmatch_table before = Ok st0
         ∧ cross_match st0 `prefix_of` cross_match st.
Proof.
  unfold parse_crossmatch_table. rewrite enumerate_app, for_each_app.
  destruct (for_each crossmatch_body (enumerate before) cm_init) as [st0|e];
    simpl; [|discriminate].
  intros H. exists st0. split; [done|]. by eapply crossmatch_loop_prefix.
Qed.

Lemma crossmatch_read_order_witness :
  ∃ st0, parse_crossmatch_table [aluY_line] = Ok st0.
Proof.
  destruct (parse_crossmatch_table ([aluY_line] ++ [l1_line; short_line]))
    as [st|e] eqn:Hp; [|vm_compute in Hp; discriminate].
  destruct (crossmatch_read_order [aluY_line] [l1_line; short_line] st Hp)
    as (st0 & H0 & _).
  exists st0. exact H0.
Defined.

(** ** More on the divergence summary *)

Lemma length_filter_split {A : Type} (P Q : A → Prop)
    `{∀ x, Decision (P x)} `{∀ x, Decision (Q x)} (l : list A) :
  (∀ x, P x ↔ ¬ Q x) →
  length l = (length (filter P l) + length (filter Q l))%nat.
Proof.
  intros HPQ. induction l as [|x l IH]; [done|].
  rewrite !filter_cons.
  destruct (decide (P x)) as [HP|HP]; destruct (decide (Q x)) as [HQ|HQ];
    simpl; try lia.
  - by apply HPQ in HP.
  - exfalso. apply HP, HPQ, HQ.
Qed.


Lemma enter_all_size (m : gmap string RepeatDivsum.t)
    (recs : list RepeatDivsum.t) :
  (size (enter_all m recs) ≤ size m + length recs)%nat.
Proof.
  induction recs as [|r recs IH] using rev_ind; [simpl; lia|].
  rewrite enter_all_snoc, length_app. simpl.
  destruct (enter_all m recs !! RepeatDivsum.r_id r) as [r'|] eqn:Hl.
  - rewrite map_size_insert_Some by eauto. lia.
  - rewrite map_size_insert_None by done. lia.
Qed.

(** X5: whenever the parse returns, the counters add up: the discarded
    records are among the extracted ones, and the index has no more
    entries than records extracted and not discarded (fewer when an
    identifier is repeated). *)
Theorem divsum_counters_add_up (lines : list string) (min_len : Z)
    (st : divsum_state) :
  parse_divsum_table lines min_len = Ok st →
  0 <= discard st <= records st
  ∧ Z.of_nat (size (divsum st)) + discard st <= records st.
Proof.
  rewrite parse_divsum_table_records.
  destruct (divsum_records lines) as [recs|e]; simpl; [|discriminate].
  intros [= <-]; simpl.
  pose proof (length_filter_split
                (λ r, min_len <= RepeatDivsum.wchar_len r)
                (λ r, RepeatDivsum.wchar_len r < min_len) recs) as Hsplit.
  pose proof (enter_all_size ∅ (retained min_len recs)) as Hsize.
  rewrite map_size_empty in Hsize. unfold retained, discarded in *.
  rewrite Hsplit by (intros; lia). lia.
Qed.

Lemma divsum_counters_add_up_witness :
  ∃ st, parse_divsum_table [line_wcl_100; line_wcl_99; line_aluY_again] 100
        = Ok st
        ∧ Z.of_nat (size (divsum st)) + discard st <= records st.
Proof.
  destruct (parse_divsum_table [line_wcl_100; line_wcl_99; line_aluY_again] 100)
    as [st|e] eqn:Hp; [|vm_compute in Hp; discriminate].
  exists st. split; [reflexivity|].
  apply (divsum_counters_add_up _ _ _ Hp).
Defined.



Lemma divsum_records_filter (lines : list string) :
  divsum_records (filter (λ raw, is_Some (divsum_candidate raw)) lines)
  = divsum_records lines.
Proof.
  induction lines as [|raw lines IH]; [done|].
  rewrite filter_cons. destruct (decide (is_Some (divsum_candidate raw)))
    as [[fields Hf]|Hn]; simpl.
  - rewrite Hf, IH. done.
  - destruct (divsum_candidate raw) as [fields|] eqn:Hf; [|exact IH].
    exfalso. apply Hn. eauto.
Qed.

(** X7: only the candidate lines matter.  Comments, empty lines, lines
    that do not have exactly five tab-separated fields and lines whose
    first field is one of [Class], [ARTEFACT], [Simple_repeat] and
    [-----] can be removed from the input without any change to the
    result, counters included. *)
Theorem divsum_only_candidates_matter (lines : list string) (min_len : Z) :
  parse_divsum_table
    (filter (λ raw, is_Some (divsum_candidate raw)) lines) min_len
  = parse_divsum_table lines min_len
  ∧ ∀ raw,
      divsum_candidate raw = None ↔
        (startswith "#" (strip is_newline raw) = true
         ∨ strip is_newline raw = EmptyString
         ∨ length (split_on "009" (strip is_newline raw)) ≠ 5%nat
         ∨ ∃ f, head (split_on "009" (strip is_newline raw)) = Some f
                ∧ f ∈ divsum_skip).
Proof.
  split.
  - by rewrite !parse_divsum_table_records, divsum_records_filter.
  - intros raw. unfold divsum_candidate.
    destruct (startswith "#" (strip is_newline raw)); simpl;
      [split; auto|].
    destruct (String.length (strip is_newline raw) =? 0)%nat eqn:Hlen; simpl.
    { apply length_zero_empty in Hlen. split; auto. }
    assert (strip is_newline raw ≠ EmptyString) as Hne.
    { intros Hs. apply length_zero_empty in Hs. congruence. }
    destruct (Nat.eqb_spec (length (split_on "009" (strip is_newline raw))) 5)
      as [H5|H5]; simpl.
    + destruct (split_on "009" (strip is_newline raw)) as [|f fs]; [done|].
      simpl. destruct (decide (f ∈ divsum_skip)) as [Hin|Hnin].
      * rewrite bool_decide_eq_true_2 by done. simpl.
        split; [|done]. intros _. do 3 right. eauto.
      * rewrite bool_decide_eq_false_2 by done. simpl.
        split; [done|]. intros [?|[?|[?|(f' & [= <-] & ?)]]]; done.
    + split; [|done]. intros _. auto.
Qed.

(** ** The class of a family *)

(** Joining the pieces of a split with the separator gives the string
    back. *)
Lemma join_split_on (sep : ascii) (s : string) :
  join (String sep EmptyString) (split_on sep s) = s.
Proof.
  induction s as [|c s IH]; [done|]. simpl.
  destruct (Ascii.eqb_spec c sep) as [->|Hne].
  - destruct (split_on sep s) as [|w ws] eqn:Hs; [by destruct s|].
    change (join (String sep EmptyString) (EmptyString :: w :: ws))
      with (String sep (join (String sep EmptyString) (w :: ws))).
    by rewrite IH.
  - destruct (split_on sep s) as [|w ws] eqn:Hs.
    + simpl in IH. by rewrite <- IH.
    + destruct ws as [|w' ws]; simpl in *; by rewrite <- IH.
Qed.

Lemma split_on_head_no_sep (sep : ascii) (s w : string) (ws : list string) :
  split_on sep s = w :: ws →
  all_chars (λ c, negb (Ascii.eqb c sep)) w = true.
Proof.
  revert w ws. induction s as [|c s IH]; intros w ws; simpl.
  - by intros [= <- <-].
  - destruct (Ascii.eqb_spec c sep) as [->|Hne].
    + by intros [= <- <-].
    + destruct (split_on sep s) as [|w' ws'] eqn:Hs.
      * intros [= <- <-]. simpl.
        destruct (Ascii.eqb_spec c sep); [done|reflexivity].
      * intros [= <- <-]. simpl.
        destruct (Ascii.eqb_spec c sep); [done|]. simpl. by eapply IH.
Qed.

(** The class is the part of the family before its first [/]. *)
Lemma top_class_spec (family : string) :
  all_chars (λ c, negb (Ascii.eqb c "/")) (top_class family) = true
  ∧ (family = top_class family
     ∨ ∃ rest, family = top_class family +:+ "/" +:+ rest).
Proof.
  unfold top_class.
  pose proof (join_split_on "/" family) as Hj.
  destruct (split_on "/" family) as [|w ws] eqn:Hs; [by destruct family|].
  split; [by eapply split_on_head_no_sep|].
  destruct ws as [|w' ws]; [left; by rewrite <- Hj|].
  right. exists (join "/" (w' :: ws)). rewrite <- Hj at 1. reflexivity.
Qed.

Lemma divsum_records_class (lines : list string) (recs : list RepeatDivsum.t) :
  divsum_records lines = Ok recs →
  Forall (λ r, RepeatDivsum.r_class r = top_class (RepeatDivsum.r_family r))
         recs.
Proof.
  revert recs. induction lines as [|raw lines IH]; intros recs; simpl.
  - intros [= <-]. constructor.
  - destruct (divsum_candidate raw) as [fields|]; [|apply IH].
    destruct (divsum_record fields) as [r|e] eqn:Hr; simpl; [|discriminate].
    destruct (divsum_records lines) as [rs|e]; simpl; [|discriminate].
    intros [= <-]. constructor; [|by apply IH].
    unfold divsum_record in Hr.
    destruct fields as [|f0 [|f1 [|f2 [|f3 [|f4 [|f5 fs]]]]]]; try discriminate.
    destruct (int_of_string f2); simpl in Hr; [|discriminate].
    destruct (int_of_string f3); simpl in Hr; [|discriminate].
    destruct (float_of_string f4); simpl in Hr; [|discriminate].
    injection Hr as <-. reflexivity.
Qed.

(** X8: in every record of the index the class is the part of the family
    before its first [/]: it has no [/] in it, and the family is the
    class alone or the class, a [/] and more. *)
Theorem divsum_class_of_family (lines : list string) (min_len : Z)
    (st : divsum_state) (k : string) (r : RepeatDivsum.t) :
  parse_divsum_table lines min_len = Ok st →
  divsum st !! k = Some r →
  all_chars (λ c, negb (Ascii.eqb c "/")) (RepeatDivsum.r_class r) = true
  ∧ (RepeatDivsum.r_family r = RepeatDivsum.r_class r
     ∨ ∃ rest, RepeatDivsum.r_family r
               = RepeatDivsum.r_class r +:+ "/" +:+ rest).
Proof.
  rewrite parse_divsum_table_records.
  destruct (divsum_records lines) as [recs|e] eqn:Hrecs; simpl; [|discriminate].
  intros [= <-]; simpl. rewrite enter_all_empty_lookup.
  intros Hl%last_elem_of. unfold with_id, retained in Hl.
  rewrite !list_elem_of_filter in Hl. destruct Hl as (_ & _ & Hin).
  pose proof (divsum_records_class lines recs Hrecs) as Hall.
  rewrite Forall_forall in Hall. rewrite (Hall r Hin).
  apply top_class_spec.
Qed.

Lemma divsum_class_of_family_witness :
  ∃ r, RepeatDivsum.r_family r = "SINE/Alu"
       ∧ all_chars (λ c, negb (Ascii.eqb c "/")) (RepeatDivsum.r_class r) = true.
Proof.
  destruct (parse_divsum_table [line_wcl_100] 0) as [st|e] eqn:Hp;
    [|vm_compute in Hp; discriminate].
  destruct (divsum st !! "AluY") as [r|] eqn:Hr.
  - exists r. split.
    + vm_compute in Hp. injection Hp as <-. vm_compute in Hr.
      injection Hr as <-. reflexivity.
    + apply (divsum_class_of_family [line_wcl_100] 0 st "AluY" r Hp Hr).
  - exfalso. vm_compute in Hp. injection Hp as <-. vm_compute in Hr.
    discriminate.
Defined.

(** ** More on the merge *)

Lemma merge_row_lookup (ds1 ds2 : gmap string RepeatDivsum.t)
    (a : RepeatAnnot.t) :
  ds1 !! RepeatAnnot.name a = ds2 !! RepeatAnnot.name a →
  merge_row ds1 a = merge_row ds2 a.
Proof. intros H. unfold merge_row, merge_lookup. by rewrite H. Qed.

Lemma merge_loop_lookup (ds1 ds2 : gmap string RepeatDivsum.t)
    (annotations : list RepeatAnnot.t) (out : list string) :
  Forall (λ a, ds1 !! RepeatAnnot.name a = ds2 !! RepeatAnnot.name a)
         annotations →
  merge_loop ds1 annotations out = merge_loop ds2 annotations out.
Proof.
  intros H. revert out. induction H as [|a anns Ha _ IH]; intros out; [done|].
  simpl. rewrite (merge_row_lookup ds1 ds2 a Ha).
  destruct (merge_row ds2 a); [apply IH|done].
Qed.

(** X9: the merged table depends on the divergence index only through
    the records of the names that are annotated; divergence records that
    no annotation names can be added, changed or removed without any
    change to what is written or raised. *)
Theorem merge_ignores_unmatched (cross_match : list RepeatAnnot.t)
    (ds1 ds2 : gmap string RepeatDivsum.t) :
  (∀ a, a ∈ cross_match →
        ds1 !! RepeatAnnot.name a = ds2 !! RepeatAnnot.name a) →
  merge_cross_divsum cross_match ds1 = merge_cross_divsum cross_match ds2.
Proof.
  intros H. unfold merge_cross_divsum. apply merge_loop_lookup.
  apply Forall_forall. intros a Ha. apply H.
  by rewrite py_sorted_perm in Ha.
Qed.

Lemma merge_ignores_unmatched_witness :
  merge_cross_divsum [aluY_annot; mir_annot] {[ "AluY" := aluY_divsum ]}
  = merge_cross_divsum [aluY_annot; mir_annot]
      (<[ "L1HS" := aluY_as_line ]> {[ "AluY" := aluY_divsum ]}).
Proof.
  apply merge_ignores_unmatched. intros a Ha.
  apply elem_of_cons in Ha as [->|Ha]; [vm_compute; reflexivity|].
  apply elem_of_cons in Ha as [->|Ha]; [vm_compute; reflexivity|].
  by apply elem_of_nil in Ha.
Defined.

(** X10: whatever the input, the merged file begins with the header
    followed by at most one row per annotation, and the function returns
    normally exactly when the file has a row for every annotation. *)
Theorem merge_header_and_rows (cross_match : list RepeatAnnot.t)
    (divsum : gmap string RepeatDivsum.t) :
  ∃ rows,
    out_lines (merge_cross_divsum cross_match divsum) = merge_header :: rows
    ∧ (length rows ≤ length cross_match)%nat
    ∧ (outcome (merge_cross_divsum cross_match divsum) = Ok ()
       ↔ length rows = length cross_match).
Proof.
  unfold merge_cross_divsum.
  set (sorted := py_sorted RepeatAnnot.start Z.leb cross_match).
  assert (length sorted = length cross_match) as Hlen
    by apply py_sorted_length.
  destruct (merge_loop_cases divsum sorted)
    as [[rows H]|(before & b & after & rows & e & Heq & H & Hb)].
  - exists rows. rewrite (merge_loop_rows divsum sorted rows _ H). simpl.
    apply Forall2_length in H. split; [done|]. split; [lia|].
    split; [lia|done].
  - exists rows. rewrite Heq.
    rewrite (merge_loop_stops divsum before after b e rows _ H Hb). simpl.
    apply Forall2_length in H. rewrite Heq, length_app in Hlen. simpl in Hlen.
    split; [done|]. split; [lia|]. split; [discriminate|lia].
Qed.

(** ** The summary table *)

Ltac rm_table_cases :=
  unfold rm_table_body, rm_table_assign;
  repeat match goal with
         | |- context [if ?b then _ else _] => destruct b eqn:?
         | |- context [rbind ?r _] => destruct r eqn:?; simpl
         end.

Lemma rm_table_body_seq_id (rp rp' : RepProp.t) (raw : string) :
  rm_table_body rp raw = Ok rp' → RepProp.seq_id rp' = RepProp.seq_id rp.
Proof. rm_table_cases; intros [= <-]; reflexivity. Qed.

Lemma rm_table_body_total_length (rp rp' : RepProp.t) (raw : string) :
  String.prefix "total length" (rm_trimmed raw) = false →
  rm_table_body rp raw = Ok rp' →
  RepProp.total_length rp' = RepProp.total_length rp.
Proof.
  unfold rm_trimmed. intros Hp. unfold rm_table_body, rm_table_assign.
  rewrite Hp.
  repeat match goal with
         | |- context [if ?b then _ else _] => destruct b eqn:?
         | |- context [rbind ?r _] => destruct r eqn:?; simpl
         end; intros [= <-]; reflexivity.
Qed.

(** X11: the sequence identifier of the record that [parse_rm_table]
    returns is the one it was called with; no line of the table can
    change it. *)
Theorem parse_rm_table_seq_id (rm_table : list string) (sequence_id : string)
    (rp : RepProp.t) :
  parse_rm_table rm_table sequence_id = Ok rp →
  RepProp.seq_id rp = sequence_id.
Proof.
  unfold parse_rm_table.
  apply (for_each_invariant rm_table_body
           (λ r, RepProp.seq_id r = sequence_id)); [|done].
  intros r x r' Hr Hb. by rewrite (rm_table_body_seq_id r r' x Hb).
Qed.

Lemma parse_rm_table_seq_id_witness :
  ∃ rp, parse_rm_table [tbl_border; tbl_total_length; tbl_sines] "hg38" = Ok rp
        ∧ RepProp.seq_id rp = "hg38".
Proof.
  destruct (parse_rm_table [tbl_border; tbl_total_length; tbl_sines] "hg38")
    as [rp|e] eqn:Hp; [|vm_compute in Hp; discriminate].
  exists rp. split; [reflexivity|].
  apply (parse_rm_table_seq_id _ _ _ Hp).
Defined.

Lemma rm_loop_total_length (lines : list string) (rp rp' : RepProp.t) :
  Forall (λ raw, String.prefix "total length" (rm_trimmed raw) = false) lines →
  for_each rm_table_body lines rp = Ok rp' →
  RepProp.total_length rp' = RepProp.total_length rp.
Proof.
  intros H. revert rp. induction H as [|raw lines Hraw _ IH]; intros rp; simpl.
  - by intros [= <-].
  - destruct (rm_table_body rp raw) as [rp1|e] eqn:Hb; simpl; [|discriminate].
    intros Hrest. rewrite (IH rp1 Hrest).
    by apply (rm_table_body_total_length rp rp1 raw).
Qed.

(** X12: a summary table none of whose lines begins, after its leading
    blanks, with [total length] leaves the total length at 0; the run
    then cannot compute a proportion: if the table parses at all, the
    output file gets its header and nothing else and the run ends with
    [ZeroDivisionError].  The empty table is one such input. *)
Theorem main_without_total_length (rm_table : list string) (basename : string) :
  Forall (λ raw, String.prefix "total length" (rm_trimmed raw) = false)
         rm_table →
  (∀ rp, parse_rm_table rm_table basename = Ok rp →
         RepProp.total_length rp = 0
         ∧ ExtractRepmapProps.main rm_table basename
           = {| merged_tsv := None; divsum_tsv := None;
                props_tsv := Some [props_header];
                run_outcome := Raise ZeroDivisionError |})
  ∧ raises (run_outcome (ExtractRepmapProps.main rm_table basename)).
Proof.
  intros H.
  assert (∀ rp, parse_rm_table rm_table basename = Ok rp →
                RepProp.total_length rp = 0) as H0.
  { intros rp Hp. unfold parse_rm_table in Hp.
    by rewrite (rm_loop_total_length rm_table _ rp H Hp). }
  assert (∀ rp, RepProp.total_length rp = 0 →
                print_table rp
                = {| out_lines := [props_header];
                     outcome := Raise ZeroDivisionError |}) as Hprint.
  { intros rp Hz. unfold print_table, props_fields, proportion.
    rewrite Hz, int_truediv_zero. reflexivity. }
  split.
  - intros rp Hp. split; [by apply H0|].
    unfold ExtractRepmapProps.main. rewrite Hp, Hprint by auto. reflexivity.
  - unfold ExtractRepmapProps.main.
    destruct (parse_rm_table rm_table basename) as [rp|e] eqn:Hp; [|exact I].
    rewrite Hprint by auto. exact I.
Qed.

Lemma main_without_total_length_witness :
  raises (run_outcome
            (ExtractRepmapProps.main [tbl_border; tbl_bases_masked; tbl_alus]
                                     "hg38")).
Proof.
  apply (main_without_total_length [tbl_border; tbl_bases_masked; tbl_alus]
           "hg38").
  repeat (constructor; [reflexivity|]). constructor.
Defined.

Lemma int_field_short (fields : list string) (i : nat) :
  (length fields ≤ i)%nat → int_field fields i = Raise IndexError.
Proof. intros H. unfold int_field. by rewrite field_short. Qed.

(** X13: a line that begins with one of the nine keywords but has at
    most two whitespace-delimited fields has no field at the position of
    the count: the body raises [IndexError], nothing catches it and the
    parse of any table that contains such a line aborts. *)
Theorem rm_table_short_keyword_line (rm_table : list string) (raw kw : string) :
  raw ∈ rm_table →
  strip is_newline raw ≠ EmptyString →
  is_border (strip is_newline raw) = false →
  kw ∈ rm_keywords →
  String.prefix kw (rm_trimmed raw) = true →
  (length (split (rm_trimmed raw)) ≤ 2)%nat →
  (∀ rp, rm_table_body rp raw = Raise IndexError)
  ∧ ∀ sequence_id, raises (parse_rm_table rm_table sequence_id).
Proof.
  intros Hin Hne Hb Hkw Hp Hlen. unfold rm_trimmed in *.
  assert (Hbody : ∀ rp, rm_table_body rp raw = Raise IndexError).
  { intros rp. unfold rm_table_body. rewrite Hb.
    destruct (String.length (strip is_newline raw) =? 0)%nat eqn:Hl.
    { apply length_zero_empty in Hl. done. }
    unfold rm_table_assign.
    rewrite (int_field_short _ 2) by lia.
    rewrite (int_field_short _ 3) by lia. simpl.
    repeat match goal with
           | |- context [if ?b then _ else _] => destruct b eqn:?; [done|]
           end.
    exfalso. unfold rm_keywords in Hkw.
    repeat (apply elem_of_cons in Hkw as [->|Hkw]; [congruence|]).
    by apply elem_of_nil in Hkw. }
  split; [exact Hbody|]. intros sequence_id. unfold parse_rm_table.
  apply (for_each_raises rm_table_body _ raw Hin).
  intros rp. rewrite Hbody. exact I.
Qed.

Lemma rm_table_short_keyword_line_witness :
  raises (parse_rm_table [tbl_border; "total length:"] "hg38").
Proof.
  apply (rm_table_short_keyword_line [tbl_border; "total length:"]
           "total length:" "total length").
  - apply elem_of_cons; right. apply elem_of_cons; left. reflexivity.
  - discriminate.
  - reflexivity.
  - apply elem_of_cons; left. reflexivity.
  - reflexivity.
  - simpl. lia.
Defined.

(** X14: a later line overwrites an earlier one.  A [total length] line
    whose third field is an integer sets the total length to it and
    leaves every other attribute as the lines before it made them. *)
Theorem parse_rm_table_last_total_length (rm_table : list string)
    (raw sequence_id f : string) (rp : RepProp.t) (n : Z) :
  parse_rm_table rm_table sequence_id = Ok rp →
  strip is_newline raw ≠ EmptyString →
  is_border (strip is_newline raw) = false →
  String.prefix "total length" (rm_trimmed raw) = true →
  split (rm_trimmed raw) !! 2%nat = Some f →
  int_of_string f = Ok n →
  parse_rm_table (rm_table ++ [raw]) sequence_id
  = Ok (with_total_length n rp).
Proof.
  intros Hp Hne Hb Hpre Hf Hn. unfold parse_rm_table in *.
  rewrite for_each_app, Hp. simpl. unfold rm_trimmed in *.
  unfold rm_table_body. rewrite Hb.
  destruct (String.length (strip is_newline raw) =? 0)%nat eqn:Hl.
  { apply length_zero_empty in Hl. done. }
  unfold rm_table_assign. rewrite Hpre. unfold int_field.
  rewrite (field_lookup _ _ _ Hf). simpl. rewrite Hn. reflexivity.
Qed.

Lemma parse_rm_table_last_total_length_witness :
  ∃ rp, parse_rm_table ([tbl_total_length; tbl_sines] ++ ["total length: 7 bp"])
          "hg38" = Ok rp
        ∧ RepProp.total_length rp = 7 ∧ RepProp.sine rp = 390951108.
Proof.
  destruct (parse_rm_table [tbl_total_length; tbl_sines] "hg38")
    as [rp0|e] eqn:Hp; [|vm_compute in Hp; discriminate].
  exists (with_total_length 7 rp0). split.
  - apply (parse_rm_table_last_total_length [tbl_total_length; tbl_sines]
             "total length: 7 bp" "hg38" "7" rp0 7 Hp);
      [discriminate|reflexivity|reflexivity|reflexivity|reflexivity].
  - vm_compute in Hp. injection Hp as <-. split; reflexivity.
Defined.

(** ** The minimum length on the command line *)

Lemma all_chars_lstrip (q p : ascii → bool) (s : string) :
  all_chars q s = true → all_chars q (lstrip p s) = true.
Proof.
  induction s as [|c s IH]; simpl; [done|].
  intros [Hc Hs]%andb_prop. destruct (p c); [auto|].
  simpl. by rewrite Hc, Hs.
Qed.

Lemma all_chars_rstrip (q p : ascii → bool) (s : string) :
  all_chars q s = true → all_chars q (rstrip p s) = true.
Proof.
  induction s as [|c s IH]; simpl; [done|].
  intros [Hc Hs]%andb_prop. specialize (IH Hs).
  destruct (rstrip p s) as [|c' r].
  - destruct (p c); simpl; [done|]. by rewrite Hc.
  - simpl in *. by rewrite Hc, IH.
Qed.

Lemma all_chars_strip (q p : ascii → bool) (s : string) :
  all_chars q s = true → all_chars q (strip p s) = true.
Proof. intros H. unfold strip. by apply all_chars_rstrip, all_chars_lstrip. Qed.

Lemma is_digit_val (c : ascii) : is_digit c = true → 0 <= digit_val c <= 9.
Proof.
  unfold is_digit, digit_val. intros [H1 H2]%andb_prop.
  apply Z.leb_le in H1, H2. lia.
Qed.

Lemma parse_digits_nonneg (s : string) (acc : Z) (b : bool) (z : Z) :
  0 <= acc → parse_digits acc b s = Some z → 0 <= z.
Proof.
  revert acc b. induction s as [|c s IH]; intros acc b Hacc; simpl.
  - destruct b; [|discriminate]. intros [= <-]. done.
  - destruct (is_digit c) eqn:Hc.
    + apply IH. pose proof (is_digit_val c Hc). lia.
    + destruct (Ascii.eqb c "_" && b); [|discriminate].
      destruct s as [|c' s']; [discriminate|].
      destruct (is_digit c'); [|discriminate]. by apply IH.
Qed.

Lemma int_of_numeric_nonneg (s : string) (z : Z) :
  isnumeric s = true → int_of_string s = Ok z → 0 <= z.
Proof.
  intros Hnum. unfold int_of_string.
  assert (all_chars is_numeric_char (strip is_num_space s) = true) as Hall.
  { apply all_chars_strip. by destruct s. }
  destruct (strip is_num_space s) as [|c u] eqn:Ht.
  - simpl. discriminate.
  - simpl in Hall. apply andb_prop in Hall as [Hc _].
    destruct (parse_digits 0 false (String c u)) as [v|] eqn:Hv.
    + pose proof (parse_digits_nonneg _ 0 false v ltac:(lia) Hv) as Hnn.
      destruct c as [[] [] [] [] [] [] [] []]; try discriminate Hc;
        rewrite ?Hv; intros [= <-]; exact Hnn.
    + destruct c as [[] [] [] [] [] [] [] []]; try discriminate Hc;
        rewrite ?Hv; discriminate.
Qed.

(** X15: a minimum length given on the command line is accepted only
    when it is a string of numeric characters, and is then not negative;
    anything else, a negative number included, ends the program with the
    error message.  Without the option the minimum is [-1000000000]. *)
Theorem check_min_length_accepts (min_len : string) :
  (∀ z, check_min_length (Some min_len) = Accepted z →
        isnumeric min_len = true ∧ 0 <= z)
  ∧ (isnumeric min_len = false →
     ∃ message, check_min_length (Some min_len) = Exits message)
  ∧ (∀ u, min_len = String "-" u → isnumeric min_len = false)
  ∧ check_min_length None = Accepted (-1000000000).
Proof.
  split; [|split; [|split; [|reflexivity]]].
  - intros z. unfold check_min_length.
    destruct (isnumeric min_len) eqn:Hnum; [|discriminate].
    destruct (int_of_string min_len) as [v|e] eqn:Hv; [|discriminate].
    intros [= <-]. split; [done|]. by eapply int_of_numeric_nonneg.
  - intros Hnum. unfold check_min_length. rewrite Hnum. eauto.
  - intros u ->. reflexivity.
Qed.

Lemma check_min_length_accepts_witness :
  isnumeric "100" = true ∧ 0 <= 100.
Proof.
  destruct (check_min_length_accepts "100") as [H _].
  apply (H 100). reflexivity.
Defined.

(** ** The whole run of [parse_repeat_masker_out.py] *)

Lemma clean_divsum_file_rows (divsum : gmap string RepeatDivsum.t) :
  ∃ rows,
    clean_divsum_file divsum
    = {| out_lines := divsum_header :: rows; outcome := Ok () |}
    ∧ Forall2 (λ k row, ∃ div, divsum !! k = Some div ∧ row = divsum_row div)
              (sorted_keys divsum) rows.
Proof.
  destruct (clean_loop_rows divsum (sorted_keys divsum) [divsum_header])
    as (rows & Hloop & Hrows); [|eauto].
  apply Forall_forall. intros k Hk. rewrite sorted_keys_perm in Hk.
  apply list_elem_of_fmap in Hk as ([k' v] & -> & Hkv).
  apply elem_of_map_to_list in Hkv. simpl. eauto.
Qed.

(** X16: the order of the steps of [main].  When the cross-match table
    does not parse, no file is written.  The merged file is opened
    exactly when both tables have parsed.  The clean divergence file is
    written exactly when the whole run succeeds, so an error during the
    merge leaves a truncated merged file and no divergence file. *)
Theorem main_order_of_outputs (cross_match_f divsum_f : list string)
    (min_length : Z) :
  let r := ParseRepeatMaskerOut.main cross_match_f divsum_f min_length in
  (∀ e, parse_crossmatch_table cross_match_f = Raise e →
        r = {| merged_tsv := None; divsum_tsv := None; props_tsv := None;
               run_outcome := Raise e |})
  ∧ (is_Some (merged_tsv r) ↔
       ¬ raises (parse_crossmatch_table cross_match_f)
       ∧ ¬ raises (parse_divsum_table divsum_f min_length))
  ∧ (is_Some (divsum_tsv r) ↔ run_outcome r = Ok ())
  ∧ (∀ cm ds e,
       parse_crossmatch_table cross_match_f = Ok cm →
       parse_divsum_table divsum_f min_length = Ok ds →
       outcome (merge_cross_divsum (cross_match cm) (divsum ds)) = Raise e →
       r = {| merged_tsv :=
                Some (out_lines (merge_cross_divsum (cross_match cm)
                                                    (divsum ds)));
              divsum_tsv := None; props_tsv := None;
              run_outcome := Raise e |}).
Proof.
  intros r. subst r. unfold ParseRepeatMaskerOut.main.
  split; [intros e ->; reflexivity|].
  destruct (parse_crossmatch_table cross_match_f) as [cm|e1]; simpl.
  2:{ split; [split; [intros [? [=]]|intros [H _]; by destruct H]|].
      split; [split; [intros [? [=]]|discriminate]|]. discriminate. }
  destruct (parse_divsum_table divsum_f min_length) as [ds|e2]; simpl.
  2:{ split; [split; [intros [? [=]]|intros [_ H]; by destruct H]|].
      split; [split; [intros [? [=]]|discriminate]|]. discriminate. }
  destruct (outcome (merge_cross_divsum (cross_match cm) (divsum ds)))
    as [[]|e3] eqn:Hm; simpl.
  - destruct (clean_divsum_file_rows (divsum ds)) as (rows & -> & _). simpl.
    split; [split; [intros _; split; intros []|eauto]|].
    split; [split; [done|eauto]|].
    intros cm' ds' e [= <-] [= <-]. congruence.
  - split; [split; [intros _; split; intros []|eauto]|].
    split; [split; [intros [? [=]]|discriminate]|].
    intros cm' ds' e [= <-] [= <-] He. rewrite Hm in He.
    injection He as <-. reflexivity.
Qed.

Lemma main_order_of_outputs_witness :
  ParseRepeatMaskerOut.main [short_line] [line_wcl_100] 0
  = {| merged_tsv := None; divsum_tsv := None; props_tsv := None;
       run_outcome := Raise UnboundLocalError |}.
Proof.
  destruct (main_order_of_outputs [short_line] [line_wcl_100] 0) as [H _].
  apply H. vm_compute. reflexivity.
Defined.

Lemma divsum_index_keys (lines : list string) (min_len : Z)
    (st : divsum_state) (k : string) (r : RepeatDivsum.t) :
  parse_divsum_table lines min_len = Ok st →
  divsum st !! k = Some r →
  RepeatDivsum.r_id r = k ∧ min_len <= RepeatDivsum.wchar_len r.
Proof.
  rewrite parse_divsum_table_records.
  destruct (divsum_records lines) as [recs|e]; simpl; [|discriminate].
  intros [= <-]; simpl. rewrite enter_all_empty_lookup.
  intros Hl%last_elem_of. unfold with_id, retained in Hl.
  rewrite !list_elem_of_filter in Hl. tauto.
Qed.

Lemma clean_rows_records (divsum : gmap string RepeatDivsum.t)
    (keys rows : list string) :
  Forall2 (λ k row, ∃ div, divsum !! k = Some div ∧ row = divsum_row div)
          keys rows →
  ∃ recs, rows = divsum_row <$> recs
          ∧ Forall2 (λ k div, divsum !! k = Some div) keys recs.
Proof.
  induction 1 as [|k row keys rows (div & Hdiv & ->) _ (recs & -> & IH)].
  - exists []. split; [done|constructor].
  - exists (div :: recs). split; [done|by constructor].
Qed.

Lemma keyed_records (divsum : gmap string RepeatDivsum.t) (P : RepeatDivsum.t → Prop)
    (keys : list string) (recs : list RepeatDivsum.t) :
  (∀ k r, divsum !! k = Some r → RepeatDivsum.r_id r = k ∧ P r) →
  Forall2 (λ k div, divsum !! k = Some div) keys recs →
  RepeatDivsum.r_id <$> recs = keys ∧ Forall P recs.
Proof.
  intros HP. induction 1 as [|k r keys recs Hk _ [IH1 IH2]].
  - split; [done|constructor].
  - destruct (HP k r Hk) as [Hid HPr]. split.
    + rewrite fmap_cons, Hid, IH1. done.
    + by constructor.
Qed.

(** X17: in a run that succeeds the clean divergence file is the header
    followed by the rows of records whose repeat identifiers, the second
    column, are strictly ascending, and whose well-characterised lengths
    are all at least the minimum length. *)
Theorem main_divsum_file_sorted (cross_match_f divsum_f : list string)
    (min_length : Z) (written_lines : list string) :
  divsum_tsv (ParseRepeatMaskerOut.main cross_match_f divsum_f min_length)
  = Some written_lines →
  ∃ recs,
    written_lines = divsum_header :: (divsum_row <$> recs)
    ∧ StronglySorted str_lt (RepeatDivsum.r_id <$> recs)
    ∧ Forall (λ r, min_length <= RepeatDivsum.wchar_len r) recs.
Proof.
  unfold ParseRepeatMaskerOut.main.
  destruct (parse_crossmatch_table cross_match_f) as [cm|e1]; [|discriminate].
  destruct (parse_divsum_table divsum_f min_length) as [ds|e2] eqn:Hds;
    [|discriminate].
  destruct (outcome (merge_cross_divsum _ _)) as [[]|e3]; [|discriminate].
  simpl. destruct (clean_divsum_file_rows (divsum ds)) as (rows & -> & Hrows).
  simpl. intros [= <-].
  destruct (clean_rows_records _ _ _ Hrows) as (recs & -> & Hrecs).
  destruct (keyed_records (divsum ds)
              (λ r, min_length <= RepeatDivsum.wchar_len r) _ _
              (λ k r, divsum_index_keys _ _ _ k r Hds) Hrecs) as [Hkeys Hall].
  exists recs. split; [done|]. split; [|done].
  rewrite Hkeys. apply sorted_keys_ascending.
Qed.

Lemma main_divsum_file_sorted_witness :
  ∃ recs,
    StronglySorted str_lt (RepeatDivsum.r_id <$> recs) ∧ length recs = 2%nat.
Proof.
  destruct (divsum_tsv (ParseRepeatMaskerOut.main [aluY_line; l1_line]
                          [line_wcl_100; line_wcl_99] 0)) as [w|] eqn:Hw;
    [|vm_compute in Hw; discriminate].
  destruct (main_divsum_file_sorted _ _ _ w Hw) as (recs & Heq & Hs & _).
  exists recs. split; [exact Hs|].
  vm_compute in Hw. injection Hw as <-.
  apply (f_equal length) in Heq. simpl in Heq. rewrite length_fmap in Heq.
  lia.
Defined.

(** ** Columns *)

Lemma all_chars_impl (p q : ascii → bool) (s : string) :
  (∀ c, p c = true → q c = true) → all_chars p s = true → all_chars q s = true.
Proof.
  intros Hpq. induction s as [|c s IH]; simpl; [done|].
  intros [Hc Hs]%andb_prop. by rewrite (Hpq c Hc), IH.
Qed.

Lemma all_chars_app (q : ascii → bool) (s t : string) :
  all_chars q (s +:+ t) = all_chars q s && all_chars q t.
Proof.
  induction s as [|c s IH]; simpl; [done|]. by rewrite IH, andb_assoc.
Qed.

Lemma all_chars_take (q : ascii → bool) (k : nat) (s : string) :
  all_chars q s = true → all_chars q (take_str k s) = true.
Proof.
  revert s. induction k as [|k IH]; intros [|c s]; simpl; try done.
  intros [Hc Hs]%andb_prop. by rewrite Hc, IH.
Qed.

Lemma all_chars_drop (q : ascii → bool) (k : nat) (s : string) :
  all_chars q s = true → all_chars q (drop_str k s) = true.
Proof.
  revert s. induction k as [|k IH]; intros [|c s]; simpl; try done.
  intros [Hc Hs]%andb_prop. by apply IH.
Qed.

Lemma all_chars_zeros (k : nat) : all_chars is_digit (zeros k) = true.
Proof. induction k as [|k IH]; simpl; [done|]. exact IH. Qed.

Lemma digits_go_digits (fuel : nat) (n : Z) (acc : string) :
  all_chars is_digit acc = true →
  all_chars is_digit (digits_go fuel n acc) = true.
Proof.
  revert n acc. induction fuel as [|fuel IH]; intros n acc Hacc; simpl; [done|].
  assert (all_chars is_digit (String (digit_char (n mod 10)) acc) = true) as H.
  { simpl. rewrite digit_char_is_digit, Hacc; [done|].
    apply Z.mod_pos_bound. lia. }
  destruct (n <? 10); [done|]. by apply IH.
Qed.

Lemma str_of_nat_Z_digits (n : Z) : all_chars is_digit (str_of_nat_Z n) = true.
Proof. unfold str_of_nat_Z. by apply digits_go_digits. Qed.

Lemma digit_number_char (c : ascii) : is_digit c = true → number_char c = true.
Proof. intros H. unfold number_char. by rewrite H. Qed.

Lemma str_of_Z_number (z : Z) : all_chars number_char (str_of_Z z) = true.
Proof.
  unfold str_of_Z.
  pose proof (all_chars_impl _ _ _ digit_number_char
                (str_of_nat_Z_digits z)) as H1.
  pose proof (all_chars_impl _ _ _ digit_number_char
                (str_of_nat_Z_digits (- z))) as H2.
  destruct (z <? 0); simpl; [by rewrite H2|done].
Qed.

Lemma with_fraction_number (ipart frac : string) :
  all_chars number_char ipart = true →
  all_chars number_char frac = true →
  all_chars number_char (with_fraction ipart frac) = true.
Proof.
  intros Hi Hf. unfold with_fraction.
  pose proof (all_chars_rstrip number_char is_zero_char frac Hf) as Hr.
  destruct (rstrip is_zero_char frac) as [|c r]; [done|].
  rewrite !all_chars_app, Hi, Hr. reflexivity.
Qed.

Lemma exponent_suffix_number (x : Z) :
  all_chars number_char (exponent_suffix x) = true.
Proof.
  unfold exponent_suffix.
  pose proof (all_chars_impl _ _ _ digit_number_char
                (str_of_nat_Z_digits (Z.abs x))) as Ha.
  destruct (Z.abs x <? 10); destruct (x <? 0); simpl; by rewrite Ha.
Qed.

Lemma format_g_finite_number (p m e : Z) :
  all_chars number_char (format_g_finite p m e) = true.
Proof.
  unfold format_g_finite. destruct (m =? 0); [reflexivity|].
  destruct (round_sig p _ _) as [q x].
  pose proof (all_chars_impl _ _ _ digit_number_char
                (str_of_nat_Z_digits q)) as Hq.
  destruct ((-4 <=? x) && (x <? p)).
  - destruct (0 <=? x).
    + apply with_fraction_number; [by apply all_chars_take|by apply all_chars_drop].
    + apply with_fraction_number; [reflexivity|].
      rewrite all_chars_app, Hq, andb_true_r.
      apply (all_chars_impl _ _ _ digit_number_char), all_chars_zeros.
  - rewrite all_chars_app, exponent_suffix_number, andb_true_r.
    apply with_fraction_number; [by apply all_chars_take|by apply all_chars_drop].
Qed.

Lemma format_g_number (p : Z) (x : pyfloat) :
  all_chars number_char (format_g p x) = true.
Proof.
  destruct x as [|[]|[] m e]; simpl; try reflexivity;
    apply format_g_finite_number.
Qed.

Lemma number_char_not_tab (c : ascii) : number_char c = true → not_tab c = true.
Proof.
  destruct c as [[] [] [] [] [] [] [] []]; vm_compute; congruence.
Qed.

Lemma not_space_not_tab (c : ascii) :
  negb (is_space c) = true → not_tab c = true.
Proof.
  destruct c as [[] [] [] [] [] [] [] []]; vm_compute; congruence.
Qed.

Lemma str_of_Z_tab_free (z : Z) : tab_free (str_of_Z z).
Proof. apply (all_chars_impl _ _ _ number_char_not_tab), str_of_Z_number. Qed.

Lemma format_g_tab_free (p : Z) (x : pyfloat) : tab_free (format_g p x).
Proof. apply (all_chars_impl _ _ _ number_char_not_tab), format_g_number. Qed.

(** The words of [split] have no whitespace in them. *)
Lemma split_words (s : string) :
  Forall (λ w, all_chars (λ c, negb (is_space c)) w = true) (split s).
Proof.
  induction s as [|c s IH]; simpl; [constructor|].
  destruct (is_space c) eqn:Hc; [done|].
  destruct s as [|c' s']; [repeat constructor; simpl; by rewrite Hc|].
  destruct (is_space c') eqn:Hc'.
  - constructor; [simpl; by rewrite Hc|done].
  - destruct (split (String c' s')) as [|w ws].
    + repeat constructor. simpl. by rewrite Hc.
    + apply Forall_cons in IH as [Hw Hws]. constructor; [|done].
      simpl. by rewrite Hc, Hw.
Qed.

Lemma split_tab_free (s : string) : Forall tab_free (split s).
Proof.
  eapply Forall_impl; [apply split_words|].
  intros w Hw. by apply (all_chars_impl _ _ _ not_space_not_tab).
Qed.

(** The pieces of a split are pieces of the string. *)
Lemma all_chars_split_on (q : ascii → bool) (sep : ascii) (s : string) :
  all_chars q s = true →
  Forall (λ w, all_chars q w = true) (split_on sep s).
Proof.
  induction s as [|c s IH]; simpl; [repeat constructor|].
  intros [Hc Hs]%andb_prop. specialize (IH Hs).
  destruct (Ascii.eqb c sep); [by constructor|].
  destruct (split_on sep s) as [|w ws].
  - repeat constructor. simpl. by rewrite Hc.
  - apply Forall_cons in IH as [Hw Hws]. constructor; [|done].
    simpl. by rewrite Hc, Hw.
Qed.

(** The pieces of a split do not contain the separator. *)
Lemma split_on_no_sep (sep : ascii) (s : string) :
  Forall (λ w, all_chars (λ c, negb (Ascii.eqb c sep)) w = true)
         (split_on sep s).
Proof.
  induction s as [|c s IH]; simpl; [repeat constructor|].
  destruct (Ascii.eqb c sep) eqn:Hc; [by constructor|].
  destruct (split_on sep s) as [|w ws].
  - repeat constructor. simpl. by rewrite Hc.
  - apply Forall_cons in IH as [Hw Hws]. constructor; [|done].
    simpl. by rewrite Hc, Hw.
Qed.

Lemma top_class_tab_free (family : string) :
  tab_free family → tab_free (top_class family).
Proof.
  intros H. unfold top_class.
  pose proof (all_chars_split_on not_tab "/" family H) as Hall.
  destruct (split_on "/" family) as [|w ws]; [reflexivity|].
  by apply Forall_cons in Hall as [Hw _].
Qed.

Lemma split_on_single (sep : ascii) (w : string) :
  all_chars (λ c, negb (Ascii.eqb c sep)) w = true → split_on sep w = [w].
Proof.
  induction w as [|c w IH]; simpl; [done|].
  intros [Hc Hw]%andb_prop. apply negb_true_iff in Hc. rewrite Hc.
  by rewrite (IH Hw).
Qed.

Lemma split_on_cons (sep : ascii) (w rest : string) :
  all_chars (λ c, negb (Ascii.eqb c sep)) w = true →
  split_on sep (w +:+ String sep rest) = w :: split_on sep rest.
Proof.
  induction w as [|c w IH]; simpl.
  - intros _. by rewrite Ascii.eqb_refl.
  - intros [Hc Hw]%andb_prop. apply negb_true_iff in Hc. rewrite Hc.
    by rewrite (IH Hw).
Qed.

(** Splitting a joined row gives its fields back, when no field contains
    the separator. *)
Lemma split_on_join (sep : ascii) (fields : list string) :
  fields ≠ [] →
  Forall (λ w, all_chars (λ c, negb (Ascii.eqb c sep)) w = true) fields →
  split_on sep (join (String sep EmptyString) fields) = fields.
Proof.
  intros Hne H. induction H as [|w ws Hw Hws IH]; [done|].
  destruct ws as [|w' ws].
  - simpl. by apply split_on_single.
  - change (join (String sep EmptyString) (w :: w' :: ws))
      with (w +:+ String sep (join (String sep EmptyString) (w' :: ws))).
    rewrite split_on_cons by done. by rewrite IH.
Qed.

Lemma cm_try_tab_free (fields : list string) (v : cm_locals) :
  Forall tab_free fields → vars_tab_free v →
  vars_tab_free (cm_try fields v).1.
Proof.
  intros Hf (Hc & Hn & Hcl & Hs).
  assert (Hl : ∀ i f, fields !! i = Some f → tab_free f).
  { intros i f Hi. by eapply Forall_lookup_1. }
  unfold cm_try, field.
  repeat match goal with
         | |- context [fields !! ?i] =>
             let E := fresh "E" in
             destruct (fields !! i) eqn:E; simpl; [apply Hl in E|]
         | |- context [int_of_string ?f] => destruct (int_of_string f); simpl
         | |- context [String.eqb ?a ?b] => destruct (String.eqb a b)
         end;
    unfold vars_tab_free; simpl; repeat split; done.
Qed.

Lemma cm_annotation_tab_free (v : cm_locals) (a : RepeatAnnot.t) :
  vars_tab_free v → cm_annotation v = Ok a → annot_tab_free a.
Proof.
  intros (Hc & Hn & Hcl & Hs). unfold cm_annotation.
  destruct v as [sw ch sb eb rn rc sd]; simpl in *.
  destruct rn; simpl; [|discriminate]. destruct rc; simpl; [|discriminate].
  destruct ch; simpl; [|discriminate]. destruct sb; simpl; [|discriminate].
  destruct eb; simpl; [|discriminate]. destruct sd; simpl; [|discriminate].
  destruct sw; simpl; [|discriminate].
  intros [= <-]. unfold annot_tab_free; simpl.
  repeat split; try done. by apply top_class_tab_free.
Qed.

Lemma crossmatch_body_tab_free (st st' : cm_state) (il : nat * string) :
  Forall annot_tab_free (cross_match st) ∧ vars_tab_free (cm_vars st) →
  crossmatch_body st il = Ok st' →
  Forall annot_tab_free (cross_match st') ∧ vars_tab_free (cm_vars st').
Proof.
  intros [Hall Hv]. unfold crossmatch_body.
  destruct (startswith "#" _); [by intros [= <-]|].
  destruct (String.length _ =? 0)%nat; [by intros [= <-]|].
  destruct (field _ 0) as [f0|e]; simpl; [|discriminate].
  destruct (isnumeric f0); simpl; [|by intros [= <-]].
  unfold cm_record, cm_append.
  pose proof (cm_try_tab_free (split (strip is_newline il.2)) (cm_vars st)
                (split_tab_free _) Hv) as Hv'.
  destruct (cm_try _ _) as [v [e|]]; simpl in Hv'.
  - destruct e; try discriminate.
    destruct (cm_annotation v) as [a|] eqn:Ha; simpl; [|discriminate].
    intros [= <-]. simpl. split; [|done].
    apply Forall_app. split; [done|]. constructor; [|constructor].
    by eapply cm_annotation_tab_free.
  - destruct (cm_annotation v) as [a|] eqn:Ha; simpl; [|discriminate].
    intros [= <-]. simpl. split; [|done].
    apply Forall_app. split; [done|]. constructor; [|constructor].
    by eapply cm_annotation_tab_free.
Qed.

Lemma crossmatch_tab_free (lines : list string) (st : cm_state) :
  parse_crossmatch_table lines = Ok st →
  Forall annot_tab_free (cross_match st).
Proof.
  intros Hp.
  apply (for_each_invariant crossmatch_body
           (λ s, Forall annot_tab_free (cross_match s)
                 ∧ vars_tab_free (cm_vars s))
           (enumerate lines)
           (λ s x s', crossmatch_body_tab_free s s' x) cm_init st).
  - split; [constructor|]. repeat split.
  - exact Hp.
Qed.

(** X18: the rows of the merged table have exactly ten columns.  For an
    annotation that the cross-match parser returned and any divergence
    index, the row is ten fields joined by tabs and a newline, and
    splitting the text before the newline at the tabs gives these ten
    fields back: no field contains a tab. *)
Theorem merged_row_ten_columns (lines : list string) (st : cm_state)
    (divsum : gmap string RepeatDivsum.t) (a : RepeatAnnot.t) (row : string) :
  parse_crossmatch_table lines = Ok st →
  a ∈ cross_match st →
  merge_row divsum a = Ok row →
  ∃ fields,
    length fields = 10%nat
    ∧ row = join TAB fields +:+ NL
    ∧ split_on "009" (join TAB fields) = fields.
Proof.
  intros Hp Ha Hrow.
  pose proof (crossmatch_tab_free lines st Hp) as Hall.
  rewrite Forall_forall in Hall.
  destruct (Hall a Ha) as (Hc & Hs & Hn & Hcl & Hf).
  unfold merge_row in Hrow.
  destruct (merge_lookup divsum a) as [[w k]|e] eqn:Hl; simpl in Hrow;
    [|discriminate].
  destruct (format_g_int 6 (RepeatAnnot.score a)) as [score|e] eqn:Hsc;
    simpl in Hrow; [|discriminate].
  injection Hrow as <-.
  exists (merge_fields a w k score). split; [reflexivity|]. split; [done|].
  apply split_on_join; [discriminate|].
  unfold merge_fields. repeat (apply Forall_cons; split); try done;
    try apply str_of_Z_tab_free.
  - destruct w; simpl; [apply str_of_Z_tab_free|reflexivity].
  - unfold merge_lookup in Hl.
    destruct (divsum !! RepeatAnnot.name a) as [d|].
    + destruct (String.eqb _ _); [|discriminate].
      injection Hl as <- <-. simpl. apply format_g_tab_free.
    + injection Hl as <- <-. reflexivity.
  - unfold format_g_int in Hsc.
    destruct (float_of_int (RepeatAnnot.score a)); simpl in Hsc;
      [|discriminate].
    injection Hsc as <-. apply format_g_tab_free.
Qed.

Lemma merged_row_ten_columns_witness :
  ∃ fields,
    length fields = 10%nat
    ∧ join TAB ["chr1"; "50"; "80"; "-"; "L1HS"; "LINE"; "LINE/L1"; "None";
                "None"; "300"] +:+ NL
      = join TAB fields +:+ NL
    ∧ split_on "009" (join TAB fields) = fields.
Proof.
  destruct (parse_crossmatch_table [aluY_line; l1_line]) as [st|e] eqn:Hp;
    [|vm_compute in Hp; discriminate].
  apply (merged_row_ten_columns [aluY_line; l1_line] st ∅
           (RepeatAnnot.mk "L1HS" "LINE" "LINE/L1" "chr1" 50 80 "-" 300)
           _ Hp).
  - vm_compute in Hp. injection Hp as <-. simpl.
    apply elem_of_cons; right. apply elem_of_cons; left. reflexivity.
  - vm_compute. reflexivity.
Defined.

Lemma divsum_candidate_fields (raw : string) (fields : list string) :
  divsum_candidate raw = Some fields →
  fields = split_on "009" (strip is_newline raw).
Proof.
  unfold divsum_candidate.
  destruct (startswith "#" _ || _); [discriminate|].
  destruct (_ && _); [|discriminate]. by intros [= <-].
Qed.

Lemma divsum_records_tab_free (lines : list string)
    (recs : list RepeatDivsum.t) :
  divsum_records lines = Ok recs →
  Forall (λ r, tab_free (RepeatDivsum.r_family r)
               ∧ tab_free (RepeatDivsum.r_id r)) recs.
Proof.
  revert recs. induction lines as [|raw lines IH]; intros recs; simpl.
  - intros [= <-]. constructor.
  - destruct (divsum_candidate raw) as [fields|] eqn:Hc; [|apply IH].
    destruct (divsum_record fields) as [r|e] eqn:Hr; simpl; [|discriminate].
    destruct (divsum_records lines) as [rs|e]; simpl; [|discriminate].
    intros [= <-]. constructor; [|by apply IH].
    apply divsum_candidate_fields in Hc.
    pose proof (split_on_no_sep "009" (strip is_newline raw)) as Hsep.
    rewrite <- Hc in Hsep. unfold divsum_record in Hr.
    destruct fields as [|f0 [|f1 [|f2 [|f3 [|f4 [|f5 fs]]]]]]; try discriminate.
    destruct (int_of_string f2); simpl in Hr; [|discriminate].
    destruct (int_of_string f3); simpl in Hr; [|discriminate].
    destruct (float_of_string f4); simpl in Hr; [|discriminate].
    injection Hr as <-. simpl.
    apply Forall_cons in Hsep as [H0 Hsep].
    apply Forall_cons in Hsep as [H1 _]. done.
Qed.

(** X19: the rows of the clean divergence file have exactly five
    columns.  For a record of the index that [parse_divsum_table]
    returned, the row is five fields joined by tabs and a newline, and
    splitting the text before the newline at the tabs gives the five
    fields back. *)
Theorem divsum_row_five_columns (lines : list string) (min_len : Z)
    (st : divsum_state) (k : string) (r : RepeatDivsum.t) :
  parse_divsum_table lines min_len = Ok st →
  divsum st !! k = Some r →
  length (divsum_fields r) = 5%nat
  ∧ divsum_row r = join TAB (divsum_fields r) +:+ NL
  ∧ split_on "009" (join TAB (divsum_fields r)) = divsum_fields r.
Proof.
  rewrite parse_divsum_table_records.
  destruct (divsum_records lines) as [recs|e] eqn:Hrecs; simpl; [|discriminate].
  intros [= <-]; simpl. rewrite enter_all_empty_lookup.
  intros Hl%last_elem_of. unfold with_id, retained in Hl.
  rewrite !list_elem_of_filter in Hl. destruct Hl as (_ & _ & Hin).
  pose proof (divsum_records_tab_free lines recs Hrecs) as Hall.
  rewrite Forall_forall in Hall. destruct (Hall r Hin) as [Hf Hi].
  split; [reflexivity|]. split; [reflexivity|].
  apply (split_on_join "009" (divsum_fields r)); [discriminate|].
  unfold divsum_fields. repeat (apply Forall_cons; split); try done;
    try apply str_of_Z_tab_free.
  apply format_g_tab_free.
Qed.

Lemma divsum_row_five_columns_witness :
  ∃ r, split_on "009" (join TAB (divsum_fields r))
       = ["SINE/Alu"; "AluY"; "1000"; "100"; "0.125"].
Proof.
  destruct (parse_divsum_table [line_wcl_100] 0) as [st|e] eqn:Hp;
    [|vm_compute in Hp; discriminate].
  destruct (divsum st !! "AluY") as [r|] eqn:Hr.
  - exists r.
    destruct (divsum_row_five_columns [line_wcl_100] 0 st "AluY" r Hp Hr)
      as (_ & _ & ->).
    vm_compute in Hp. injection Hp as <-. vm_compute in Hr.
    injection Hr as <-. vm_compute. reflexivity.
  - exfalso. vm_compute in Hp. injection Hp as <-. vm_compute in Hr.
    discriminate.
Defined.

(** ** Numbers written and read back *)

Lemma digits_val_app (acc : Z) (s t : string) :
  digits_val acc (s +:+ t) = digits_val (digits_val acc s) t.
Proof. revert acc. induction s as [|c s IH]; intros acc; simpl; auto. Qed.

Lemma digits_val_weight (acc : Z) (ds : string) :
  digits_val acc ds
  = acc * 10 ^ Z.of_nat (String.length ds) + digits_val 0 ds.
Proof.
  revert acc. induction ds as [|c ds IH]; intros acc.
  - simpl. lia.
  - cbn [digits_val String.length]. rewrite IH, (IH (10 * 0 + digit_val c)).
    rewrite Nat2Z.inj_succ, Z.pow_succ_r by lia. lia.
Qed.

Lemma parse_digits_digits (ds : string) (acc : Z) (b : bool) :
  all_chars is_digit ds = true → ds ≠ EmptyString →
  parse_digits acc b ds = Some (digits_val acc ds).
Proof.
  revert acc b. induction ds as [|c ds IH]; intros acc b Hall Hne; [done|].
  simpl in Hall. apply andb_prop in Hall as [Hc Hds].
  simpl. rewrite Hc. destruct ds as [|c' ds']; [reflexivity|].
  by apply IH.
Qed.

Lemma digit_val_char (d : Z) : 0 <= d < 10 → digit_val (digit_char d) = d.
Proof.
  intros Hd.
  assert (d = 0 ∨ d = 1 ∨ d = 2 ∨ d = 3 ∨ d = 4 ∨ d = 5 ∨ d = 6 ∨ d = 7
          ∨ d = 8 ∨ d = 9) as Hcases by lia.
  repeat (destruct Hcases as [->|Hcases]; [reflexivity|]).
  subst d. reflexivity.
Qed.

(** With enough fuel [digits_go] puts the digits of [n] in front of the
    accumulator. *)
Lemma append_snoc (s t : string) (c : ascii) :
  s +:+ String c t = (s +:+ String c EmptyString) +:+ t.
Proof.
  induction s as [|c' s IH]; [reflexivity|].
  change (String c' (s +:+ String c t)
          = String c' ((s +:+ String c EmptyString) +:+ t)).
  f_equal. exact IH.
Qed.

Lemma append_empty (s : string) : s +:+ EmptyString = s.
Proof.
  induction s as [|c s IH]; [reflexivity|].
  change (String c (s +:+ EmptyString) = String c s). by rewrite IH.
Qed.

Lemma digits_go_S (fuel : nat) (n : Z) (acc : string) :
  digits_go (S fuel) n acc
  = if n <? 10 then String (digit_char (n mod 10)) acc
    else digits_go fuel (n / 10) (String (digit_char (n mod 10)) acc).
Proof. reflexivity. Qed.

Lemma digits_go_value (fuel : nat) (n : Z) (acc : string) :
  0 <= n < 10 ^ Z.of_nat (S fuel) →
  ∃ ds, digits_go (S fuel) n acc = ds +:+ acc
        ∧ all_chars is_digit ds = true
        ∧ ds ≠ EmptyString
        ∧ digits_val 0 ds = n.
Proof.
  revert n acc. induction fuel as [|fuel IH]; intros n acc Hn;
    rewrite digits_go_S; destruct (Z.ltb_spec n 10) as [Hlt|Hge].
  - exists (String (digit_char (n mod 10)) EmptyString).
    rewrite Z.mod_small by lia. split; [reflexivity|]. split.
    { simpl. rewrite digit_char_is_digit by lia. done. }
    split; [done|]. simpl. rewrite digit_val_char by lia. lia.
  - simpl in Hn. lia.
  - exists (String (digit_char (n mod 10)) EmptyString).
    rewrite Z.mod_small by lia. split; [reflexivity|]. split.
    { simpl. rewrite digit_char_is_digit by lia. done. }
    split; [done|]. simpl. rewrite digit_val_char by lia. lia.
  - assert (0 <= n / 10 < 10 ^ Z.of_nat (S fuel)) as Hq.
    { rewrite (Nat2Z.inj_succ (S fuel)), Z.pow_succ_r in Hn by lia.
      split; [apply Z.div_pos; lia|]. apply Z.div_lt_upper_bound; lia. }
    destruct (IH (n / 10) (String (digit_char (n mod 10)) acc) Hq)
      as (ds & Heq & Hall & Hne & Hval).
    exists (ds +:+ String (digit_char (n mod 10)) EmptyString).
    split.
    { rewrite Heq. apply append_snoc. }
    split.
    { rewrite all_chars_app, Hall. simpl.
      rewrite digit_char_is_digit by (apply Z.mod_pos_bound; lia). done. }
    split; [by destruct ds|].
    rewrite digits_val_app, Hval. simpl.
    rewrite digit_val_char by (apply Z.mod_pos_bound; lia).
    pose proof (Z.div_mod n 10). lia.
Qed.

Lemma str_of_nat_Z_value (n : Z) :
  0 <= n →
  all_chars is_digit (str_of_nat_Z n) = true
  ∧ str_of_nat_Z n ≠ EmptyString
  ∧ digits_val 0 (str_of_nat_Z n) = n.
Proof.
  intros Hn. unfold str_of_nat_Z.
  destruct (digits_go_value (Z.to_nat (Z.log2 n)) n EmptyString)
    as (ds & Heq & Hall & Hne & Hval).
  - split; [done|]. rewrite Nat2Z.inj_succ, Z2Nat.id by apply Z.log2_nonneg.
    destruct (Z.eq_dec n 0) as [->|Hnz]; [simpl; lia|].
    pose proof (Z.log2_spec n ltac:(lia)) as [_ Hup].
    eapply Z.lt_le_trans; [exact Hup|].
    apply Z.pow_le_mono_l. pose proof (Z.log2_nonneg n). lia.
  - rewrite Heq, append_empty. done.
Qed.

Lemma lstrip_none (p : ascii → bool) (s : string) :
  all_chars (λ c, negb (p c)) s = true → lstrip p s = s.
Proof.
  destruct s as [|c s]; simpl; [done|].
  intros [Hc _]%andb_prop. apply negb_true_iff in Hc. by rewrite Hc.
Qed.

Lemma rstrip_none (p : ascii → bool) (s : string) :
  all_chars (λ c, negb (p c)) s = true → rstrip p s = s.
Proof.
  induction s as [|c s IH]; simpl; [done|].
  intros [Hc Hs]%andb_prop. apply negb_true_iff in Hc.
  rewrite (IH Hs). destruct s; [by rewrite Hc|done].
Qed.

Lemma strip_none (p : ascii → bool) (s : string) :
  all_chars (λ c, negb (p c)) s = true → strip p s = s.
Proof.
  intros H. unfold strip. rewrite (lstrip_none p s H). by apply rstrip_none.
Qed.

Lemma number_char_not_num_space (c : ascii) :
  number_char c = true → negb (is_num_space c) = true.
Proof. destruct c as [[] [] [] [] [] [] [] []]; vm_compute; congruence. Qed.

(** The text of an integer reads back as the integer. *)
Lemma int_of_string_str_of_Z (z : Z) : int_of_string (str_of_Z z) = Ok z.
Proof.
  unfold int_of_string.
  rewrite strip_none
    by (apply (all_chars_impl _ _ _ number_char_not_num_space),
          str_of_Z_number).
  unfold str_of_Z. destruct (Z.ltb_spec z 0) as [Hneg|Hpos].
  - destruct (str_of_nat_Z_value (- z) ltac:(lia)) as (Hall & Hne & Hval).
    rewrite (parse_digits_digits _ 0 false Hall Hne), Hval. simpl.
    f_equal. lia.
  - destruct (str_of_nat_Z_value z Hpos) as (Hall & Hne & Hval).
    pose proof (parse_digits_digits _ 0 false Hall Hne) as Hparse.
    rewrite Hval in Hparse.
    destruct (str_of_nat_Z z) as [|c u]; [done|].
    simpl in Hall. apply andb_prop in Hall as [Hc _].
    destruct c as [[] [] [] [] [] [] [] []]; try discriminate Hc;
      rewrite Hparse; reflexivity.
Qed.

(** ** The text of a float reads back as a float *)

Lemma scan_digits_eq (acc cnt : Z) (c : ascii) (s' : string) :
  scan_digits acc cnt (String c s')
  = if is_digit c then
      match s' with
      | String "_" (String c2 _ as s'') =>
          if is_digit c2 then scan_digits (10 * acc + digit_val c) (cnt + 1) s''
          else (10 * acc + digit_val c, cnt + 1, s')
      | _ => scan_digits (10 * acc + digit_val c) (cnt + 1) s'
      end
    else (acc, cnt, String c s').
Proof. reflexivity. Qed.

(** A digit that is not followed by an underscore is read, and the scan
    goes on behind it. *)
Lemma scan_digits_digit (acc cnt : Z) (c : ascii) (s' : string) :
  is_digit c = true →
  (∀ u, s' ≠ String "_" u) →
  scan_digits acc cnt (String c s')
  = scan_digits (10 * acc + digit_val c) (cnt + 1) s'.
Proof.
  intros Hc Hs. rewrite scan_digits_eq, Hc.
  destruct s' as [|c2 u]; [reflexivity|].
  destruct c2 as [[] [] [] [] [] [] [] []]; try reflexivity.
  exfalso. by apply (Hs u).
Qed.

Lemma scan_digits_stop (acc cnt : Z) (rest : string) :
  (∀ c r, rest = String c r → is_digit c = false) →
  scan_digits acc cnt rest = (acc, cnt, rest).
Proof.
  intros H. destruct rest as [|c r]; [reflexivity|].
  rewrite scan_digits_eq, (H c r eq_refl). reflexivity.
Qed.

(** A run of digits before something that begins with neither a digit
    nor an underscore is read whole. *)
Lemma scan_digits_run (ds rest : string) (acc cnt : Z) :
  all_chars is_digit ds = true →
  (∀ c r, rest = String c r → is_digit c = false ∧ c ≠ "_"%char) →
  scan_digits acc cnt (ds +:+ rest)
  = (digits_val acc ds, cnt + Z.of_nat (String.length ds), rest).
Proof.
  intros Hds Hrest. revert acc cnt.
  induction ds as [|c ds IH]; intros acc cnt.
  - change (EmptyString +:+ rest) with rest.
    rewrite scan_digits_stop; [simpl; f_equal; f_equal; lia|].
    intros c r Hr. by destruct (Hrest c r Hr).
  - simpl in Hds. apply andb_prop in Hds as [Hc Hds].
    change (String c ds +:+ rest) with (String c (ds +:+ rest)).
    rewrite scan_digits_digit; [|done|].
    + rewrite (IH Hds). cbn [digits_val String.length].
      rewrite Nat2Z.inj_succ. f_equal. f_equal. lia.
    + intros u Hu. destruct ds as [|c' ds'].
      * change (EmptyString +:+ rest) with rest in Hu.
        destruct (Hrest _ _ Hu) as [_ Hne]. done.
      * change (String c' ds' +:+ rest) with (String c' (ds' +:+ rest)) in Hu.
        injection Hu as -> _. simpl in Hds. discriminate.
Qed.

Lemma fraction_text_head (fr ex : string) (c : ascii) (r : string) :
  fraction_text fr → exponent_text ex →
  fr +:+ ex = String c r → is_digit c = false ∧ c ≠ "_"%char.
Proof.
  intros [->|(f & _ & _ & ->)] Hex.
  - change (EmptyString +:+ ex) with ex.
    destruct Hex as [->|(sgn & ds & _ & _ & _ & ->)]; [discriminate|].
    intros [= <- _]. done.
  - intros [= <- _]. done.
Qed.

Lemma exponent_text_head (ex : string) (c : ascii) (r : string) :
  exponent_text ex → ex = String c r → is_digit c = false ∧ c ≠ "_"%char.
Proof.
  intros [->|(sgn & ds & _ & _ & _ & ->)]; [discriminate|].
  intros [= <- _]. done.
Qed.

Lemma scan_exponent_text (ex : string) :
  exponent_text ex → ∃ v, scan_exponent ex = Some v.
Proof.
  intros [->|(sgn & ds & Hsgn & Hds & Hne & ->)]; [by exists 0|].
  pose proof (scan_digits_run ds EmptyString 0 0 Hds) as Hscan.
  rewrite append_empty in Hscan.
  assert ((0 <? 0 + Z.of_nat (String.length ds)) = true) as Hpos.
  { apply Z.ltb_lt. destruct ds; [done|]. simpl. lia. }
  destruct Hsgn as [-> | ->]; simpl; rewrite Hscan by discriminate;
    rewrite Hpos; eauto.
Qed.

(** The digits, fraction and exponent are all read. *)
Lemma float_of_decimal_text (neg : bool) (u : string) :
  decimal_text u →
  ∃ mant ex, 
    (let '(ip, ic, r1) := scan_digits 0 0 u in
     let '(mant, fc, r2) :=
       match r1 with
       | String "." r => scan_digits ip 0 r
       | _ => (ip, 0, r1)
       end in
     if 0 <? ic + fc then
       match scan_exponent r2 with
       | Some ex => Ok (float_of_decimal neg mant (ex - fc))
       | None => Raise ValueError
       end
     else Raise ValueError)
    = Ok (float_of_decimal neg mant ex).
Proof.
  intros (ip & fr & ex & Hip & Hne & Hfr & Hex & ->).
  rewrite (scan_digits_run ip (fr +:+ ex) 0 0 Hip)
    by (intros c r; by apply fraction_text_head).
  assert (0 < Z.of_nat (String.length ip)) as Hlen.
  { destruct ip; [done|]. simpl. lia. }
  destruct (scan_exponent_text ex Hex) as [v Hv].
  destruct Hfr as [->|(f & Hf & Hfne & ->)].
  - change (EmptyString +:+ ex) with ex.
    assert (match ex with
            | String "." r => scan_digits (digits_val 0 ip) 0 r
            | _ => (digits_val 0 ip, 0, ex)
            end = (digits_val 0 ip, 0, ex)) as ->.
    { destruct Hex as [->|(sgn & ds & _ & _ & _ & ->)]; reflexivity. }
    replace (0 <? 0 + Z.of_nat (String.length ip) + 0) with true
      by (symmetry; apply Z.ltb_lt; lia).
    rewrite Hv. eauto.
  - change (String "." f +:+ ex) with (String "." (f +:+ ex)).
    cbv iota beta.
    rewrite (scan_digits_run f ex _ 0 Hf)
      by (intros c r; by apply exponent_text_head).
    replace (0 <? 0 + Z.of_nat (String.length ip)
                   + (0 + Z.of_nat (String.length f))) with true
      by (symmetry; apply Z.ltb_lt; lia).
    rewrite Hv. eauto.
Qed.

Lemma append_assoc (s t u : string) : (s +:+ t) +:+ u = s +:+ t +:+ u.
Proof.
  induction s as [|c s IH]; [reflexivity|].
  change (String c ((s +:+ t) +:+ u) = String c (s +:+ t +:+ u)).
  by rewrite IH.
Qed.

Lemma with_fraction_text (ipart frac : string) :
  all_chars is_digit frac = true →
  ∃ fr, fraction_text fr ∧ with_fraction ipart frac = ipart +:+ fr.
Proof.
  intros Hf. unfold with_fraction.
  pose proof (all_chars_rstrip is_digit is_zero_char frac Hf) as Hr.
  destruct (rstrip is_zero_char frac) as [|c r].
  - exists EmptyString. split; [by left|]. by rewrite append_empty.
  - exists (String "." (String c r)). split; [|reflexivity].
    right. exists (String c r). done.
Qed.

Lemma exponent_suffix_text (x : Z) : exponent_text (exponent_suffix x).
Proof.
  right. unfold exponent_suffix.
  destruct (str_of_nat_Z_value (Z.abs x) ltac:(lia)) as (Hall & Hne & _).
  exists (if x <? 0 then "-"%char else "+"%char),
         (if Z.abs x <? 10 then String "0" (str_of_nat_Z (Z.abs x))
          else str_of_nat_Z (Z.abs x)).
  split; [destruct (x <? 0); auto|]. split.
  { destruct (Z.abs x <? 10); [simpl; by rewrite Hall|done]. }
  split; [by destruct (Z.abs x <? 10)|reflexivity].
Qed.

Lemma take_str_nonempty (k : nat) (s : string) :
  (0 < k)%nat → s ≠ EmptyString → take_str k s ≠ EmptyString.
Proof. destruct k; [lia|]. by destruct s. Qed.

(** The text of a finite float, without its sign, is digits, a fraction
    part and an exponent part. *)
Lemma format_g_finite_text (p m e : Z) : decimal_text (format_g_finite p m e).
Proof.
  unfold format_g_finite. destruct (m =? 0).
  { exists "0", EmptyString, EmptyString.
    split; [done|]. split; [done|]. split; [by left|]. split; [by left|done]. }
  destruct (round_sig p _ _) as [q x].
  pose proof (str_of_nat_Z_digits q) as Hq.
  pose proof (str_of_nat_Z_head q) as Hhead.
  assert (str_of_nat_Z q ≠ EmptyString) as Hne by (by destruct (str_of_nat_Z q)).
  destruct ((-4 <=? x) && (x <? p)).
  - destruct (Z.leb_spec 0 x).
    + destruct (with_fraction_text
                  (take_str (Z.to_nat (x + 1)) (str_of_nat_Z q))
                  (drop_str (Z.to_nat (x + 1)) (str_of_nat_Z q)))
        as (fr & Hfr & ->); [by apply all_chars_drop|].
      exists (take_str (Z.to_nat (x + 1)) (str_of_nat_Z q)), fr, EmptyString.
      split; [by apply all_chars_take|].
      split; [apply take_str_nonempty; [lia|done]|].
      split; [done|]. split; [by left|]. by rewrite append_empty.
    + destruct (with_fraction_text "0"
                  (zeros (Z.to_nat (- x - 1)) +:+ str_of_nat_Z q))
        as (fr & Hfr & ->).
      { by rewrite all_chars_app, all_chars_zeros, Hq. }
      exists "0", fr, EmptyString.
      split; [done|]. split; [done|]. split; [done|]. split; [by left|].
      by rewrite append_empty.
  - destruct (with_fraction_text (take_str 1 (str_of_nat_Z q))
                (drop_str 1 (str_of_nat_Z q)))
      as (fr & Hfr & ->); [by apply all_chars_drop|].
    exists (take_str 1 (str_of_nat_Z q)), fr, (exponent_suffix x).
    split; [by apply all_chars_take|].
    split; [apply take_str_nonempty; [lia|done]|].
    split; [done|]. split; [apply exponent_suffix_text|].
    by rewrite append_assoc.
Qed.

Lemma sign_of_unsigned (t : string) :
  starts_with_digit t →
  match t with
  | String "+" u => (false, u)
  | String "-" u => (true, u)
  | _ => (false, t)
  end = (false, t).
Proof.
  destruct t as [|c u]; [done|]. simpl. intros Hc.
  destruct c as [[] [] [] [] [] [] [] []]; try discriminate Hc; reflexivity.
Qed.

Lemma not_special (u : string) :
  starts_with_digit u →
  String.eqb (lower_str u) "inf" || String.eqb (lower_str u) "infinity" = false
  ∧ String.eqb (lower_str u) "nan" = false.
Proof.
  destruct u as [|c u]; [done|]. simpl. intros Hc.
  destruct c as [[] [] [] [] [] [] [] []]; try discriminate Hc; done.
Qed.

Lemma decimal_text_head (s : string) : decimal_text s → starts_with_digit s.
Proof.
  intros (ip & fr & ex & Hip & Hne & _ & _ & ->).
  destruct ip as [|c ip]; [done|]. simpl in *.
  by apply andb_prop in Hip as [Hc _].
Qed.

(** Whatever [format_g] writes, [float] reads: the text of a float in
    general format never makes [float_of_string] raise. *)
Lemma float_of_string_format_g (p : Z) (x : pyfloat) :
  ∃ y, float_of_string (format_g p x) = Ok y.
Proof.
  destruct x as [|[]|neg m e]; [by eexists|by eexists|by eexists|].
  pose proof (format_g_finite_text (Z.max p 1) m e) as Htext.
  pose proof (decimal_text_head _ Htext) as Hhead.
  pose proof (not_special _ Hhead) as [Hinf Hnan].
  destruct (float_of_decimal_text neg _ Htext) as (mant & ex & Hread).
  unfold float_of_string.
  rewrite strip_none
    by (apply (all_chars_impl _ _ _ number_char_not_num_space),
          format_g_number).
  cbn [format_g]. destruct neg.
  - change (match String "-" (format_g_finite (Z.max p 1) m e) with
            | String "+" u => (false, u)
            | String "-" u => (true, u)
            | _ => (false, String "-" (format_g_finite (Z.max p 1) m e))
            end) with (true, format_g_finite (Z.max p 1) m e).
    cbv iota beta. rewrite Hinf, Hnan. eauto.
  - rewrite (sign_of_unsigned _ Hhead).
    cbv iota beta. rewrite Hinf, Hnan. eauto.
Qed.

(** ** The clean divergence file can be parsed again *)

Lemma lstrip_head (p : ascii → bool) (s : string) (c : ascii) (u : string) :
  lstrip p s = String c u → p c = false.
Proof.
  induction s as [|c' s IH]; simpl; [discriminate|].
  destruct (p c') eqn:Hc; [exact IH|]. by intros [= <- _].
Qed.

Lemma rstrip_head (p : ascii → bool) (s : string) (c : ascii) (u : string) :
  rstrip p s = String c u → ∃ s', s = String c s'.
Proof.
  destruct s as [|c' s]; simpl; [discriminate|].
  destruct (rstrip p s); [destruct (p c')|]; intros H; try discriminate H;
    injection H as <- _; eauto.
Qed.

Lemma strip_head (p : ascii → bool) (s : string) (c : ascii) (u : string) :
  strip p s = String c u → p c = false.
Proof.
  unfold strip. intros H. apply rstrip_head in H as [s' H].
  by eapply lstrip_head.
Qed.

Lemma split_on_head_prefix (sep : ascii) (s w : string) (ws : list string)
    (c : ascii) (u : string) :
  split_on sep s = w :: ws → w = String c u → ∃ s', s = String c s'.
Proof.
  destruct s as [|c' s]; simpl; [by intros [= <- _]|].
  destruct (Ascii.eqb c' sep); [by intros [= <- _]|].
  destruct (split_on sep s); intros [= <- _] [= <- _]; eauto.
Qed.

Lemma rstrip_tail (p : ascii → bool) (s t : string) :
  all_chars (λ c, negb (p c)) s = true → all_chars p t = true →
  rstrip p (s +:+ t) = s.
Proof.
  intros Hs Ht. induction s as [|c s IH].
  - change (EmptyString +:+ t) with t. clear Hs.
    induction t as [|c t IHt]; [done|]. simpl in *.
    apply andb_prop in Ht as [Hc Ht]. by rewrite (IHt Ht), Hc.
  - simpl in Hs. apply andb_prop in Hs as [Hc Hs].
    apply negb_true_iff in Hc.
    change (String c s +:+ t) with (String c (s +:+ t)).
    simpl. rewrite (IH Hs). destruct s; [by rewrite Hc|done].
Qed.

Lemma rstrip_append_tail (p : ascii → bool) (a s t : string) :
  all_chars (λ c, negb (p c)) s = true → s ≠ EmptyString →
  all_chars p t = true →
  rstrip p (a +:+ s +:+ t) = a +:+ s.
Proof.
  intros Hs Hne Ht. induction a as [|c a IH].
  - change (EmptyString +:+ s +:+ t) with (s +:+ t).
    by rewrite rstrip_tail.
  - change (String c a +:+ s +:+ t) with (String c (a +:+ s +:+ t)).
    change (String c a +:+ s) with (String c (a +:+ s)).
    simpl. rewrite IH.
    destruct (a +:+ s) as [|c' r] eqn:Has; [|done].
    destruct a; [done|discriminate].
Qed.

Lemma number_char_not_newline (c : ascii) :
  number_char c = true → negb (is_newline c) = true.
Proof. destruct c as [[] [] [] [] [] [] [] []]; vm_compute; congruence. Qed.

Lemma format_g_nonempty (p : Z) (x : pyfloat) : format_g p x ≠ EmptyString.
Proof.
  destruct x as [|[]|[] m e]; simpl; try discriminate.
  pose proof (format_g_finite_head (Z.max p 1) m e) as H.
  by destruct (format_g_finite (Z.max p 1) m e).
Qed.

(** The line of a record, without its newline. *)
Lemma strip_divsum_row (r : RepeatDivsum.t) :
  plain_head (RepeatDivsum.r_family r) →
  strip is_newline (divsum_row r) = join TAB (divsum_fields r).
Proof.
  intros Hhead. unfold strip.
  assert (lstrip is_newline (divsum_row r) = divsum_row r) as ->.
  { unfold divsum_row, divsum_fields.
    cbn [join]. destruct (RepeatDivsum.r_family r) as [|c u] eqn:Hf;
      [reflexivity|].
    destruct (Hhead c u eq_refl) as [Hc _].
    change ((String c u +:+ ?x) +:+ NL) with (String c ((u +:+ x) +:+ NL)).
    simpl. by rewrite Hc. }
  unfold divsum_row.
  set (k := format_g 8 (RepeatDivsum.kimura r)).
  assert (join TAB (divsum_fields r)
          = (join TAB [RepeatDivsum.r_family r; RepeatDivsum.r_id r;
                       str_of_Z (RepeatDivsum.abs_len r);
                       str_of_Z (RepeatDivsum.wchar_len r)] +:+ TAB) +:+ k)
    as Hj.
  { unfold divsum_fields. fold k. cbn [join]. by rewrite !append_assoc. }
  rewrite Hj, append_assoc.
  apply rstrip_append_tail.
  - apply (all_chars_impl _ _ _ number_char_not_newline), format_g_number.
  - apply format_g_nonempty.
  - reflexivity.
Qed.

Lemma divsum_candidate_inv (raw : string) (fields : list string) :
  divsum_candidate raw = Some fields →
  startswith "#" (strip is_newline raw) = false
  ∧ fields = split_on "009" (strip is_newline raw)
  ∧ length fields = 5%nat
  ∧ default EmptyString (head fields) ∉ divsum_skip.
Proof.
  unfold divsum_candidate.
  destruct (startswith "#" _); simpl; [discriminate|].
  destruct (String.length _ =? 0)%nat; simpl; [discriminate|].
  destruct (Nat.eqb_spec (length (split_on "009" (strip is_newline raw))) 5)
    as [H5|]; simpl; [|discriminate].
  destruct (bool_decide _) eqn:Hb; simpl; [discriminate|].
  intros [= <-]. apply bool_decide_eq_false in Hb. done.
Qed.

Lemma divsum_records_from_line (lines : list string)
    (recs : list RepeatDivsum.t) :
  divsum_records lines = Ok recs → Forall record_from_line recs.
Proof.
  revert recs. induction lines as [|raw lines IH]; intros recs; simpl.
  - intros [= <-]. constructor.
  - destruct (divsum_candidate raw) as [fields|] eqn:Hc; [|apply IH].
    destruct (divsum_record fields) as [r|e] eqn:Hr; simpl; [|discriminate].
    destruct (divsum_records lines) as [rs|e]; simpl; [|discriminate].
    intros [= <-]. constructor; [|by apply IH].
    apply divsum_candidate_inv in Hc as (Hhash & Hf & _ & Hskip).
    pose proof (split_on_no_sep "009" (strip is_newline raw)) as Hsep.
    rewrite <- Hf in Hsep. unfold divsum_record in Hr.
    destruct fields as [|f0 [|f1 [|f2 [|f3 [|f4 [|f5 fs]]]]]]; try discriminate.
    destruct (int_of_string f2); simpl in Hr; [|discriminate].
    destruct (int_of_string f3); simpl in Hr; [|discriminate].
    destruct (float_of_string f4); simpl in Hr; [|discriminate].
    injection Hr as <-. unfold record_from_line. simpl.
    apply Forall_cons in Hsep as [H0 Hsep].
    apply Forall_cons in Hsep as [H1 _].
    split; [done|]. split; [done|]. split; [done|]. split; [|done].
    intros c u ->.
    destruct (split_on_head_prefix "009" _ _ _ c u (eq_sym Hf) eq_refl)
      as [s' Hs'].
    split; [by apply (strip_head _ _ _ _ Hs')|].
    rewrite Hs' in Hhash. exact Hhash.
Qed.

(** The row of a record is a candidate line, and its record is the one
    written, but for the Kimura value. *)
Lemma divsum_row_reread (r : RepeatDivsum.t) :
  record_from_line r →
  ∃ r', divsum_candidate (divsum_row r) = Some (divsum_fields r)
        ∧ divsum_record (divsum_fields r) = Ok r'
        ∧ same_but_kimura r r'.
Proof.
  intros (Hfam & Hid & Hskip & Hhead & Hcls).
  destruct (float_of_string_format_g 8 (RepeatDivsum.kimura r)) as [x Hx].
  exists (RepeatDivsum.init (RepeatDivsum.r_family r) (RepeatDivsum.r_id r)
            (RepeatDivsum.abs_len r) (RepeatDivsum.wchar_len r) x).
  split; [|split].
  - unfold divsum_candidate. rewrite (strip_divsum_row r Hhead).
    assert (split_on "009" (join TAB (divsum_fields r)) = divsum_fields r)
      as Hsplit.
    { apply (split_on_join "009" (divsum_fields r)); [discriminate|].
      unfold divsum_fields. repeat (apply Forall_cons; split); try done;
        try apply str_of_Z_tab_free.
      apply format_g_tab_free. }
    rewrite Hsplit.
    assert (startswith "#" (join TAB (divsum_fields r)) = false) as ->.
    { unfold divsum_fields. cbn [join].
      destruct (RepeatDivsum.r_family r) as [|c u] eqn:Hf; [reflexivity|].
      destruct (Hhead c u eq_refl) as [_ Hc]. exact Hc. }
    assert ((String.length (join TAB (divsum_fields r)) =? 0)%nat = false)
      as ->.
    { unfold divsum_fields. cbn [join].
      destruct (RepeatDivsum.r_family r); reflexivity. }
    simpl. rewrite bool_decide_eq_false_2 by done. reflexivity.
  - unfold divsum_record, divsum_fields.
    rewrite !int_of_string_str_of_Z. simpl. rewrite Hx. reflexivity.
  - unfold same_but_kimura. simpl. repeat split; try done. eauto.
Qed.

Lemma divsum_records_rows (recs : list RepeatDivsum.t) :
  Forall record_from_line recs →
  ∃ recs', divsum_records (divsum_row <$> recs) = Ok recs'
           ∧ Forall2 same_but_kimura recs recs'.
Proof.
  induction 1 as [|r recs Hr _ (recs' & IH & Hsame)].
  - exists []. split; [done|constructor].
  - destruct (divsum_row_reread r Hr) as (r' & Hc & Hrec & Hs).
    exists (r' :: recs'). rewrite fmap_cons. simpl.
    rewrite Hc, Hrec. simpl. rewrite IH. simpl.
    split; [done|by constructor].
Qed.

Lemma with_id_absent (l : list RepeatDivsum.t) (k : string) :
  k ∉ RepeatDivsum.r_id <$> l → with_id k l = [].
Proof.
  induction l as [|x l IH]; [done|]. rewrite fmap_cons.
  intros [Hne Hk]%not_elem_of_cons. unfold with_id in *.
  rewrite filter_cons, decide_False by congruence. by apply IH.
Qed.

Lemma with_id_unique (l : list RepeatDivsum.t) (i : nat) (r : RepeatDivsum.t) :
  NoDup (RepeatDivsum.r_id <$> l) → l !! i = Some r →
  with_id (RepeatDivsum.r_id r) l = [r].
Proof.
  revert i. induction l as [|x l IH]; intros i Hnd Hi; [done|].
  rewrite fmap_cons in Hnd. apply NoDup_cons in Hnd as [Hx Hnd].
  destruct i as [|i]; simpl in Hi.
  - injection Hi as ->. unfold with_id. rewrite filter_cons, decide_True by done.
    f_equal. by apply with_id_absent.
  - unfold with_id. rewrite filter_cons, decide_False; [by eapply IH|].
    intros Heq. apply Hx. rewrite Heq. apply list_elem_of_fmap.
    exists r. split; [done|]. by eapply list_elem_of_lookup_2.
Qed.

Lemma retained_all (min_len : Z) (l : list RepeatDivsum.t) :
  Forall (λ r, min_len <= RepeatDivsum.wchar_len r) l →
  retained min_len l = l ∧ discarded min_len l = [].
Proof.
  unfold retained, discarded. induction 1 as [|r l Hr _ [IH1 IH2]]; [done|].
  rewrite !filter_cons, decide_True, decide_False by lia.
  by rewrite IH1, IH2.
Qed.

Lemma divsum_index_records (lines : list string) (min_len : Z)
    (st : divsum_state) (k : string) (r : RepeatDivsum.t) :
  parse_divsum_table lines min_len = Ok st →
  divsum st !! k = Some r →
  RepeatDivsum.r_id r = k
  ∧ (record_from_line r ∧ min_len <= RepeatDivsum.wchar_len r).
Proof.
  rewrite parse_divsum_table_records.
  destruct (divsum_records lines) as [recs|e] eqn:Hrecs; simpl; [|discriminate].
  intros [= <-]; simpl. rewrite enter_all_empty_lookup.
  intros Hl%last_elem_of. unfold with_id, retained in Hl.
  rewrite !list_elem_of_filter in Hl. destruct Hl as (Hid & Hlen & Hin).
  pose proof (divsum_records_from_line lines recs Hrecs) as Hall.
  rewrite Forall_forall in Hall. auto.
Qed.

(** X20: the clean divergence file is itself a divergence summary that
    [parse_divsum_table] accepts.  Parsed with a minimum length that is
    not above the one of the run that wrote it, every row is extracted
    and none discarded, and the new index has the same identifiers with
    the same class, family and lengths; only the Kimura value differs,
    read from its eight-digit text and divided by 100 once more. *)
Theorem clean_divsum_file_reparse (lines : list string) (min_len again : Z)
    (st : divsum_state) :
  parse_divsum_table lines min_len = Ok st →
  again <= min_len →
  ∃ st',
    parse_divsum_table (out_lines (clean_divsum_file (divsum st))) again
    = Ok st'
    ∧ records st' = Z.of_nat (size (divsum st))
    ∧ discard st' = 0
    ∧ ∀ k, option_Forall2 same_but_kimura (divsum st !! k) (divsum st' !! k).
Proof.
  intros Hp Hle.
  destruct (clean_divsum_file_rows (divsum st)) as (rows & -> & Hrows).
  destruct (clean_rows_records _ _ _ Hrows) as (recs & -> & Hrecs).
  destruct (keyed_records (divsum st)
              (λ r, record_from_line r ∧ min_len <= RepeatDivsum.wchar_len r)
              _ _ (λ k r, divsum_index_records _ _ _ k r Hp) Hrecs)
    as [Hkeys Hall].
  destruct (divsum_records_rows recs) as (recs' & Hread & Hsame).
  { eapply Forall_impl; [exact Hall|]. by intros r [? _]. }
  assert (Forall (λ r, again <= RepeatDivsum.wchar_len r) recs') as Hlen.
  { clear -Hall Hsame Hle. induction Hsame as [|r r' l l' Hs _ IH]; [constructor|].
    apply Forall_cons in Hall as [[_ Hr] Hall].
    destruct Hs as (_ & _ & _ & _ & Hw & _).
    constructor; [lia|by apply IH]. }
  destruct (retained_all again recs' Hlen) as [Hret Hdis].
  assert (RepeatDivsum.r_id <$> recs' = sorted_keys (divsum st)) as Hkeys'.
  { rewrite <- Hkeys. clear -Hsame.
    induction Hsame as [|r r' l l' Hs _ IH]; [done|].
    destruct Hs as (_ & _ & Hid & _). by rewrite !fmap_cons, Hid, IH. }
  assert (NoDup (sorted_keys (divsum st))) as Hnd.
  { rewrite sorted_keys_perm. apply NoDup_fst_map_to_list. }
  simpl. rewrite parse_divsum_table_records.
  change (divsum_records (divsum_header :: (divsum_row <$> recs)))
    with (divsum_records (divsum_row <$> recs)).
  rewrite Hread. simpl. rewrite Hret, Hdis. eexists. split; [reflexivity|].
  simpl. split.
  { f_equal. rewrite <- (length_fmap RepeatDivsum.r_id), Hkeys'.
    rewrite sorted_keys_perm, length_fmap. apply length_map_to_list. }
  split; [done|].
  intros k. rewrite enter_all_empty_lookup.
  destruct (divsum st !! k) as [r|] eqn:Hk.
  - assert (k ∈ sorted_keys (divsum st)) as Hin.
    { rewrite sorted_keys_perm. apply list_elem_of_fmap.
      exists (k, r). split; [done|]. by apply elem_of_map_to_list. }
    apply list_elem_of_lookup in Hin as [i Hi].
    destruct (Forall2_lookup_l _ _ _ _ _ Hrecs Hi) as (r0 & Hr0 & Hdiv).
    assert (r0 = r) as -> by congruence.
    destruct (Forall2_lookup_l _ _ _ _ _ Hsame Hr0) as (r' & Hr' & Hs).
    assert (RepeatDivsum.r_id r' = k) as Hid.
    { destruct Hs as (_ & _ & Hid & _).
      destruct (divsum_index_records _ _ _ _ _ Hp Hk) as [Hrk _].
      congruence. }
    rewrite <- Hid, (with_id_unique recs' i r') by (by rewrite ?Hkeys').
    simpl. by constructor.
  - rewrite with_id_absent; [constructor|].
    rewrite Hkeys', sorted_keys_perm. intros Hin.
    apply list_elem_of_fmap in Hin as ([k' v] & -> & Hkv).
    apply elem_of_map_to_list in Hkv. simpl in Hk. congruence.
Qed.

Lemma clean_divsum_file_reparse_witness :
  ∃ st st',
    parse_divsum_table [line_wcl_100; line_wcl_99; line_aluY_again] 100
    = Ok st
    ∧ parse_divsum_table (out_lines (clean_divsum_file (divsum st))) 100
      = Ok st'
    ∧ records st' = 1.
Proof.
  destruct (parse_divsum_table [line_wcl_100; line_wcl_99; line_aluY_again] 100)
    as [st|e] eqn:Hp; [|vm_compute in Hp; discriminate].
  destruct (clean_divsum_file_reparse _ 100 100 st Hp ltac:(lia))
    as (st' & Hp' & Hrec & _).
  exists st, st'. split; [reflexivity|]. split; [exact Hp'|].
  rewrite Hrec. vm_compute in Hp. injection Hp as <-. vm_compute. reflexivity.
Defined.

(** ** The order of the annotations *)

Lemma start_injective (l : list RepeatAnnot.t) (a b : RepeatAnnot.t) :
  NoDup (RepeatAnnot.start <$> l) → a ∈ l → b ∈ l →
  RepeatAnnot.start a = RepeatAnnot.start b → a = b.
Proof.
  induction l as [|x l IH]; intros Hnd Ha Hb Heq.
  - by apply elem_of_nil in Ha.
  - rewrite fmap_cons in Hnd. apply NoDup_cons in Hnd as [Hx Hnd].
    apply elem_of_cons in Ha as [->|Ha]; apply elem_of_cons in Hb as [->|Hb].
    + done.
    + exfalso. apply Hx. rewrite Heq. by apply list_elem_of_fmap_2.
    + exfalso. apply Hx. rewrite <- Heq. by apply list_elem_of_fmap_2.
    + by apply IH.
Qed.

(** X21: when no two annotations have the same start coordinate, the
    merged table does not depend on the order in which the annotations
    were read: any rearrangement of the list gives the same lines and
    the same outcome. *)
Theorem merge_order_independent (cm1 cm2 : list RepeatAnnot.t)
    (divsum : gmap string RepeatDivsum.t) :
  cm1 ≡ₚ cm2 →
  NoDup (RepeatAnnot.start <$> cm1) →
  merge_cross_divsum cm1 divsum = merge_cross_divsum cm2 divsum.
Proof.
  intros Hperm Hnd. unfold merge_cross_divsum. f_equal.
  apply (StronglySorted_unique_strong start_le).
  - intros a b Ha Hb Hab Hba.
    rewrite py_sorted_perm in Ha. rewrite py_sorted_perm, <- Hperm in Hb.
    apply (start_injective cm1); [done..|].
    unfold start_le in *. lia.
  - apply sorted_by_start.
  - apply sorted_by_start.
  - by rewrite !py_sorted_perm.
Qed.

Lemma merge_order_independent_witness :
  merge_cross_divsum [aluY_annot; mir_annot] {[ "AluY" := aluY_divsum ]}
  = merge_cross_divsum [mir_annot; aluY_annot] {[ "AluY" := aluY_divsum ]}.
Proof.
  apply merge_order_independent.
  - apply Permutation_swap.
  - vm_compute. repeat constructor; intros H;
      repeat (apply elem_of_cons in H as [H|H]; [discriminate H|]);
      by apply elem_of_nil in H.
Defined.

(** ** Proportions are between 0 and 1 *)

Lemma float_limit_large : 1 < float_limit.
Proof. reflexivity. Qed.

Lemma floor_log2_ratio_le_0 (n d : Z) :
  0 < n <= d → floor_log2_ratio n d <= 0.
Proof.
  intros Hnd. unfold floor_log2_ratio.
  pose proof (Z.log2_le_mono n d ltac:(lia)) as Hlog.
  destruct (0 <=? Z.log2 n - Z.log2 d);
    match goal with |- context [if ?b then _ else _] => destruct b end; lia.
Qed.

Lemma round_half_even_le (n d p : Z) :
  0 < d → 0 <= n <= d * p → 0 <= round_half_even n d <= p.
Proof.
  intros Hd Hn. unfold round_half_even.
  pose proof (Z.div_mod n d ltac:(lia)) as Hdm.
  pose proof (Z.mod_pos_bound n d Hd) as Hr.
  assert (0 <= n / d) as Hq0 by (apply Z.div_pos; lia).
  assert (n / d <= p) as Hqp.
  { apply Z.div_le_upper_bound; lia. }
  destruct (Z.ltb_spec d (2 * (n mod d))) as [H1|H1]; simpl.
  - assert (n / d ≠ p) by nia. lia.
  - destruct (Z.eqb_spec (2 * (n mod d)) d) as [H2|H2]; simpl; [|lia].
    destruct (Z.odd (n / d)); [|lia].
    assert (n / d ≠ p) by nia. lia.
Qed.

Lemma round64_finite_unit (n d : Z) :
  0 <= n <= d → 0 < d →
  let '(m, e) := round64_finite n d in
  0 <= m ∧ if 0 <=? e then m * 2 ^ e <= 1 else m <= 2 ^ (- e).
Proof.
  intros Hnd Hd. unfold round64_finite.
  destruct (Z.eqb_spec n 0) as [->|Hn0]; [simpl; lia|].
  pose proof (floor_log2_ratio_le_0 n d ltac:(lia)) as Hfl.
  set (e := Z.max (floor_log2_ratio n d - 52) (-1074)).
  assert (e < 0) as He by lia.
  destruct (Z.leb_spec 0 e) as [?|_]; [lia|].
  assert (0 < 2 ^ (- e)) as Hpow by (apply Z.pow_pos_nonneg; lia).
  pose proof (round_half_even_le (n * 2 ^ (- e)) d (2 ^ (- e)) Hd) as H.
  assert (0 <= n * 2 ^ (- e) <= d * 2 ^ (- e)) as Hb by nia.
  specialize (H Hb). lia.
Qed.

(** X22: a count between 0 and a positive total length always has a
    proportion: the division raises nothing, and the float it gives is
    a number from 0 to 1. *)
Theorem proportion_in_unit_interval (value total : Z) :
  0 < total → 0 <= value <= total →
  ∃ x, int_truediv value total = Ok x
       ∧ in_unit_interval x
       ∧ proportion value total = Ok (format_g 8 x).
Proof.
  intros Ht Hv. unfold proportion, int_truediv, round64, fits64.
  destruct (Z.eqb_spec total 0) as [->|_]; [lia|].
  rewrite (Z.abs_eq total), (Z.abs_eq value) by lia.
  pose proof float_limit_large as Hlim.
  destruct (Z.ltb_spec value (total * float_limit)) as [_|Hge]; [|nia].
  pose proof (round64_finite_unit value total Hv Ht) as Hunit.
  destruct (round64_finite value total) as [m e].
  replace (value <? 0) with false by (symmetry; apply Z.ltb_ge; lia).
  replace (total <? 0) with false by (symmetry; apply Z.ltb_ge; lia).
  simpl. eexists. split; [reflexivity|]. split; [exact Hunit|reflexivity].
Qed.

Lemma proportion_in_unit_interval_witness :
  ∃ x, int_truediv 250 1000 = Ok x ∧ in_unit_interval x.
Proof.
  destruct (proportion_in_unit_interval 250 1000 ltac:(lia) ltac:(lia))
    as (x & Hx & Hu & _).
  exists x. split; [exact Hx|exact Hu].
Defined.

(** ** The columns of the table of proportions *)

Lemma rm_table_seq_id_kept (rm_table : list string) (sequence_id : string)
    (rp : RepProp.t) :
  parse_rm_table rm_table sequence_id = Ok rp →
  RepProp.seq_id rp = sequence_id.
Proof.
  unfold parse_rm_table.
  apply (for_each_invariant rm_table_body
           (λ r, RepProp.seq_id r = sequence_id)); [|done].
  intros r x r' Hr Hb. by rewrite (rm_table_body_seq_id r r' x Hb).
Qed.

Lemma proportion_tab_free (value total : Z) (s : string) :
  proportion value total = Ok s → tab_free s.
Proof.
  unfold proportion. destruct (int_truediv value total); simpl; [|discriminate].
  intros [= <-]. apply format_g_tab_free.
Qed.

(** X23: when the basename has no tab in it, a run of
    [extract_repmap_props.py] that writes a data row writes one of
    exactly eighteen columns, as many as the header has, whose first
    column is the basename: the row is eighteen fields joined by tabs
    and a newline, and splitting it at the tabs gives the fields back. *)
Theorem props_row_eighteen_columns (rm_table : list string)
    (basename header row : string) :
  tab_free basename →
  props_tsv (ExtractRepmapProps.main rm_table basename) = Some [header; row] →
  length (split_on "009" header) = 18%nat
  ∧ ∃ fields,
      length fields = 18%nat
      ∧ head fields = Some basename
      ∧ row = join TAB fields +:+ NL
      ∧ split_on "009" (join TAB fields) = fields.
Proof.
  intros Hb. unfold ExtractRepmapProps.main.
  destruct (parse_rm_table rm_table basename) as [rp|e] eqn:Hp;
    [|discriminate].
  apply rm_table_seq_id_kept in Hp. simpl. unfold print_table.
  destruct (props_fields rp) as [fields|e] eqn:Hf; simpl; [|discriminate].
  intros [= <- <-]. split; [reflexivity|].
  exists fields. unfold props_fields in Hf.
  repeat match type of Hf with
         | rbind (proportion ?v ?t) _ = _ =>
             let E := fresh "E" in
             destruct (proportion v t) eqn:E; simpl in Hf;
             [apply proportion_tab_free in E|discriminate Hf]
         end.
  injection Hf as <-. rewrite Hp.
  split; [reflexivity|]. split; [reflexivity|]. split; [reflexivity|].
  apply (split_on_join "009"); [discriminate|].
  repeat (apply Forall_cons; split); try done; apply str_of_Z_tab_free.
Qed.

Lemma props_row_eighteen_columns_witness :
  ∃ fields, length fields = 18%nat ∧ head fields = Some "hg38".
Proof.
  destruct (props_tsv (ExtractRepmapProps.main
                         [tbl_total_length; tbl_bases_masked; tbl_sines]
                         "hg38")) as [[|h [|row [|]]]|] eqn:Hm;
    try (vm_compute in Hm; discriminate).
  destruct (props_row_eighteen_columns _ "hg38" h row ltac:(reflexivity) Hm)
    as (_ & fields & Hlen & Hhead & _).
  exists fields. split; [exact Hlen|exact Hhead].
Defined.

(** ** The output directory *)

Lemma rstrip_all (p : ascii → bool) (s : string) :
  all_chars p s = true → rstrip p s = EmptyString.
Proof.
  induction s as [|c s IH]; simpl; [done|].
  intros [Hc Hs]%andb_prop. by rewrite (IH Hs), Hc.
Qed.

Lemma rstrip_last (p : ascii → bool) (s u : string) (c : ascii) :
  rstrip p s = u +:+ String c EmptyString → p c = false.
Proof.
  revert u. induction s as [|c' s IH]; intros u; simpl.
  - destruct u; discriminate.
  - destruct (rstrip p s) as [|c2 r] eqn:Hr.
    + destruct (p c') eqn:Hc; [destruct u; discriminate|].
      destruct u as [|cu u]; [by intros [= <-]|].
      change (String cu u +:+ String c EmptyString)
        with (String cu (u +:+ String c EmptyString)).
      intros [= _ H]. destruct u; discriminate.
    + destruct u as [|cu u].
      * change (EmptyString +:+ String c EmptyString)
          with (String c EmptyString). discriminate.
      * change (String cu u +:+ String c EmptyString)
          with (String cu (u +:+ String c EmptyString)).
        intros [= _ H]. by apply (IH u).
Qed.

(** X24: the output directory is used without its trailing slashes, so
    an accepted directory never ends with a slash; a directory written
    with slashes only, the root directory [/] for one, becomes the empty
    path, which does not exist, and the program exits with [Error: ''
    not found.] *)
Theorem check_outdir_slashes (path_exists : string → bool) (outdir : string) :
  path_exists EmptyString = false →
  (all_chars is_slash outdir = true →
   check_outdir path_exists outdir = Exits "Error: '' not found.")
  ∧ (∀ accepted, check_outdir path_exists outdir = Accepted accepted →
       accepted = rstrip is_slash outdir
       ∧ path_exists accepted = true
       ∧ ∀ u c, accepted = u +:+ String c EmptyString → c ≠ "/"%char).
Proof.
  intros Hempty. split.
  - intros Hall. unfold check_outdir. rewrite (rstrip_all _ _ Hall), Hempty.
    reflexivity.
  - intros accepted. unfold check_outdir.
    destruct (path_exists (rstrip is_slash outdir)) eqn:Hex; simpl;
      [|discriminate].
    intros [= <-]. split; [done|]. split; [done|].
    intros u c Hu ->. apply rstrip_last in Hu. discriminate.
Qed.

Lemma check_outdir_slashes_witness :
  check_outdir only_out "/" = Exits "Error: '' not found."
  ∧ check_outdir only_out "out//" = Accepted "out".
Proof.
  destruct (check_outdir_slashes only_out "/" ltac:(reflexivity)) as [H _].
  split; [apply H; reflexivity|reflexivity].
Defined.
